(** * KESMatchData: table walker, leg reconstruction, dimensions and facts

    A shallow embedding of [src/Data-Scraper/KESMatchData.py]: the helpers
    [norm_text], [parse_score], [norm_cup_name] and [_norm_key], the table
    walker [parse_table_matches] with the per-page loop of [main], and the
    dimension builder and fact assembler of [main].

    Python [str] values are lists of Unicode code points.  The case mapping
    and the decimal-digit table of the Unicode database are taken as an
    interface ([PyUnicode]) that fixes them on ASCII; everything else is
    defined here.  A parsed page is what BeautifulSoup hands to the walker:
    per table the rows, per row its header cell and its data cells.  A run
    is a list of pages with their years, and its candidate rows reach the
    dimension builder as the text columns of the data frame.

    The part of [main] in front of that is embedded too: [url_for_year], the
    choice of the years to fetch, [fetch_html] with its retries against a
    session given as a function, [decode_html_bytes], the loop that writes
    the per-year files and the reading of the files into the data frame;
    and, behind it, the writing of the four tables with the second engine as
    fall-back.  The HTML parser, the CSV and Parquet formats and the network
    stay outside. *)

From Stdlib Require Import NArith String Ascii.
From stdpp Require Import base list gmap sorting pretty.

(** ** Python text *)

Abbreviation pystr := (list N).

(** An ASCII literal as a [str]. *)
Fixpoint py (s : string) : pystr :=
  match s with
  | EmptyString => []
  | String a r => N_of_ascii a :: py r
  end.

(** Truthiness of a [str]: [if s:]. *)
Definition truthy (s : pystr) : bool :=
  match s with [] => false | _ :: _ => true end.

Section Text.
Local Open Scope N_scope.

(** [str.isspace] for one code point; this is the set [str.strip] removes
    and the class [\s] of a [str] pattern. *)
Definition isspace (c : N) : bool :=
  ((9 <=? c) && (c <=? 13)) || ((28 <=? c) && (c <=? 32))
  || (c =? 133) || (c =? 160) || (c =? 5760)
  || ((8192 <=? c) && (c <=? 8202))
  || (c =? 8232) || (c =? 8233) || (c =? 8239) || (c =? 8287)
  || (c =? 12288).

Fixpoint dropwhile (p : N → bool) (s : pystr) : pystr :=
  match s with
  | [] => []
  | c :: r => if p c then dropwhile p r else s
  end.

Definition lstrip (s : pystr) : pystr := dropwhile isspace s.
Definition rstrip (s : pystr) : pystr := reverse (dropwhile isspace (reverse s)).
(** [s.strip()] *)
Definition strip (s : pystr) : pystr := rstrip (lstrip s).

(** [s.startswith(p)] *)
Fixpoint startswith (p s : pystr) : bool :=
  match p, s with
  | [], _ => true
  | _ :: _, [] => false
  | a :: p', b :: s' => (a =? b) && startswith p' s'
  end.

(** [p in s] for two strings. *)
Fixpoint contains (p s : pystr) : bool :=
  startswith p s || match s with [] => false | _ :: r => contains p r end.

(** [s.replace("\xa0", " ")] *)
Definition replace_nbsp (s : pystr) : pystr :=
  (λ c, if c =? 160 then 32 else c) <$> s.

(** [str(n)] for a non-negative [int]. *)
Definition py_str (n : N) : pystr := py (pretty n).

(** ASCII case mapping and digits, the part of the Unicode tables that the
    interface below pins down. *)
Definition ascii_up (c : N) : N :=
  if (97 <=? c) && (c <=? 122) then c - 32 else c.
Definition ascii_low (c : N) : N :=
  if (65 <=? c) && (c <=? 90) then c + 32 else c.
Definition ascii_decimal (c : N) : option N :=
  if (48 <=? c) && (c <=? 57) then Some (c - 48) else None.
Definition is_ascii (s : pystr) : Prop := Forall (λ c, c < 128) s.

End Text.

#[export] Instance is_ascii_dec s : Decision (is_ascii s) :=
  Forall_dec (λ c, (c < 128)%N) s.

(** The Unicode database as Python sees it: [str.upper], [str.lower] and the
    decimal value of a digit ([\d] of a [str] pattern, and what [int]
    accepts).  The laws say what they are on ASCII text, that digit values
    are below ten, and that no digit is white space or a dash, so that the
    score pattern has a single way to match. *)
Class PyUnicode := {
  upper : pystr → pystr;
  lower : pystr → pystr;
  decimal : N → option N;
  upper_ascii s : is_ascii s → upper s = ascii_up <$> s;
  lower_ascii s : is_ascii s → lower s = ascii_low <$> s;
  decimal_ascii c : (c < 128)%N → decimal c = ascii_decimal c;
  decimal_lt c d : decimal c = Some d → (d < 10)%N;
  decimal_not_space c d : decimal c = Some d → isspace c = false;
  decimal_not_dash : decimal 8211 = None
}.

(** The tables restricted to ASCII: code points above 127 have no case and
    are not digits.  It serves to run the definitions on ASCII pages. *)
#[export] Instance ascii_unicode : PyUnicode := {|
  upper s := ascii_up <$> s;
  lower s := ascii_low <$> s;
  decimal := ascii_decimal;
  upper_ascii _ _ := eq_refl;
  lower_ascii _ _ := eq_refl;
  decimal_ascii _ _ := eq_refl;
  decimal_lt := ltac:(
    intros c d; unfold ascii_decimal; destruct (_ && _) eqn:E; [|done];
    apply andb_true_iff in E as [E1%N.leb_le E2%N.leb_le];
    intros [= <-]; lia);
  decimal_not_space := ltac:(
    intros c d; unfold ascii_decimal; destruct (_ && _) eqn:E; [|done];
    intros _; apply andb_true_iff in E as [E1%N.leb_le E2%N.leb_le];
    unfold isspace;
    repeat (apply orb_false_intro);
    rewrite ?andb_false_iff, ?N.leb_gt, ?N.eqb_neq; lia);
  decimal_not_dash := eq_refl
|}.

Section Codec.
Local Open Scope N_scope.

(** [s.encode("latin-1", "ignore")]: code points above 255 are left out. *)
Definition latin1_encode_ignore (s : pystr) : list N :=
  filter (λ c, c < 256) s.

Definition is_cont (b : N) : bool := (128 <=? b) && (b <=? 191).

(** [b.decode("utf-8", "ignore")], after CPython's decoder: an invalid start
    byte is skipped alone, a sequence broken by a bad continuation byte loses
    the bytes read so far, and a sequence cut by the end of the data is
    dropped. *)
Fixpoint utf8_decode_ignore (bs : list N) : pystr :=
  match bs with
  | [] => []
  | b1 :: r1 =>
    if b1 <? 128 then b1 :: utf8_decode_ignore r1
    else if b1 <? 194 then utf8_decode_ignore r1
    else if b1 <? 224 then
      match r1 with
      | [] => []
      | b2 :: r2 =>
        if is_cont b2
        then (b1 - 192) * 64 + (b2 - 128) :: utf8_decode_ignore r2
        else utf8_decode_ignore r1
      end
    else if b1 <? 240 then
      match r1 with
      | [] => []
      | b2 :: r2 =>
        if negb (is_cont b2) || ((b1 =? 224) && (b2 <? 160))
           || ((b1 =? 237) && (160 <=? b2))
        then utf8_decode_ignore r1
        else match r2 with
             | [] => []
             | b3 :: r3 =>
               if is_cont b3
               then (b1 - 224) * 4096 + (b2 - 128) * 64 + (b3 - 128)
                      :: utf8_decode_ignore r3
               else utf8_decode_ignore r2
             end
      end
    else if b1 <? 245 then
      match r1 with
      | [] => []
      | b2 :: r2 =>
        if negb (is_cont b2) || ((b1 =? 240) && (b2 <? 144))
           || ((b1 =? 244) && (144 <=? b2))
        then utf8_decode_ignore r1
        else match r2 with
             | [] => []
             | b3 :: r3 =>
               if negb (is_cont b3) then utf8_decode_ignore r2
               else match r3 with
                    | [] => []
                    | b4 :: r4 =>
                      if is_cont b4
                      then (b1 - 240) * 262144 + (b2 - 128) * 4096
                             + (b3 - 128) * 64 + (b4 - 128)
                             :: utf8_decode_ignore r4
                      else utf8_decode_ignore r3
                    end
             end
      end
    else utf8_decode_ignore r1
  end.

End Codec.

(** ** Helpers of the scraper *)

Section Helpers.
Context `{U : PyUnicode}.
Local Open Scope N_scope.

(** [_norm_key]: [(s or "").strip().lower()] *)
Definition _norm_key (s : pystr) : pystr := lower (strip s).

(** [norm_text].  The [try] around the re-decoding cannot fail, since both
    codecs run with [errors="ignore"]. *)
Definition norm_text (s : pystr) : pystr :=
  if negb (truthy s) then []
  else
    let s := strip (replace_nbsp s) in
    if contains [195] s || contains [194] s
    then utf8_decode_ignore (latin1_encode_ignore s)
    else s.

(** The longest run of decimal digits at the front of [s], and the rest. *)
Fixpoint span_digits (s : pystr) : pystr * pystr :=
  match s with
  | [] => ([], [])
  | c :: r =>
    match decimal c with
    | Some _ => let '(ds, rest) := span_digits r in (c :: ds, rest)
    | None => ([], s)
    end
  end.

(** [int(g)] for a run of decimal digits [g]; integers are unbounded, and
    the interpreter's cap on the length of a decimal text is left out. *)
Definition py_int (g : pystr) : N :=
  foldl (λ acc c, 10 * acc + default 0 (decimal c)) 0 g.

(** The character class of the separator: hyphen-minus or en dash. *)
Definition is_dash (c : N) : bool := (c =? 45) || (c =? 8211).

(** [re.match] of the score pattern: white space, digits, white space, a
    dash, white space, digits, white space up to the end; the result is the
    two groups.  The three classes are disjoint, so the greedy match is the
    only one. *)
Definition score_match (s : pystr) : option (pystr * pystr) :=
  let '(g1, s1) := span_digits (dropwhile isspace s) in
  if negb (truthy g1) then None
  else
    match dropwhile isspace s1 with
    | [] => None
    | c :: s2 =>
      if negb (is_dash c) then None
      else
        let '(g2, s3) := span_digits (dropwhile isspace s2) in
        if negb (truthy g2) then None
        else if forallb isspace s3 then Some (g1, g2) else None
    end.

(** [parse_score] *)
Definition parse_score (s : pystr) : option (N * N) :=
  if negb (truthy s) then None
  else
    match score_match (strip s) with
    | None => None
    | Some (g1, g2) => Some (py_int g1, py_int g2)
    end.

(** [norm_cup_name] *)
Definition norm_cup_name (s : pystr) : pystr :=
  let s := strip s in
  if negb (truthy s) then []
  else
    let su := upper s in
    if contains (py "UEFA CUP") su || bool_decide (su = py "UEFA CUP")
    then py "EUROPA LEAGUE"
    else if contains (py "EUROPA LEAGUE") su || startswith (py "EUROPA") su
    then py "EUROPA LEAGUE"
    else if contains (py "CHAMPION") su then py "CHAMPIONS LEAGUE"
    else if contains (py "CONFERENCE") su then py "CONFERENCE LEAGUE"
    else s.

(** The canonicalization rules as the specification words them: contains
    "UEFA CUP" or starts with "EUROPA", contains "CHAMPION", contains
    "CONFERENCE", else unchanged (case is ignored, as the specification's
    own examples need). *)
Definition cup_name_rules (s : pystr) : pystr :=
  let su := upper s in
  if contains (py "UEFA CUP") su || startswith (py "EUROPA") su
  then py "EUROPA LEAGUE"
  else if contains (py "CHAMPION") su then py "CHAMPIONS LEAGUE"
  else if contains (py "CONFERENCE") su then py "CONFERENCE LEAGUE"
  else s.

End Helpers.

(** ** The parsed page

    What the walker reads from BeautifulSoup, row by row: [tr.find("th")]
    with the text of its first [div.cupheader] and [div.roundheader], and
    [tr.find_all("td")] with, per cell, [get_text()], whether it holds a
    [<b>] tag and its [colspan] attribute. *)

Record Td := {
  td_text : pystr;
  td_bold : bool;
  td_colspan : option pystr
}.

Record Th := {
  th_cupheader : option pystr;
  th_roundheader : option pystr
}.

Record Tr := {
  tr_th : option Th;
  tr_tds : list Td
}.

(** Rows of a page written down for examples: a plain cell, a cell whose
    text sits in a [<b>] tag, a row of cells, and the two header rows. *)
Definition td_plain (s : string) : Td :=
  {| td_text := py s; td_bold := false; td_colspan := None |}.
Definition td_marked (s : string) : Td :=
  {| td_text := py s; td_bold := true; td_colspan := None |}.
Definition tr_cells (tds : list Td) : Tr :=
  {| tr_th := None; tr_tds := tds |}.
Definition tr_cupheader (s : string) : Tr :=
  {| tr_th := Some {| th_cupheader := Some (py s); th_roundheader := None |};
     tr_tds := [] |}.
Definition tr_roundheader (s : string) : Tr :=
  {| tr_th := Some {| th_cupheader := None; th_roundheader := Some (py s) |};
     tr_tds := [] |}.

(** One candidate row, the dictionary appended to [rows_acc]
    (keys as in [CSV_FIELDS]). *)
Record Row := {
  season_page : N;
  cup : pystr;
  comp_stage : pystr;
  leg_no : N;
  home : pystr;
  home_cc : pystr;
  away : pystr;
  away_cc : pystr;
  score : pystr;
  goals_home : pystr;
  goals_away : pystr;
  winner : pystr;
  two_leg_winner : pystr
}.

(** ** The table walker *)

Section Walker.
Context `{U : PyUnicode}.

(** [str(l[0]) if l else ""] and [str(l[1]) if l else ""] *)
Definition goal_str_0 (l : option (N * N)) : pystr :=
  match l with Some (a, _) => py_str a | None => [] end.
Definition goal_str_1 (l : option (N * N)) : pystr :=
  match l with Some (_, b) => py_str b | None => [] end.

(** The two-leg winner name read off the [<b>] markers. *)
Definition two_leg_winner_name (team1 team2 : pystr) (t1_bold t2_bold : bool)
  : pystr :=
  if t1_bold && negb t2_bold then team1
  else if t2_bold && negb t1_bold then team2
  else [].

Definition leg1_row (year : N) (current_cup current_stage : pystr)
    (team1 team1_cc team2 team2_cc leg1_txt leg2_txt : pystr)
    (t1_bold t2_bold : bool) : Row :=
  let l1 := parse_score leg1_txt in
  {| season_page := year;
     cup := current_cup;
     comp_stage := current_stage;
     leg_no := 1;
     home := team1; home_cc := team1_cc;
     away := team2; away_cc := team2_cc;
     score := leg1_txt;
     goals_home := goal_str_0 l1;
     goals_away := goal_str_1 l1;
     winner := [];
     two_leg_winner :=
       if truthy leg2_txt
       then two_leg_winner_name team1 team2 t1_bold t2_bold
       else [] |}.

Definition leg2_row (year : N) (current_cup current_stage : pystr)
    (team1 team1_cc team2 team2_cc leg2_txt : pystr) : Row :=
  let l2 := parse_score leg2_txt in
  let gh2_src := goal_str_0 l2 in
  let ga2_src := goal_str_1 l2 in
  let gh2 := ga2_src in
  let ga2 := gh2_src in
  let score2 :=
    if truthy gh2_src && truthy ga2_src then gh2 ++ py "-" ++ ga2
    else leg2_txt in
  {| season_page := year;
     cup := current_cup;
     comp_stage := current_stage;
     leg_no := 2;
     home := team2; home_cc := team2_cc;
     away := team1; away_cc := team1_cc;
     score := score2;
     goals_home := gh2;
     goals_away := ga2;
     winner := [];
     two_leg_winner := [] |}.

(** The block that both the six-cell branch and the four-cell fallback
    run once the cell texts are read: leg 1 when a team name is there, leg 2
    when the leg-2 text is there. *)
Definition emit_legs (year : N) (current_cup current_stage : pystr)
    (team1 team1_cc team2 team2_cc leg1_txt leg2_txt : pystr)
    (t1_bold t2_bold : bool) (rows_acc : list Row) : list Row :=
  let rows_acc :=
    if truthy team1 || truthy team2
    then rows_acc ++ [leg1_row year current_cup current_stage
                        team1 team1_cc team2 team2_cc leg1_txt leg2_txt
                        t1_bold t2_bold]
    else rows_acc in
  if truthy leg2_txt
  then rows_acc ++ [leg2_row year current_cup current_stage
                      team1 team1_cc team2 team2_cc leg2_txt]
  else rows_acc.

(** [norm_text(tds[i].get_text()) if len(tds) > i else ""] *)
Definition cell_or_empty (tds : list Td) (i : nat) : pystr :=
  match tds !! i with
  | Some td => norm_text (td_text td)
  | None => []
  end.

(** Truthiness of [td.get("colspan")]. *)
Definition has_colspan (td : Td) : bool :=
  match td_colspan td with Some v => truthy v | None => false end.

(** The state of the loop in [parse_table_matches]. *)
Record Walk := {
  current_cup : pystr;
  current_stage : pystr;
  rows_acc : list Row
}.

(** The cells of a row, once the header tests have let it through. *)
Definition walk_cells (year : N) (w : Walk) (tds : list Td) : Walk :=
  match tds with
  | [] => w
  | td0 :: _ =>
    if (length tds =? 1) && has_colspan td0 then w
    else if 6 <=? length tds then
      match tds with
      | t1_td :: t1_cc_td :: t2_td :: t2_cc_td :: l1_td :: l2_td :: _ =>
        let team1 := norm_text (td_text t1_td) in
        let team1_cc := norm_text (td_text t1_cc_td) in
        let team2 := norm_text (td_text t2_td) in
        let team2_cc := norm_text (td_text t2_cc_td) in
        let leg1_txt := norm_text (td_text l1_td) in
        let leg2_txt := norm_text (td_text l2_td) in
        {| current_cup := current_cup w;
           current_stage := current_stage w;
           rows_acc :=
             emit_legs year (current_cup w) (current_stage w)
               team1 team1_cc team2 team2_cc leg1_txt leg2_txt
               (td_bold t1_td) (td_bold t2_td) (rows_acc w) |}
      | _ => w
      end
    else if 4 <=? length tds then
      match tds with
      | t1_td :: _ :: t2_td :: _ =>
        let team1 := norm_text (td_text t1_td) in
        let team1_cc := cell_or_empty tds 1 in
        let team2 := cell_or_empty tds 2 in
        let team2_cc := cell_or_empty tds 3 in
        let leg1_txt := cell_or_empty tds 4 in
        let leg2_txt := cell_or_empty tds 5 in
        {| current_cup := current_cup w;
           current_stage := current_stage w;
           rows_acc :=
             emit_legs year (current_cup w) (current_stage w)
               team1 team1_cc team2 team2_cc leg1_txt leg2_txt
               (td_bold t1_td) (td_bold t2_td) (rows_acc w) |}
      | _ => w
      end
    else w
  end.

(** One turn of the loop over [table.find_all("tr")]. *)
Definition walk_tr (year : N) (w : Walk) (tr : Tr) : Walk :=
  match tr_th tr with
  | Some {| th_cupheader := Some txt |} =>
    {| current_cup := norm_text txt; current_stage := [];
       rows_acc := rows_acc w |}
  | Some {| th_cupheader := None; th_roundheader := Some txt |} =>
    {| current_cup := current_cup w; current_stage := norm_text txt;
       rows_acc := rows_acc w |}
  | _ => walk_cells year w (tr_tds tr)
  end.

(** How a row reads: a competition header, a stage header, or a row whose
    cells are looked at. *)
Definition cup_header (tr : Tr) : option pystr :=
  match tr_th tr with
  | Some th => th_cupheader th
  | None => None
  end.
Definition stage_header (tr : Tr) : option pystr :=
  match tr_th tr with
  | Some {| th_cupheader := None; th_roundheader := Some txt |} => Some txt
  | _ => None
  end.
Definition is_header (tr : Tr) : bool :=
  bool_decide (is_Some (cup_header tr) ∨ is_Some (stage_header tr)).

(** [bool(tds[i].find("b"))] *)
Definition bold_at (tds : list Td) (i : nat) : bool :=
  match tds !! i with Some td => td_bold td | None => false end.

(** [parse_table_matches]: the list [rows_acc] is extended in place and the
    context is returned; here both come back in the final state. *)
Definition parse_table_matches (table : list Tr)
    (current_cup current_stage : pystr) (year : N) (rows_acc : list Row)
  : Walk :=
  foldl (walk_tr year)
    {| current_cup := current_cup; current_stage := current_stage;
       rows_acc := rows_acc |}
    table.

(** The loop of [main] over the tables of one page: the context starts
    empty and each call hands its context to the next. *)
Definition parse_page (tables : list (list Tr)) (y : N) : Walk :=
  foldl (λ w table,
           parse_table_matches table (current_cup w) (current_stage w) y
             (rows_acc w))
    {| current_cup := []; current_stage := []; rows_acc := [] |}
    tables.

(** The rows one table row adds under a given context. *)
Definition tr_rows (year : N) (cup stage : pystr) (tr : Tr) : list Row :=
  rows_acc (walk_tr year
              {| current_cup := cup; current_stage := stage; rows_acc := [] |}
              tr).

Definition year_rows (tables : list (list Tr)) (y : N) : list Row :=
  rows_acc (parse_page tables y).

(** The context in which the walk of each table of a page starts. *)
Fixpoint table_starts (tables : list (list Tr)) (y : N) (w : Walk)
  : list (pystr * pystr) :=
  match tables with
  | [] => []
  | table :: rest =>
    (current_cup w, current_stage w)
      :: table_starts rest y
           (parse_table_matches table (current_cup w) (current_stage w) y
              (rows_acc w))
  end.

Definition page_table_starts (tables : list (list Tr)) (y : N)
  : list (pystr * pystr) :=
  table_starts tables y
    {| current_cup := []; current_stage := []; rows_acc := [] |}.

(** A run of rows that one table row of a table, or of a page, emits. *)
Definition from_table_row (y : N) (table : list Tr) (ch : list Row) : Prop :=
  ∃ tr c st, tr ∈ table ∧ ch = tr_rows y c st tr.

Definition from_page_row (y : N) (tables : list (list Tr)) (ch : list Row)
  : Prop :=
  ∃ table, table ∈ tables ∧ from_table_row y table ch.

End Walker.

(** ** Python containers and orders *)

(** The order of [str] under [<=], by code point. *)
Fixpoint str_leb (a b : pystr) : bool :=
  match a, b with
  | [], _ => true
  | _ :: _, [] => false
  | x :: a', y :: b' =>
    if (x <? y)%N then true
    else if (x =? y)%N then str_leb a' b'
    else false
  end.
Definition str_le (a b : pystr) : Prop := str_leb a b.

(** [sorted(l)] on strings.  The order is total and antisymmetric, so the
    sorted list does not depend on the algorithm. *)
Definition sorted (l : list pystr) : list pystr := merge_sort str_le l.

(** [Series.unique()]: the distinct values in order of first appearance. *)
Fixpoint unique `{EqDecision A} (l : list A) : list A :=
  match l with
  | [] => []
  | x :: r => x :: filter (λ y, y ≠ x) (unique r)
  end.

(** [dict(pairs)] and dict comprehensions: a later pair replaces an earlier
    one with the same key. *)
Definition dict_of `{Countable K} {V} (l : list (K * V)) : gmap K V :=
  foldl (λ m kv, <[kv.1 := kv.2]> m) ∅ l.

(** ** The data frame

    [df] is the concatenation of the per-year CSV files read back with
    [dtype=str] and [fillna("")]: every column holds text.  [csv_row] is a
    candidate row as it is written, each field as text with the two
    integers in decimal.  Reading keeps the text of a field, except that a
    field which is one of the words pandas takes for a missing value comes
    back empty: this is [read_back].  A row [reads_back] when it has no such
    field, and then the row of the frame is the row as written. *)

Record DfRow := {
  df_season_page : pystr;
  df_cup : pystr;
  df_comp_stage : pystr;
  df_leg_no : pystr;
  df_home : pystr;
  df_home_cc : pystr;
  df_away : pystr;
  df_away_cc : pystr;
  df_score : pystr;
  df_goals_home : pystr;
  df_goals_away : pystr;
  df_winner : pystr;
  df_two_leg_winner : pystr
}.

Definition csv_row (r : Row) : DfRow :=
  {| df_season_page := py_str (season_page r);
     df_cup := cup r;
     df_comp_stage := comp_stage r;
     df_leg_no := py_str (leg_no r);
     df_home := home r; df_home_cc := home_cc r;
     df_away := away r; df_away_cc := away_cc r;
     df_score := score r;
     df_goals_home := goals_home r;
     df_goals_away := goals_away r;
     df_winner := winner r;
     df_two_leg_winner := two_leg_winner r |}.

(** The words that [pd.read_csv] reads as a missing value by default (the
    empty text, which is one of them, stays empty anyway). *)
Definition NA_VALUES : list pystr :=
  py <$> [ "#N/A"; "#N/A N/A"; "#NA"; "-1.#IND"; "-1.#QNAN"; "-NaN"; "-nan";
           "1.#IND"; "1.#QNAN"; "<NA>"; "N/A"; "NA"; "NULL"; "NaN"; "None";
           "n/a"; "nan"; "null" ]%string.

(** One field through [pd.read_csv(..., dtype=str)] and [fillna("")]. *)
Definition na_blank (s : pystr) : pystr :=
  if bool_decide (s ∈ NA_VALUES) then [] else s.

Definition read_back (d : DfRow) : DfRow :=
  {| df_season_page := na_blank (df_season_page d);
     df_cup := na_blank (df_cup d);
     df_comp_stage := na_blank (df_comp_stage d);
     df_leg_no := na_blank (df_leg_no d);
     df_home := na_blank (df_home d);
     df_home_cc := na_blank (df_home_cc d);
     df_away := na_blank (df_away d);
     df_away_cc := na_blank (df_away_cc d);
     df_score := na_blank (df_score d);
     df_goals_home := na_blank (df_goals_home d);
     df_goals_away := na_blank (df_goals_away d);
     df_winner := na_blank (df_winner d);
     df_two_leg_winner := na_blank (df_two_leg_winner d) |}.

Definition reads_back (r : Row) : Prop := read_back (csv_row r) = csv_row r.

(** [pd.to_numeric(col, errors="coerce")] on the text this program writes
    into numeric columns: a run of ASCII digits is its value, anything else
    (the empty text in particular) is missing.  Values are exact integers
    here; pandas holds them as 64-bit floats once a column has a missing
    entry, which is the same for counts below 2^53. *)
Definition all_digits (s : pystr) : bool :=
  forallb (λ c, bool_decide (is_Some (ascii_decimal c))) s.
Definition digits_value (s : pystr) : N :=
  foldl (λ acc c, 10 * acc + default 0 (ascii_decimal c))%N 0%N s.
Definition to_numeric (s : pystr) : option N :=
  if truthy s && all_digits s then Some (digits_value s) else None.

(** The code points of the ten ASCII digits, of which [str(n)] is made. *)
Definition is_digit_code (c : N) : Prop := (48 ≤ c ≤ 57)%N.

(** ** Competition dimension *)

Record CupRow := { cup_id : nat; cup_kes : pystr }.

Definition cup_id_le (a b : CupRow) : Prop := cup_id a ≤ cup_id b.
#[export] Instance cup_id_le_dec : RelDecision cup_id_le :=
  λ a b, decide (cup_id a ≤ cup_id b).

Definition CUP_ID_FIXED : list (pystr * nat) :=
  [ (py "CHAMPIONS LEAGUE", 1); (py "EUROPA LEAGUE", 2);
    (py "CONFERENCE LEAGUE", 3) ].

(** [while next_id in used: next_id += 1], with the number of turns bounded
    by [fuel]. *)
Fixpoint skip_used (fuel : nat) (used : gset nat) (next_id : nat)
  : option nat :=
  match fuel with
  | 0 => None
  | S fuel =>
    if decide (next_id ∈ used) then skip_used fuel used (S next_id)
    else Some next_id
  end.

(** The loop over [remaining]; [None] only if the inner loop ran out of
    fuel, which [size used + 1] turns exclude. *)
Fixpoint assign_remaining (remaining : list pystr) (cup_rows : list CupRow)
    (used : gset nat) (next_id : nat) : option (list CupRow) :=
  match remaining with
  | [] => Some cup_rows
  | cname :: rest =>
    match skip_used (S (size used)) used next_id with
    | None => None
    | Some next_id =>
      assign_remaining rest
        (cup_rows ++ [{| cup_id := next_id; cup_kes := cname |}])
        ({[next_id]} ∪ used) (S next_id)
    end
  end.

Section Dimensions.
Context `{U : PyUnicode}.

Definition cup_norm_kes (r : DfRow) : pystr := norm_cup_name (df_cup r).

Definition cups_unique (df : list DfRow) : list pystr :=
  filter (λ c, truthy c) (unique (cup_norm_kes <$> df)).

(** The loop over [CUP_ID_FIXED.items()]. *)
Definition fixed_cups (cups_unique : list pystr) : list CupRow * gset nat :=
  foldl (λ '(cup_rows, used) '(cname, cid),
           if decide (cname ∈ cups_unique)
           then (cup_rows ++ [{| cup_id := cid; cup_kes := cname |}],
                 {[cid]} ∪ used)
           else (cup_rows, used))
    ([], ∅) CUP_ID_FIXED.

(** The rows that loop leaves: the reserved names that occur, in the order
    of [CUP_ID_FIXED]. *)
Definition fixed_present (cups_unique : list pystr) : list CupRow :=
  (λ p, {| cup_id := p.2; cup_kes := p.1 |})
    <$> filter (λ p, p.1 ∈ cups_unique) CUP_ID_FIXED.

Definition remaining_cups (cups_unique : list pystr) : list pystr :=
  sorted (filter (λ c, c ∉ CUP_ID_FIXED.*1) cups_unique).

(** The rows the two loops leave in [cup_rows]: those of the reserved names
    that occur, then the other names with 4, 5, ... in sorted order. *)
Definition cup_rows_of (cu : list pystr) : list CupRow :=
  fixed_present cu
  ++ imap (λ k c, {| cup_id := 4 + k; cup_kes := c |}) (remaining_cups cu).

Definition cup_rows (df : list DfRow) : option (list CupRow) :=
  let cu := cups_unique df in
  let '(rows, used) := fixed_cups cu in
  assign_remaining (remaining_cups cu) rows used 4.

(** [pd.DataFrame(cup_rows).sort_values('cup_id')]: a frame made from the
    empty list has no column [cup_id], and sorting it raises [KeyError]
    ([None] here). *)
Definition dim_cups (df : list DfRow) : option (list CupRow) :=
  match cup_rows df with
  | None => None
  | Some [] => None
  | Some rows => Some (merge_sort cup_id_le rows)
  end.

Definition cup_map_of (dim_cups : list CupRow) : gmap pystr nat :=
  dict_of ((λ r, (cup_kes r, cup_id r)) <$> dim_cups).

(** ** Stage dimension *)

Record StageRow := {
  stage_id : nat;
  comp_stage_kes : pystr;
  importance : nat
}.

Definition mk_stage (i : nat) (name : string) (imp : nat) : StageRow :=
  {| stage_id := i; comp_stage_kes := py name; importance := imp |}.

Definition PROVIDED_STAGE_MAPPING : list StageRow :=
  [ mk_stage 1 "Final" 1;
    mk_stage 2 "Semi Finals" 2;
    mk_stage 3 "Quarter Finals" 3;
    mk_stage 4 "2nd Group Stage" 4;
    mk_stage 5 "Round 4" 4;
    mk_stage 6 "Round of 16" 4;
    mk_stage 7 "Knockout round play-offs" 5;
    mk_stage 8 "Round 3" 6;
    mk_stage 9 "1st Group Stage" 7;
    mk_stage 10 "Group Stage" 7;
    mk_stage 11 "League Stage" 7;
    mk_stage 12 "Round 2" 8;
    mk_stage 13 "Round 1" 9;
    mk_stage 14 "4th Qualifying or Play-off Round" 10;
    mk_stage 15 "Qualifying Play-off Round" 10;
    mk_stage 16 "3rd Qualifying Round" 11;
    mk_stage 17 "2nd Qualifying Round" 12;
    mk_stage 18 "Qualifying Round" 12;
    mk_stage 19 "1st Qualifying Round" 13;
    mk_stage 20 "Preliminary Round" 14 ].

Definition unique_stages (df : list DfRow) : list pystr :=
  filter (λ s, truthy s) (unique ((λ r, strip (df_comp_stage r)) <$> df)).

(** [dim_stages_rows] after the loop over [PROVIDED_STAGE_MAPPING]. *)
Definition seeded_stage_rows : gmap nat StageRow :=
  foldl (λ m item, <[stage_id item := item]> m)
    {[ 0 := mk_stage 0 "Winner" 0 ]} PROVIDED_STAGE_MAPPING.

(** [sorted(d.keys())] and [max(d.keys())] of a dictionary keyed by id. *)
Definition sorted_keys {V} (d : gmap nat V) : list nat :=
  merge_sort (≤) (map_to_list d).*1.
Definition max_key {V} (d : gmap nat V) : nat := max_list (map_to_list d).*1.

Record StageLoop := {
  dim_stages_rows : gmap nat StageRow;
  seen_norm : gset pystr;
  next_stage_id : nat
}.

(** One turn of the loop that adds the unseen stages. *)
Definition add_stage (st : StageLoop) (s : pystr) : StageLoop :=
  let nk := _norm_key s in
  if decide (nk ∉ seen_norm st)
  then {| dim_stages_rows :=
            <[next_stage_id st :=
                {| stage_id := next_stage_id st; comp_stage_kes := s;
                   importance := 0 |}]> (dim_stages_rows st);
          seen_norm := {[nk]} ∪ seen_norm st;
          next_stage_id := S (next_stage_id st) |}
  else st.

Definition stage_loop (df : list DfRow) : StageLoop :=
  foldl add_stage
    {| dim_stages_rows := seeded_stage_rows;
       seen_norm :=
         list_to_set ((λ v, _norm_key (comp_stage_kes v))
                        <$> (map_to_list seeded_stage_rows).*2);
       next_stage_id := S (max_key seeded_stage_rows) |}
    (sorted (unique_stages df)).

(** The seeded rows in id order, and the names the loop appends from a
    list: those whose normalized form is not yet seen at their turn. *)
Definition seeded_stages : list StageRow :=
  mk_stage 0 "Winner" 0 :: PROVIDED_STAGE_MAPPING.

Fixpoint fresh_stages (seen : gset pystr) (l : list pystr) : list pystr :=
  match l with
  | [] => []
  | s :: rest =>
    if decide (_norm_key s ∉ seen)
    then s :: fresh_stages ({[_norm_key s]} ∪ seen) rest
    else fresh_stages seen rest
  end.

Definition seeded_keys : list pystr :=
  (λ d, _norm_key (comp_stage_kes d)) <$> seeded_stages.

Definition appended_stages (df : list DfRow) : list pystr :=
  fresh_stages (list_to_set seeded_keys) (sorted (unique_stages df)).

Definition dim_stages (df : list DfRow) : list StageRow :=
  let rows := dim_stages_rows (stage_loop df) in
  omap (λ k, rows !! k) (sorted_keys rows).

Definition stage_map_norm_of (dim_stages : list StageRow) : gmap pystr nat :=
  dict_of ((λ r, (_norm_key (comp_stage_kes r), stage_id r)) <$> dim_stages).

(** ** Club dimension *)

Definition clubs (df : list DfRow) : list pystr :=
  sorted (elements (list_to_set (C := gset pystr)
            (filter (λ c, truthy c)
               (((λ r, strip (df_home r)) <$> df)
                  ++ ((λ r, strip (df_away r)) <$> df))))).

(** [dim_clubs]: [club_id] runs over [range(1, len(clubs) + 1)]. *)
Definition dim_clubs (df : list DfRow) : list (nat * pystr) :=
  imap (λ i c, (S i, c)) (clubs df).

Definition club_map_of (dim_clubs : list (nat * pystr)) : gmap pystr nat :=
  dict_of ((λ r, (r.2, r.1)) <$> dim_clubs).

End Dimensions.

(** ** Fact table *)

(** One row of [fact]; the nullable [Int64] columns are options. *)
Record FactRow := {
  f_season_page : pystr;
  f_leg_no : option N;
  f_cup_id : option nat;
  f_comp_stage_id : option nat;
  f_home_club_id : option nat;
  f_away_club_id : option nat;
  f_home_cc : pystr;
  f_away_cc : pystr;
  f_score : pystr;
  f_goals_home : pystr;
  f_goals_away : pystr;
  f_winner : pystr;
  f_two_leg_winner : option nat
}.

(** Comparison of two numeric entries; a missing entry compares false. *)
Definition num_gt (a b : option N) : bool :=
  match a, b with Some x, Some y => (y <? x)%N | _, _ => false end.
Definition num_lt (a b : option N) : bool :=
  match a, b with Some x, Some y => (x <? y)%N | _, _ => false end.
Definition num_eq (a b : option N) : bool :=
  match a, b with Some x, Some y => (x =? y)%N | _, _ => false end.
Definition isna {A} (a : option A) : bool :=
  match a with Some _ => false | None => true end.

(** [.astype('Int64').astype(str)] on the winner ids: an id is written in
    decimal, and a missing one as the text pandas prints for [pd.NA]. *)
Definition int64_str (x : option nat) : pystr :=
  match x with
  | Some n => py_str (N.of_nat n)
  | None => py "<NA>"
  end.

(** The per-leg winner, step by step as [main] computes the column. *)
Definition winner_of (gh ga : option N) (home_id away_id : option nat)
  : pystr :=
  let winner_id :=
    if num_gt gh ga then home_id
    else if num_lt gh ga then away_id
    else None in
  let winner_str :=
    if num_eq gh ga then py "draw" else int64_str winner_id in
  let missing_mask := isna gh || isna ga in
  if missing_mask then [] else winner_str.

Section Facts.
Context `{U : PyUnicode}.

(** One row of the fact table from one row of [df] and the three maps. *)
Definition fact_row (cup_map stage_map_norm club_map : gmap pystr nat)
    (r : DfRow) : FactRow :=
  let home_id := club_map !! strip (df_home r) in
  let away_id := club_map !! strip (df_away r) in
  let gh := to_numeric (df_goals_home r) in
  let ga := to_numeric (df_goals_away r) in
  let tlw_id := club_map !! strip (df_two_leg_winner r) in
  {| f_season_page := df_season_page r;
     f_leg_no := to_numeric (df_leg_no r);
     f_cup_id := cup_map !! strip (cup_norm_kes r);
     f_comp_stage_id := stage_map_norm !! _norm_key (df_comp_stage r);
     f_home_club_id := home_id;
     f_away_club_id := away_id;
     f_home_cc := df_home_cc r;
     f_away_cc := df_away_cc r;
     f_score := df_score r;
     f_goals_home := df_goals_home r;
     f_goals_away := df_goals_away r;
     f_winner := winner_of gh ga home_id away_id;
     f_two_leg_winner :=
       if bool_decide (df_leg_no r = py "1") then tlw_id else None |}.

(** The fact assembler: every column is computed row by row. *)
Definition fact_table (cup_map stage_map_norm club_map : gmap pystr nat)
    (df : list DfRow) : list FactRow :=
  fact_row cup_map stage_map_norm club_map <$> df.

(** What [main] writes. *)
Record Output := {
  out_dim_cups : list CupRow;
  out_dim_stages : list StageRow;
  out_dim_clubs : list (nat * pystr);
  out_fact : list FactRow
}.

(** [main] from the data frame on; [None] is the [KeyError] of [dim_cups]. *)
Definition build (df : list DfRow) : option Output :=
  match dim_cups df with
  | None => None
  | Some dc =>
    let ds := dim_stages df in
    let dl := dim_clubs df in
    Some {| out_dim_cups := dc;
            out_dim_stages := ds;
            out_dim_clubs := dl;
            out_fact :=
              fact_table (cup_map_of dc) (stage_map_norm_of ds)
                (club_map_of dl) df |}
  end.

(** The candidate rows of a run: the pages in order, each walked with its
    year, every row as it is written to the file of the year.  They are the
    data frame when every row reads back as written; [read_back] gives the
    frame in general. *)
Definition candidates (pages : list (N * list (list Tr))) : list DfRow :=
  pages ≫= (λ '(y, tables), csv_row <$> year_rows tables y).

End Facts.

(** ** Fetching the pages

    The part of the program in front of the walker: the address of a year's
    page, the choice of the years to fetch, the request with its retries,
    and the decoding of the bytes that come back.  Bytes are numbers below
    256.  An exception that the code raises or catches is a value. *)

Inductive exn :=
  | ValueError (msg : pystr)
  | RuntimeError (msg : pystr)
  | OtherError (name msg : pystr)
  | SystemExit (msg : pystr)
  | KeyboardInterrupt.

(** What [except Exception] catches: every exception but the ones that
    derive from [BaseException] alone.  [OtherError] stands for the other
    subclasses of [Exception], those of [requests] among them. *)
Definition is_Exception (e : exn) : bool :=
  match e with
  | SystemExit _ | KeyboardInterrupt => false
  | _ => true
  end.

Inductive result (A : Type) :=
  | Return (a : A)
  | Raise (e : exn).
Arguments Return {A} a.
Arguments Raise {A} e.

(** [str(y)] for an [int] of either sign. *)
Definition py_str_Z (y : Z) : pystr := py (pretty y).

(** [url_for_year] *)
Definition url_for_year (y : Z) : result pystr :=
  let method :=
    if ((2018 <=? y) && (y <=? 2026))%Z then Some (py "method5")
    else if ((2009 <=? y) && (y <=? 2017))%Z then Some (py "method4")
    else if ((2004 <=? y) && (y <=? 2008))%Z then Some (py "method3")
    else if ((2000 <=? y) && (y <=? 2003))%Z then Some (py "method2")
    else None in
  match method with
  | None => Raise (ValueError (py "Unsupported year"))
  | Some method =>
    Return (py "https://kassiesa.net/uefa/data/" ++ method ++ py "/match"
              ++ py_str_Z y ++ py ".html")
  end.

(** The name of a year's file in [DIR_RAW]. *)
Definition per_file_name (y : Z) : pystr :=
  py "match_results_kes_" ++ py_str_Z y ++ py ".csv".

(** [existing_years] of [main]: the keys of [expected_files], which are the
    years in order of first appearance, whose file is in the directory. *)
Definition existing_years (dir : gset pystr) (years : list Z) : list Z :=
  filter (λ y, per_file_name y ∈ dir) (unique years).

(** [max(years)]; [None] is the [ValueError] for the empty list. *)
Definition py_max (l : list Z) : option Z :=
  match l with
  | [] => None
  | x :: r => Some (foldl Z.max x r)
  end.

(** [to_fetch] of [main], with both branches of its conditional
    expression; [None] is the [ValueError] of [max]. *)
Definition to_fetch (dir : gset pystr) (years : list Z) (overwrite : bool)
  : option (list Z) :=
  let existing_years := existing_years dir years in
  if overwrite || negb (bool_decide (existing_years ≠ [])) then Some years
  else
    match py_max years with
    | None => None
    | Some newest =>
      Some (if negb (bool_decide (newest ∈ existing_years))
            then [newest] else [newest])
    end.

Section Decoding.
Local Open Scope N_scope.

(** [b.decode("utf-8")]: the strict decoder, [None] for [UnicodeDecodeError].
    It accepts what [utf8_decode_ignore] reads without skipping. *)
Fixpoint utf8_decode (bs : list N) : option pystr :=
  match bs with
  | [] => Some []
  | b1 :: r1 =>
    if b1 <? 128 then (b1 ::.) <$> utf8_decode r1
    else if b1 <? 194 then None
    else if b1 <? 224 then
      match r1 with
      | [] => None
      | b2 :: r2 =>
        if is_cont b2
        then ((b1 - 192) * 64 + (b2 - 128) ::.) <$> utf8_decode r2
        else None
      end
    else if b1 <? 240 then
      match r1 with
      | [] => None
      | b2 :: r2 =>
        if negb (is_cont b2) || ((b1 =? 224) && (b2 <? 160))
           || ((b1 =? 237) && (160 <=? b2))
        then None
        else match r2 with
             | [] => None
             | b3 :: r3 =>
               if is_cont b3
               then ((b1 - 224) * 4096 + (b2 - 128) * 64 + (b3 - 128) ::.)
                      <$> utf8_decode r3
               else None
             end
      end
    else if b1 <? 245 then
      match r1 with
      | [] => None
      | b2 :: r2 =>
        if negb (is_cont b2) || ((b1 =? 240) && (b2 <? 144))
           || ((b1 =? 244) && (144 <=? b2))
        then None
        else match r2 with
             | [] => None
             | b3 :: r3 =>
               if negb (is_cont b3) then None
               else match r3 with
                    | [] => None
                    | b4 :: r4 =>
                      if is_cont b4
                      then ((b1 - 240) * 262144 + (b2 - 128) * 4096
                              + (b3 - 128) * 64 + (b4 - 128) ::.)
                             <$> utf8_decode r4
                      else None
                    end
             end
      end
    else None
  end.

(** The other direction, [s.encode("utf-8")], which is how the text of a
    page becomes the bytes that the server sends; it is defined on the
    Unicode scalar values (no surrogates, nothing above U+10FFFF). *)
Definition is_scalar (c : N) : Prop := c < 55296 ∨ (57344 ≤ c ∧ c < 1114112).

Definition utf8_encode_char (c : N) : list N :=
  if c <? 128 then [c]
  else if c <? 2048 then [192 + c / 64; 128 + c mod 64]
  else if c <? 65536
  then [224 + c / 4096; 128 + (c / 64) mod 64; 128 + c mod 64]
  else [240 + c / 262144; 128 + (c / 4096) mod 64; 128 + (c / 64) mod 64;
        128 + c mod 64].

Definition utf8_encode (s : pystr) : list N := s ≫= utf8_encode_char.

(** The class [[A-Za-z0-9_-]] of the charset pattern and its optional
    quote, on bytes. *)
Definition charset_char (b : N) : bool :=
  ((65 <=? b) && (b <=? 90)) || ((97 <=? b) && (b <=? 122))
  || ((48 <=? b) && (b <=? 57)) || (b =? 95) || (b =? 45).
Definition is_quote (b : N) : bool := (b =? 34) || (b =? 39).

Fixpoint takewhile (p : N → bool) (s : list N) : list N :=
  match s with
  | [] => []
  | c :: r => if p c then c :: takewhile p r else []
  end.

(** The charset pattern matched at the front of [s], case ignored on the
    ASCII letters as [re.I] does for bytes: the literal, then a quote if one
    is there and a name follows it, then the longest name.  The result is
    the group. *)
Definition charset_at (s : list N) : option (list N) :=
  if startswith (py "charset=") (ascii_low <$> s) then
    let rest := drop 8 s in
    let quoted :=
      match rest with
      | q :: r => if is_quote q then takewhile charset_char r else []
      | [] => []
      end in
    if truthy quoted then Some quoted
    else
      let bare := takewhile charset_char rest in
      if truthy bare then Some bare else None
  else None.

(** [re.search]: the match at the leftmost place that has one. *)
Fixpoint charset_search (s : list N) : option (list N) :=
  match s with
  | [] => None
  | _ :: r =>
    match charset_at s with
    | Some g => Some g
    | None => charset_search r
    end
  end.

(** [g.decode("ascii", "ignore")] *)
Definition ascii_decode_ignore (g : list N) : pystr :=
  filter (λ b, b < 128) g.

End Decoding.

(** [raw.decode(name)] for a codec given by name: [None] when the name is
    unknown ([LookupError]) or the bytes do not decode, both of which
    [decode_html_bytes] catches alike.  The two codecs that the code names
    itself are fixed: UTF-8 is the strict decoder above, and Latin-1 reads
    each byte as the code point of the same number. *)
Class PyCodecs := {
  bytes_decode : pystr → list N → option pystr;
  decode_utf8 raw : bytes_decode (py "utf-8") raw = utf8_decode raw;
  decode_latin1 raw : bytes_decode (py "latin-1") raw = Some raw
}.

(** The registry that knows these two names only; it serves to run the
    definitions. *)
#[export] Instance two_codecs : PyCodecs := {|
  bytes_decode name raw :=
    if bool_decide (name = py "utf-8") then utf8_decode raw
    else if bool_decide (name = py "latin-1") then Some raw
    else None;
  decode_utf8 _ := eq_refl;
  decode_latin1 _ := eq_refl
|}.

Section Fetch.
Context `{U : PyUnicode} `{C : PyCodecs}.

(** The loop of [decode_html_bytes] over its attempts. *)
Fixpoint decode_attempts (attempts : list (option pystr)) (raw : list N)
  : option pystr :=
  match attempts with
  | [] => None
  | attempt :: rest =>
    match attempt with
    | Some name =>
      if negb (truthy name) then decode_attempts rest raw
      else match bytes_decode name raw with
           | Some s => Some s
           | None => decode_attempts rest raw
           end
    | None => decode_attempts rest raw
    end
  end.

(** [enc] of [decode_html_bytes]: the declared charset in lower case. *)
Definition declared_charset (raw : list N) : option pystr :=
  (λ g, lower (ascii_decode_ignore g)) <$> charset_search (take 4000 raw).

(** [decode_html_bytes] *)
Definition decode_html_bytes (raw : list N) : pystr :=
  let enc := declared_charset raw in
  match decode_attempts [enc; Some (py "utf-8"); Some (py "latin-1")] raw with
  | Some s => s
  | None => utf8_decode_ignore raw
  end.

(** What [sess.get] hands back, as far as [fetch_html] looks at it. *)
Record Response := {
  resp_ok : bool;
  resp_status_code : Z;
  resp_content : list N
}.

(** The state that a request changes: how many requests the session has
    sent, and the whole seconds of every [time.sleep] of [fetch_html] (the
    random part, below half a second, is left out). *)
Record Net := {
  net_requests : nat;
  net_slept : list nat
}.

Definition net_request (st : Net) : Net :=
  {| net_requests := S (net_requests st); net_slept := net_slept st |}.
Definition net_sleep (a : nat) (st : Net) : Net :=
  {| net_requests := net_requests st; net_slept := net_slept st ++ [a] |}.

(** The loop of [fetch_html] over the attempts [a]; [sess_get n url] is the
    outcome of [sess.get(url)] when it is the request number [n] of the
    session.  An exception that [except Exception] catches is kept in
    [last] and the loop goes on; any other leaves the function at once.  An
    exception is truthy, so [last or ...] is [last] unless no attempt was
    made. *)
Fixpoint fetch_loop (sess_get : nat → pystr → result Response) (url : pystr)
    (attempts : list nat) (last : option exn) (st : Net)
  : result pystr * Net :=
  match attempts with
  | [] =>
    (Raise (default (RuntimeError (py "Failed " ++ url)) last), st)
  | a :: rest =>
    let reply := sess_get (net_requests st) url in
    let st := net_request st in
    match reply with
    | Return r =>
      if resp_ok r then (Return (decode_html_bytes (resp_content r)), st)
      else
        fetch_loop sess_get url rest
          (Some (RuntimeError (py "HTTP " ++ py_str_Z (resp_status_code r))))
          (net_sleep a st)
    | Raise e =>
      if is_Exception e
      then fetch_loop sess_get url rest (Some e) (net_sleep a st)
      else (Raise e, st)
    end
  end.

(** The error that a reply leaves in [last]: the exception of [sess.get]
    when it is caught, or the status of a response that is not [ok]; none
    for an [ok] response, and none for an exception that is not caught. *)
Definition reply_error (reply : result Response) : option exn :=
  match reply with
  | Raise e => if is_Exception e then Some e else None
  | Return r =>
    if resp_ok r then None
    else Some (RuntimeError (py "HTTP " ++ py_str_Z (resp_status_code r)))
  end.

(** [fetch_html]: the attempts are [range(1, retries + 1)]. *)
Definition fetch_html (sess_get : nat → pystr → result Response)
    (url : pystr) (retries : Z) (st : Net) : result pystr * Net :=
  fetch_loop sess_get url (seq 1 (Z.to_nat retries)) None st.

End Fetch.

(** ** The run of [main] up to the data frame

    The directory [DIR_RAW] is a map from file names to the rows that
    [pd.read_csv] and [fillna("")] give for the file, every file being one
    that reads.  An exception that leaves [main] is kept in the state, and
    ends the loop.
    [soup_tables html] stands for [BeautifulSoup(html, "html.parser")] with
    [select("table.t1")]: the tables of the page, each with its rows as the
    walker reads them. *)

(** [s.endswith(suf)] *)
Definition endswith (suf s : pystr) : bool :=
  startswith (reverse suf) (reverse s).

(** The pattern [match_results_kes_*.csv] of [glob]. *)
Definition is_per_file (name : pystr) : bool :=
  startswith (py "match_results_kes_") name && endswith (py ".csv") name
  && bool_decide (22 ≤ length name).

(** [all_per_files]: paths of one directory sort by their names. *)
Definition all_per_files (files : gmap pystr (list DfRow)) : list pystr :=
  sorted (filter (λ name, is_per_file name) (map_to_list files).*1).

(** [df]: the frames of the files in that order, one after the other. *)
Definition data_frame (files : gmap pystr (list DfRow)) : list DfRow :=
  all_per_files files ≫= (λ pf, default [] (files !! pf)).

Record RunState := {
  run_net : Net;
  run_files : gmap pystr (list DfRow);
  run_raised : option exn
}.

Section Run.
Context `{U : PyUnicode} `{C : PyCodecs}.
Variable soup_tables : pystr → list (list Tr).
Variable sess_get : nat → pystr → result Response.

(** What [except Exception ...: continue] makes of an exception: the turn
    ends, and the run too when the exception is not caught. *)
Definition uncaught (e : exn) : option exn :=
  if is_Exception e then None else Some e.

(** One turn of the loop of [main] over [to_fetch]: an exception of
    [url_for_year] or of [fetch_html] ends the turn; else the page is walked
    and its rows are written over the file of the year, from which they are
    read later. *)
Definition fetch_year (st : RunState) (y : Z) : RunState :=
  match url_for_year y with
  | Raise e =>
    {| run_net := run_net st; run_files := run_files st;
       run_raised := uncaught e |}
  | Return url =>
    match fetch_html sess_get url 3 (run_net st) with
    | (Raise e, net) =>
      {| run_net := net; run_files := run_files st;
         run_raised := uncaught e |}
    | (Return html, net) =>
      {| run_net := net;
         run_files :=
           <[per_file_name y :=
               read_back
                 <$> (csv_row <$> year_rows (soup_tables html) (Z.to_N y))]>
             (run_files st);
         run_raised := None |}
    end
  end.

(** The loop: it ends with the list, or with an exception that leaves it. *)
Fixpoint fetch_years (st : RunState) (to_fetch : list Z) : RunState :=
  match to_fetch with
  | [] => st
  | y :: rest =>
    let st := fetch_year st y in
    match run_raised st with
    | Some _ => st
    | None => fetch_years st rest
    end
  end.



(** [main] from its start to [df], or the exception that ends it before:
    the [ValueError] of [max] on an empty list (with the message of
    Python 3.11; later versions word it differently), or one that leaves
    the loop. *)
Definition main_frame (st : RunState) (years : list Z) (overwrite : bool)
  : result (list DfRow) :=
  match to_fetch (dom (run_files st)) years overwrite with
  | None => Raise (ValueError (py "max() arg is an empty sequence"))
  | Some l =>
    let st := fetch_years st l in
    match run_raised st with
    | Some e => Raise e
    | None => Return (data_frame (run_files st))
    end
  end.

End Run.

(** ** Writing the tables

    The end of [main]: the four tables are written with [pyarrow]; when any
    of these calls raises, all four are written again with [fastparquet];
    when that raises too, [main] ends in [SystemExit].  [to_parquet_ok e t]
    says whether the engine [e] writes the table [t] without raising.  A
    call that raises leaves its file in a state that is not known. *)

Inductive engine := pyarrow | fastparquet.
Inductive out_table := CUPS_OUT | STAGES_OUT | CLUBS_OUT | FACT_OUT.

#[export] Instance out_table_eq_dec : EqDecision out_table.
Proof. solve_decision. Defined.
#[export] Instance engine_eq_dec : EqDecision engine.
Proof. solve_decision. Defined.




(** * Properties *)

(** ** Text *)

Lemma dropwhile_idemp p s : dropwhile p (dropwhile p s) = dropwhile p s.
Proof.
  induction s as [|c s IH]; simpl; [done|].
  destruct (p c) eqn:E; [done|]. simpl. by rewrite E.
Qed.

Lemma dropwhile_snoc_false p s c :
  p c = false → dropwhile p (s ++ [c]) = dropwhile p s ++ [c].
Proof.
  intros Hc. induction s as [|x s IH]; simpl; [by rewrite Hc|].
  by destruct (p x).
Qed.

Lemma dropwhile_head_false p c s : p c = false → dropwhile p (c :: s) = c :: s.
Proof. intros Hc. simpl. by rewrite Hc. Qed.

Lemma rstrip_cons_false c s :
  isspace c = false → ∃ s', rstrip (c :: s) = c :: s'.
Proof.
  intros Hc. unfold rstrip. rewrite reverse_cons.
  rewrite dropwhile_snoc_false by done.
  rewrite reverse_snoc. eauto.
Qed.

Lemma lstrip_shape s :
  lstrip s = [] ∨ ∃ c s', lstrip s = c :: s' ∧ isspace c = false.
Proof.
  unfold lstrip. induction s as [|c s IH]; simpl; [by left|].
  destruct (isspace c) eqn:E; [done|]. right. eauto.
Qed.

Lemma rstrip_idemp s : rstrip (rstrip s) = rstrip s.
Proof.
  unfold rstrip. by rewrite reverse_involutive, dropwhile_idemp.
Qed.

Lemma strip_shape s :
  strip s = [] ∨ ∃ c s', strip s = c :: s' ∧ isspace c = false.
Proof.
  unfold strip. destruct (lstrip_shape s) as [->|(c & s' & -> & Hc)].
  - by left.
  - right. destruct (rstrip_cons_false c s' Hc) as [s'' ->]. eauto.
Qed.

(** [strip] is idempotent. *)
Lemma strip_idemp s : strip (strip s) = strip s.
Proof.
  destruct (strip_shape s) as [E|(c & s' & E & Hc)].
  - by rewrite E.
  - unfold strip at 1. rewrite E. unfold lstrip.
    rewrite dropwhile_head_false by done.
    rewrite <- E. unfold strip. apply rstrip_idemp.
Qed.

Lemma startswith_refl p s : startswith p (p ++ s) = true.
Proof.
  induction p as [|a p IH]; simpl; [done|]. by rewrite N.eqb_refl.
Qed.

Lemma contains_startswith p s : startswith p s = true → contains p s = true.
Proof. intros H. destruct s; simpl in *; by rewrite H. Qed.

Lemma contains_refl p : contains p p = true.
Proof.
  apply contains_startswith. rewrite <- (app_nil_r p) at 2.
  apply startswith_refl.
Qed.

(** A closed ASCII literal is ASCII, by evaluation. *)
Ltac ascii_lit := apply (bool_decide_unpack _); by vm_compute.

Section HelperFacts.
Context `{U : PyUnicode}.

(** [norm_cup_name] decides on the stripped, upper-cased name; the test
    [su == "UEFA CUP"] adds nothing to the substring test before it. *)
Lemma norm_cup_name_cases s :
  norm_cup_name s =
    let t := strip s in
    let su := upper t in
    if negb (truthy t) then []
    else if contains (py "UEFA CUP") su || contains (py "EUROPA LEAGUE") su
            || startswith (py "EUROPA") su
    then py "EUROPA LEAGUE"
    else if contains (py "CHAMPION") su then py "CHAMPIONS LEAGUE"
    else if contains (py "CONFERENCE") su then py "CONFERENCE LEAGUE"
    else t.
Proof.
  unfold norm_cup_name. cbv zeta.
  destruct (negb (truthy (strip s))); [done|].
  destruct (contains (py "UEFA CUP") (upper (strip s))) eqn:E1; [done|].
  rewrite bool_decide_eq_false_2; [by rewrite !orb_false_l|].
  intros E2. by rewrite E2, contains_refl in E1.
Qed.

(** The three canonical names are fixed points. *)
Ltac eval_norm_cup :=
  rewrite norm_cup_name_cases; cbv zeta;
  match goal with
  | |- context [strip ?s] =>
    let t := eval vm_compute in (strip s) in change (strip s) with t
  end;
  rewrite upper_ascii by ascii_lit; by vm_compute.

Lemma norm_cup_name_europa :
  norm_cup_name (py "EUROPA LEAGUE") = py "EUROPA LEAGUE".
Proof. eval_norm_cup. Qed.

Lemma norm_cup_name_champions :
  norm_cup_name (py "CHAMPIONS LEAGUE") = py "CHAMPIONS LEAGUE".
Proof. eval_norm_cup. Qed.

Lemma norm_cup_name_conference :
  norm_cup_name (py "CONFERENCE LEAGUE") = py "CONFERENCE LEAGUE".
Proof. eval_norm_cup. Qed.

Lemma norm_cup_name_uefa_cup :
  norm_cup_name (py "UEFA Cup") = py "EUROPA LEAGUE".
Proof. eval_norm_cup. Qed.

Lemma norm_cup_name_uefa_europa :
  norm_cup_name (py "UEFA Europa League") = py "EUROPA LEAGUE".
Proof. eval_norm_cup. Qed.

Lemma norm_cup_name_idemp s :
  norm_cup_name (norm_cup_name s) = norm_cup_name s.
Proof.
  rewrite (norm_cup_name_cases s). cbv zeta.
  destruct (negb (truthy (strip s))) eqn:Et; [done|].
  destruct (_ || _) eqn:E1; [apply norm_cup_name_europa|].
  destruct (contains (py "CHAMPION") _) eqn:E2;
    [apply norm_cup_name_champions|].
  destruct (contains (py "CONFERENCE") _) eqn:E3;
    [apply norm_cup_name_conference|].
  rewrite norm_cup_name_cases. cbv zeta.
  by rewrite strip_idemp, Et, E1, E2, E3.
Qed.

Lemma upper_nil : upper [] = [].
Proof. by rewrite upper_ascii by ascii_lit. Qed.

(** The code against the rules as worded: the name is stripped first, and a
    name that contains "EUROPA LEAGUE" is mapped too. *)
Lemma norm_cup_name_rules s :
  norm_cup_name s =
    if contains (py "EUROPA LEAGUE") (upper (strip s))
    then py "EUROPA LEAGUE"
    else cup_name_rules (strip s).
Proof.
  rewrite norm_cup_name_cases. unfold cup_name_rules. cbv zeta.
  destruct (strip s) as [|c t] eqn:Es.
  - by rewrite upper_nil.
  - cbn [truthy negb].
    by destruct (contains (py "UEFA CUP") _),
         (contains (py "EUROPA LEAGUE") _), (startswith _ _).
Qed.

End HelperFacts.

(** ** C7: canonicalization of competition names *)

(** C7, as stated: the listed rules leave a name unchanged when none of
    them applies.  They do not: a padded name comes back stripped, and
    "UEFA Europa League", which meets none of the listed conditions, is
    mapped by the code's further test for "EUROPA LEAGUE". *)
Lemma C7_rules_as_worded_fail :
  norm_cup_name (U := ascii_unicode) (py " Intertoto Cup")
    ≠ cup_name_rules (U := ascii_unicode) (py " Intertoto Cup")
  ∧ norm_cup_name (U := ascii_unicode) (py "UEFA Europa League")
    ≠ cup_name_rules (U := ascii_unicode) (py "UEFA Europa League").
Proof. split; by vm_compute. Qed.

(** C7 (amended): canonicalization is idempotent on every string, "UEFA
    Cup" and "UEFA Europa League" both give "EUROPA LEAGUE", and the result
    is "EUROPA LEAGUE" when the stripped, upper-cased name contains "EUROPA
    LEAGUE", and otherwise what the worded rules give on the stripped
    name. *)
Theorem C7_norm_cup_name_canonical `{U : PyUnicode} :
  (∀ s, norm_cup_name (norm_cup_name s) = norm_cup_name s)
  ∧ norm_cup_name (py "UEFA Cup") = py "EUROPA LEAGUE"
  ∧ norm_cup_name (py "UEFA Europa League") = py "EUROPA LEAGUE"
  ∧ (∀ s, norm_cup_name s =
           if contains (py "EUROPA LEAGUE") (upper (strip s))
           then py "EUROPA LEAGUE"
           else cup_name_rules (strip s)).
Proof.
  split; [apply norm_cup_name_idemp|].
  split; [apply norm_cup_name_uefa_cup|].
  split; [apply norm_cup_name_uefa_europa|].
  apply norm_cup_name_rules.
Qed.

(** ** The table walker *)

Section WalkerFacts.
Context `{U : PyUnicode}.

Lemma emit_legs_app y c st t1 c1 t2 c2 l1 l2 b1 b2 acc :
  emit_legs y c st t1 c1 t2 c2 l1 l2 b1 b2 acc
  = acc ++ emit_legs y c st t1 c1 t2 c2 l1 l2 b1 b2 [].
Proof.
  unfold emit_legs.
  destruct (truthy t1 || truthy t2), (truthy l2); simpl;
    by rewrite <- ?app_assoc, ?app_nil_r.
Qed.

(** A row with fewer than four cells adds nothing. *)
Lemma walk_cells_short y w tds : length tds < 4 → walk_cells y w tds = w.
Proof.
  intros Hlen. destruct tds as [|a [|b [|c [|d tds]]]]; simpl in *;
    try done; try lia; by destruct (has_colspan a).
Qed.

(** A row with four cells or more runs [emit_legs] on its cell texts; the
    two branches of the source differ only in how they guard the reads. *)
Lemma walk_cells_data y w tds :
  4 ≤ length tds →
  walk_cells y w tds =
    {| current_cup := current_cup w;
       current_stage := current_stage w;
       rows_acc :=
         emit_legs y (current_cup w) (current_stage w)
           (cell_or_empty tds 0) (cell_or_empty tds 1)
           (cell_or_empty tds 2) (cell_or_empty tds 3)
           (cell_or_empty tds 4) (cell_or_empty tds 5)
           (bold_at tds 0) (bold_at tds 2) (rows_acc w) |}.
Proof.
  intros Hlen.
  destruct tds as [|a [|b [|c [|d [|e [|f tds]]]]]]; simpl in *;
    try lia; done.
Qed.

Lemma walk_cells_ctx y w tds :
  current_cup (walk_cells y w tds) = current_cup w
  ∧ current_stage (walk_cells y w tds) = current_stage w.
Proof.
  destruct (decide (length tds < 4)) as [H|H].
  - by rewrite walk_cells_short.
  - by rewrite walk_cells_data by lia.
Qed.

Lemma walk_cells_rows y w tds :
  rows_acc (walk_cells y w tds)
  = rows_acc w
    ++ rows_acc (walk_cells y
                   {| current_cup := current_cup w;
                      current_stage := current_stage w; rows_acc := [] |}
                   tds).
Proof.
  destruct (decide (length tds < 4)) as [H|H].
  - rewrite !walk_cells_short by done. simpl. by rewrite app_nil_r.
  - rewrite !walk_cells_data by lia. simpl. apply emit_legs_app.
Qed.

Lemma walk_tr_data y w tr :
  is_header tr = false → walk_tr y w tr = walk_cells y w (tr_tds tr).
Proof.
  unfold is_header, cup_header, stage_header, walk_tr.
  intros H%bool_decide_eq_false.
  destruct (tr_th tr) as [[[c|] [r|]]|]; try done;
    exfalso; apply H; eauto.
Qed.

Lemma walk_tr_cup_header y w tr txt :
  cup_header tr = Some txt →
  walk_tr y w tr =
    {| current_cup := norm_text txt; current_stage := [];
       rows_acc := rows_acc w |}.
Proof.
  unfold cup_header, walk_tr.
  destruct (tr_th tr) as [[[c|] r]|]; simpl; congruence.
Qed.

Lemma walk_tr_stage_header y w tr txt :
  stage_header tr = Some txt →
  walk_tr y w tr =
    {| current_cup := current_cup w; current_stage := norm_text txt;
       rows_acc := rows_acc w |}.
Proof.
  unfold stage_header, walk_tr.
  destruct (tr_th tr) as [[[c|] [r|]]|]; simpl; congruence.
Qed.

Lemma is_header_cases tr :
  (∃ txt, cup_header tr = Some txt) ∨ (∃ txt, stage_header tr = Some txt)
  ∨ is_header tr = false.
Proof.
  unfold is_header. case_bool_decide as H; [|by right; right].
  destruct H as [[t ->]|[t ->]]; eauto.
Qed.

(** Each row adds its own rows at the end of the accumulator. *)
Lemma walk_tr_rows y w tr :
  rows_acc (walk_tr y w tr)
  = rows_acc w ++ tr_rows y (current_cup w) (current_stage w) tr.
Proof.
  unfold tr_rows.
  destruct (is_header_cases tr) as [[t H]|[[t H]|H]].
  - rewrite !(walk_tr_cup_header _ _ _ _ H). simpl. by rewrite app_nil_r.
  - rewrite !(walk_tr_stage_header _ _ _ _ H). simpl. by rewrite app_nil_r.
  - rewrite !walk_tr_data by done. apply walk_cells_rows.
Qed.

(** The context a row leaves does not depend on the rows gathered so far. *)
Lemma walk_tr_ctx y w w' tr :
  current_cup w = current_cup w' → current_stage w = current_stage w' →
  current_cup (walk_tr y w tr) = current_cup (walk_tr y w' tr)
  ∧ current_stage (walk_tr y w tr) = current_stage (walk_tr y w' tr).
Proof.
  intros Hc Hs.
  destruct (is_header_cases tr) as [[t H]|[[t H]|H]].
  - by rewrite !(walk_tr_cup_header _ _ _ _ H).
  - by rewrite !(walk_tr_stage_header _ _ _ _ H).
  - rewrite !walk_tr_data by done.
    destruct (walk_cells_ctx y w (tr_tds tr)) as [-> ->].
    by destruct (walk_cells_ctx y w' (tr_tds tr)) as [-> ->].
Qed.

(** What a row emits, by the number of its cells. *)
Lemma tr_rows_header y c st tr : is_header tr = true → tr_rows y c st tr = [].
Proof.
  unfold tr_rows. intros Hh.
  destruct (is_header_cases tr) as [[t H]|[[t H]|H]]; [| |congruence].
  - by rewrite (walk_tr_cup_header _ _ _ _ H).
  - by rewrite (walk_tr_stage_header _ _ _ _ H).
Qed.

Lemma tr_rows_short y c st tr :
  length (tr_tds tr) < 4 → tr_rows y c st tr = [].
Proof.
  intros Hlen. destruct (is_header tr) eqn:Hh; [by apply tr_rows_header|].
  unfold tr_rows. rewrite walk_tr_data by done.
  by rewrite walk_cells_short.
Qed.

Lemma tr_rows_data y c st tr :
  is_header tr = false → 4 ≤ length (tr_tds tr) →
  tr_rows y c st tr =
    emit_legs y c st
      (cell_or_empty (tr_tds tr) 0) (cell_or_empty (tr_tds tr) 1)
      (cell_or_empty (tr_tds tr) 2) (cell_or_empty (tr_tds tr) 3)
      (cell_or_empty (tr_tds tr) 4) (cell_or_empty (tr_tds tr) 5)
      (bold_at (tr_tds tr) 0) (bold_at (tr_tds tr) 2) [].
Proof.
  intros Hh Hlen. unfold tr_rows. rewrite walk_tr_data by done.
  by rewrite walk_cells_data.
Qed.

End WalkerFacts.

Section TableFacts.
Context `{U : PyUnicode}.

Lemma parse_table_matches_cons tr table c st y acc :
  parse_table_matches (tr :: table) c st y acc
  = let w := walk_tr y {| current_cup := c; current_stage := st;
                          rows_acc := acc |} tr in
    parse_table_matches table (current_cup w) (current_stage w) y
      (rows_acc w).
Proof. unfold parse_table_matches. simpl. by destruct (walk_tr _ _ _). Qed.

Lemma parse_table_matches_app t1 t2 c st y acc :
  parse_table_matches (t1 ++ t2) c st y acc
  = let w := parse_table_matches t1 c st y acc in
    parse_table_matches t2 (current_cup w) (current_stage w) y (rows_acc w).
Proof.
  unfold parse_table_matches. rewrite foldl_app. simpl.
  by destruct (foldl _ _ t1).
Qed.

(** The rows a table adds and the context it leaves are those of a walk
    that starts with no rows. *)
Lemma parse_table_matches_acc table c st y acc :
  let w := parse_table_matches table c st y acc in
  let w0 := parse_table_matches table c st y [] in
  current_cup w = current_cup w0 ∧ current_stage w = current_stage w0
  ∧ rows_acc w = acc ++ rows_acc w0.
Proof.
  revert c st acc. induction table as [|tr table IH]; intros c st acc.
  { simpl. by rewrite app_nil_r. }
  cbv zeta. rewrite !parse_table_matches_cons. cbv zeta.
  set (w1 := walk_tr y {| current_cup := c; current_stage := st;
                          rows_acc := acc |} tr).
  set (w2 := walk_tr y {| current_cup := c; current_stage := st;
                          rows_acc := [] |} tr).
  destruct (walk_tr_ctx y
              {| current_cup := c; current_stage := st; rows_acc := acc |}
              {| current_cup := c; current_stage := st; rows_acc := [] |}
              tr eq_refl eq_refl) as [Hc Hs].
  fold w1 w2 in Hc, Hs. rewrite Hc, Hs.
  destruct (IH (current_cup w2) (current_stage w2) (rows_acc w1))
    as (-> & -> & ->).
  destruct (IH (current_cup w2) (current_stage w2) (rows_acc w2))
    as (-> & -> & ->).
  split; [done|]. split; [done|].
  subst w1 w2. rewrite (walk_tr_rows y {| rows_acc := acc |}).
  rewrite (walk_tr_rows y {| rows_acc := [] |}). simpl.
  by rewrite app_assoc.
Qed.

Lemma table_starts_acc tables y w w' :
  current_cup w = current_cup w' → current_stage w = current_stage w' →
  table_starts tables y w = table_starts tables y w'.
Proof.
  revert w w'. induction tables as [|t ts IH]; intros w w' Hc Hs; [done|].
  simpl. rewrite Hc, Hs. f_equal. apply IH.
  - destruct (parse_table_matches_acc t (current_cup w') (current_stage w')
                y (rows_acc w)) as (-> & _ & _).
    by destruct (parse_table_matches_acc t (current_cup w')
                   (current_stage w') y (rows_acc w')) as (-> & _ & _).
  - destruct (parse_table_matches_acc t (current_cup w') (current_stage w')
                y (rows_acc w)) as (_ & -> & _).
    by destruct (parse_table_matches_acc t (current_cup w')
                   (current_stage w') y (rows_acc w')) as (_ & -> & _).
Qed.

(** Each table of a page starts where the one before it stopped. *)
Lemma table_starts_step tables y w k c st table :
  table_starts tables y w !! k = Some (c, st) →
  tables !! k = Some table →
  S k < length tables →
  table_starts tables y w !! S k
  = Some (current_cup (parse_table_matches table c st y []),
          current_stage (parse_table_matches table c st y [])).
Proof.
  revert w k. induction tables as [|t ts IH]; intros w k Hk Ht Hlen;
    [done|].
  destruct k as [|k].
  - simpl in Hk, Ht. simplify_eq. simpl in Hlen.
    destruct ts as [|t' ts]; [simpl in Hlen; lia|]. simpl.
    destruct (parse_table_matches_acc table (current_cup w)
                (current_stage w) y (rows_acc w)) as (-> & -> & _).
    done.
  - simpl in Hk, Ht, Hlen.
    change (table_starts (t :: ts) y w !! S (S k))
      with (table_starts ts y
              (parse_table_matches t (current_cup w) (current_stage w) y
                 (rows_acc w)) !! S k).
    apply IH; [done|done|lia].
Qed.

End TableFacts.

(** ** C10: rows with one to three cells *)

(** C10: a row that is not a header and has one, two or three cells leaves
    the walk state as it was (no row emitted, competition and stage
    unchanged), the walk of the table goes on as if the row were not there,
    and a row that does emit has at least four cells. *)
Theorem C10_short_rows_skipped `{U : PyUnicode} y w tr :
  is_header tr = false →
  1 ≤ length (tr_tds tr) ≤ 3 →
  walk_tr y w tr = w
  ∧ (∀ before after c st acc,
       parse_table_matches (before ++ tr :: after) c st y acc
       = parse_table_matches (before ++ after) c st y acc)
  ∧ (∀ tr' c st, tr_rows y c st tr' ≠ [] → 4 ≤ length (tr_tds tr')).
Proof.
  intros Hh Hlen.
  assert (Hw : ∀ w, walk_tr y w tr = w).
  { intros w'. rewrite walk_tr_data by done. apply walk_cells_short. lia. }
  split; [apply Hw|]. split.
  - intros before after c st acc.
    rewrite !parse_table_matches_app. cbv zeta.
    rewrite parse_table_matches_cons. cbv zeta. rewrite Hw. done.
  - intros tr' c st Hne.
    destruct (decide (length (tr_tds tr') < 4)) as [Hs|Hs]; [|lia].
    by rewrite tr_rows_short in Hne.
Qed.

Lemma C10_short_rows_skipped_witness :
  let tr := tr_cells [td_plain "Group A"; td_plain "Pts"] in
  let w := {| current_cup := py "UEFA Cup"; current_stage := py "Round 1";
              rows_acc := [] |} in
  walk_tr (U := ascii_unicode) 2004 w tr = w.
Proof.
  intros tr w.
  apply (C10_short_rows_skipped (U := ascii_unicode) 2004 w tr).
  - reflexivity.
  - simpl. lia.
Defined.

(** ** C4: the competition and stage context *)

Section ContextFacts.
Context `{U : PyUnicode}.

(** The rows of a page are those each table yields from the context in
    which its walk starts. *)
Lemma page_rows_by_table tables y w :
  rows_acc
    (foldl (λ w table,
              parse_table_matches table (current_cup w) (current_stage w) y
                (rows_acc w)) w tables)
  = rows_acc w
    ++ concat (zip_with
                 (λ table cs,
                    rows_acc (parse_table_matches table cs.1 cs.2 y []))
                 tables (table_starts tables y w)).
Proof.
  revert w. induction tables as [|t ts IH]; intros w; simpl.
  { by rewrite app_nil_r. }
  rewrite IH.
  destruct (parse_table_matches_acc t (current_cup w) (current_stage w) y
              (rows_acc w)) as (_ & _ & ->).
  by rewrite app_assoc.
Qed.

End ContextFacts.

(** C4, as stated: every table of a page would start its walk with empty
    competition and stage.  On a page whose first table holds a competition
    header, the second table starts in that competition, and its rows carry
    it. *)
Lemma C4_context_not_reset_per_table :
  let tables :=
    [ [tr_cupheader "UEFA Cup"];
      [tr_cells [td_plain "Ajax"; td_plain "NED"; td_plain "Porto";
                 td_plain "POR"; td_plain "2-1"; td_plain ""]] ] in
  page_table_starts (U := ascii_unicode) tables 2004 !! 1
    = Some (py "UEFA Cup", [])
  ∧ page_table_starts (U := ascii_unicode) tables 2004 !! 1 ≠ Some ([], [])
  ∧ cup <$> year_rows (U := ascii_unicode) tables 2004 = [py "UEFA Cup"].
Proof. by vm_compute. Qed.

(** C4 (amended): the context is scoped per page.  The walk of the first
    table of a page starts with empty competition and stage, each later
    table starts in the context the table before it ended with, and the
    page's rows are the rows the tables yield from these contexts; a
    competition-header row sets the competition and clears the stage, and a
    stage-header row sets the stage and leaves the competition as it is. *)
Theorem C4_context_transitions `{U : PyUnicode} :
  (∀ table rest y, page_table_starts (table :: rest) y !! 0 = Some ([], []))
  ∧ (∀ tables y k c st table,
       page_table_starts tables y !! k = Some (c, st) →
       tables !! k = Some table →
       S k < length tables →
       page_table_starts tables y !! S k
       = Some (current_cup (parse_table_matches table c st y []),
               current_stage (parse_table_matches table c st y [])))
  ∧ (∀ tables y,
       year_rows tables y
       = concat (zip_with
                   (λ table cs,
                      rows_acc (parse_table_matches table cs.1 cs.2 y []))
                   tables (page_table_starts tables y)))
  ∧ (∀ y w tr txt,
       cup_header tr = Some txt →
       walk_tr y w tr
       = {| current_cup := norm_text txt; current_stage := [];
            rows_acc := rows_acc w |})
  ∧ (∀ y w tr txt,
       stage_header tr = Some txt →
       walk_tr y w tr
       = {| current_cup := current_cup w; current_stage := norm_text txt;
            rows_acc := rows_acc w |}).
Proof.
  split; [done|].
  split; [intros *; apply table_starts_step|].
  split.
  { intros tables y. unfold year_rows, parse_page, page_table_starts.
    by rewrite page_rows_by_table. }
  split; [apply @walk_tr_cup_header|apply @walk_tr_stage_header].
Qed.

Lemma C4_context_transitions_witness :
  let tr := tr_roundheader "Quarter Finals" in
  let w := {| current_cup := py "UEFA Cup"; current_stage := py "Round 1";
              rows_acc := [] |} in
  walk_tr (U := ascii_unicode) 2004 w tr
  = {| current_cup := py "UEFA Cup"; current_stage := py "Quarter Finals";
       rows_acc := [] |}.
Proof.
  intros tr w.
  destruct (C4_context_transitions (U := ascii_unicode))
    as (_ & _ & _ & _ & Hstage).
  apply (Hstage 2004%N w tr (py "Quarter Finals")). reflexivity.
Defined.

(** ** Scores and decimal text *)

Lemma py_app s1 s2 : py (s1 +:+ s2) = py s1 ++ py s2.
Proof. induction s1 as [|a s1 IH]; simpl; [done|]. by rewrite IH. Qed.

Lemma py_inj s1 s2 : py s1 = py s2 → s1 = s2.
Proof.
  revert s2. induction s1 as [|a s1 IH]; intros [|b s2]; simpl; try done.
  intros [= Ha Hs]. f_equal; [|by apply IH].
  by rewrite <- (ascii_N_embedding a), <- (ascii_N_embedding b), Ha.
Qed.

Lemma pretty_N_go_nonempty x s : s ≠ EmptyString → pretty_N_go x s ≠ EmptyString.
Proof.
  revert s. induction (N.lt_wf_0 x) as [x _ IH]; intros s Hs.
  destruct (decide (x = 0%N)) as [->|Hx]; [by rewrite pretty_N_go_0|].
  rewrite pretty_N_go_step by lia.
  apply IH; [apply N.div_lt; lia|done].
Qed.

(** [str(n)] is never empty. *)
Lemma py_str_truthy n : truthy (py_str n) = true.
Proof.
  unfold py_str, pretty, pretty_N. case_decide; [done|].
  destruct (pretty_N_go n "") eqn:E; [|done].
  destruct n as [|p]; [done|].
  rewrite pretty_N_go_step in E by lia.
  by apply pretty_N_go_nonempty in E.
Qed.

Lemma py_str_inj n m : py_str n = py_str m → n = m.
Proof. intros H%py_inj. by apply (inj pretty). Qed.

Lemma Forall_dropwhile (P : N → Prop) p s :
  Forall P s → Forall P (dropwhile p s).
Proof.
  induction 1 as [|c s Hc Hs IH]; simpl; [done|].
  destruct (p c); [done|by constructor].
Qed.

Lemma is_ascii_strip s : is_ascii s → is_ascii (strip s).
Proof.
  unfold is_ascii, strip, rstrip, lstrip. intros H.
  apply Forall_reverse, Forall_dropwhile, Forall_reverse.
  by apply Forall_dropwhile.
Qed.

Section ScoreFacts.
Context `{U : PyUnicode}.

(** On ASCII text the score parser is the one of the ASCII tables. *)
Lemma span_digits_ascii s :
  is_ascii s → span_digits s = span_digits (U := ascii_unicode) s.
Proof.
  induction 1 as [|c s Hc Hs IH]; simpl; [done|].
  rewrite decimal_ascii by done. by rewrite IH.
Qed.

Lemma span_digits_is_ascii s :
  is_ascii s →
  is_ascii (span_digits (U := ascii_unicode) s).1
  ∧ is_ascii (span_digits (U := ascii_unicode) s).2.
Proof.
  unfold is_ascii. induction 1 as [|c s Hc Hs [IH1 IH2]]; simpl; [done|].
  destruct (ascii_decimal c).
  - destruct (span_digits s); simpl in *. split; [by constructor|done].
  - split; [done|by constructor].
Qed.

Lemma py_int_ascii g :
  is_ascii g → py_int g = py_int (U := ascii_unicode) g.
Proof.
  intros H. unfold py_int.
  cut (∀ acc,
         foldl (λ acc c, 10 * acc + default 0 (decimal c))%N acc g
         = foldl (λ acc c, 10 * acc + default 0 (ascii_decimal c))%N acc g).
  { intros Hcut. apply Hcut. }
  induction H as [|c g Hc Hg IH]; intros acc; simpl; [done|].
  rewrite decimal_ascii by done. apply IH.
Qed.

Lemma score_match_ascii s :
  is_ascii s →
  score_match s = score_match (U := ascii_unicode) s
  ∧ ∀ g1 g2, score_match (U := ascii_unicode) s = Some (g1, g2) →
             is_ascii g1 ∧ is_ascii g2.
Proof.
  intros Hs. unfold score_match.
  pose proof (Forall_dropwhile _ isspace _ Hs) as H1.
  rewrite (span_digits_ascii _ H1).
  destruct (span_digits_is_ascii _ H1) as [Hg1 Hs1].
  destruct (span_digits (dropwhile isspace s)) as [g1 s1]; simpl in *.
  destruct (negb (truthy g1)); [done|].
  pose proof (Forall_dropwhile _ isspace _ Hs1) as H2.
  destruct (dropwhile isspace s1) as [|c s2]; [done|].
  destruct (negb (is_dash c)); [done|].
  apply Forall_cons in H2 as [_ H2].
  pose proof (Forall_dropwhile _ isspace _ H2) as H3.
  rewrite (span_digits_ascii _ H3).
  destruct (span_digits_is_ascii _ H3) as [Hg2 _].
  destruct (span_digits (dropwhile isspace s2)) as [g2 s3]; simpl in *.
  split; [done|].
  destruct (negb (truthy g2)); [done|].
  destruct (forallb isspace s3); [|done].
  by intros ?? [= <- <-].
Qed.

Lemma parse_score_ascii s :
  is_ascii s → parse_score s = parse_score (U := ascii_unicode) s.
Proof.
  intros Hs. unfold parse_score.
  destruct (negb (truthy s)); [done|].
  destruct (score_match_ascii (strip s) (is_ascii_strip s Hs)) as [-> Hg].
  destruct (score_match (strip s)) as [[g1 g2]|]; [|done].
  destruct (Hg g1 g2 eq_refl) as [H1 H2].
  by rewrite (py_int_ascii g1), (py_int_ascii g2).
Qed.

(** The two goal texts are both there exactly when the score parsed. *)
Lemma goal_strs_truthy l :
  truthy (goal_str_0 l) && truthy (goal_str_1 l)
  = match l with Some _ => true | None => false end.
Proof.
  destruct l as [[a b]|]; simpl; [|done].
  by rewrite !py_str_truthy.
Qed.

End ScoreFacts.

(** ** C1 and C3: the two legs of a row *)

Section LegFacts.
Context `{U : PyUnicode}.

(** What [emit_legs] adds: leg 1 under its guard, then leg 2 under its
    own. *)
Lemma emit_legs_nil y c st t1 c1 t2 c2 l1 l2 b1 b2 :
  emit_legs y c st t1 c1 t2 c2 l1 l2 b1 b2 []
  = (if truthy t1 || truthy t2
     then [leg1_row y c st t1 c1 t2 c2 l1 l2 b1 b2] else [])
    ++ (if truthy l2 then [leg2_row y c st t1 c1 t2 c2 l2] else []).
Proof.
  unfold emit_legs. by destruct (truthy t1 || truthy t2), (truthy l2).
Qed.

Lemma leg2_row_score y c st t1 c1 t2 c2 l2 :
  score (leg2_row y c st t1 c1 t2 c2 l2)
  = match parse_score l2 with
    | Some (a, b) => py_str b ++ py "-" ++ py_str a
    | None => l2
    end.
Proof.
  unfold leg2_row. cbn [score]. rewrite goal_strs_truthy.
  by destruct (parse_score l2) as [[a b]|].
Qed.

(** A leg-2 row among the rows of a table row whose team names are not both
    empty comes second, after the leg-1 row of the same table row. *)
Lemma tr_rows_leg2 y c st tr r2 :
  r2 ∈ tr_rows y c st tr →
  leg_no r2 = 2%N →
  truthy (home r2) || truthy (away r2) = true →
  let tds := tr_tds tr in
  tr_rows y c st tr
  = [ leg1_row y c st (cell_or_empty tds 0) (cell_or_empty tds 1)
        (cell_or_empty tds 2) (cell_or_empty tds 3) (cell_or_empty tds 4)
        (cell_or_empty tds 5) (bold_at tds 0) (bold_at tds 2);
      r2 ]
  ∧ r2 = leg2_row y c st (cell_or_empty tds 0) (cell_or_empty tds 1)
           (cell_or_empty tds 2) (cell_or_empty tds 3) (cell_or_empty tds 5).
Proof.
  intros Hin Hleg Hnames tds.
  destruct (is_header tr) eqn:Hh.
  { rewrite tr_rows_header in Hin by done. by apply elem_of_nil in Hin. }
  destruct (decide (length (tr_tds tr) < 4)) as [Hs|Hs].
  { rewrite tr_rows_short in Hin by done. by apply elem_of_nil in Hin. }
  rewrite tr_rows_data in Hin |- * by (done || lia).
  rewrite emit_legs_nil in Hin |- *. fold tds in Hin |- *.
  apply elem_of_app in Hin as [Hin|Hin].
  { destruct (_ || _); [|by apply elem_of_nil in Hin].
    apply list_elem_of_singleton in Hin. by subst r2. }
  destruct (truthy (cell_or_empty tds 5)); [|by apply elem_of_nil in Hin].
  apply list_elem_of_singleton in Hin. subst r2.
  unfold leg2_row in Hnames. cbn [home away] in Hnames.
  rewrite orb_comm in Hnames. by rewrite Hnames.
Qed.

End LegFacts.

Lemma elem_of_concat_split {A} (x : A) (chunks : list (list A)) :
  x ∈ concat chunks →
  ∃ chs1 ch chs2, chunks = chs1 ++ ch :: chs2 ∧ x ∈ ch.
Proof.
  induction chunks as [|ch chunks IH]; simpl.
  { intros H. by apply elem_of_nil in H. }
  intros [H|H]%elem_of_app.
  - by exists [], ch, chunks.
  - destruct (IH H) as (chs1 & ch' & chs2 & -> & Hin).
    by exists (ch :: chs1), ch', chs2.
Qed.

Section Provenance.
Context `{U : PyUnicode}.

Lemma table_rows_chunks y table c st acc :
  ∃ chunks,
    rows_acc (parse_table_matches table c st y acc) = acc ++ concat chunks
    ∧ Forall (from_table_row y table) chunks.
Proof.
  revert c st acc. induction table as [|tr table IH]; intros c st acc.
  { exists []. simpl. by rewrite app_nil_r. }
  rewrite parse_table_matches_cons. cbv zeta.
  set (w := walk_tr y _ tr).
  destruct (IH (current_cup w) (current_stage w) (rows_acc w))
    as (chunks & -> & Hch).
  exists (tr_rows y c st tr :: chunks). split.
  - subst w. rewrite walk_tr_rows. simpl. by rewrite app_assoc.
  - constructor.
    + exists tr, c, st. split; [left|done].
    + eapply Forall_impl; [done|].
      intros ch (tr' & c' & st' & Hin & ->).
      exists tr', c', st'. split; [by right|done].
Qed.

Lemma page_rows_chunks tables y :
  ∃ chunks,
    year_rows tables y = concat chunks
    ∧ Forall (from_page_row y tables) chunks.
Proof.
  unfold year_rows, parse_page.
  cut (∀ w, ∃ chunks,
         rows_acc
           (foldl (λ w table,
                     parse_table_matches table (current_cup w)
                       (current_stage w) y (rows_acc w)) w tables)
         = rows_acc w ++ concat chunks
         ∧ Forall (from_page_row y tables) chunks).
  { intros Hcut. apply Hcut. }
  induction tables as [|t ts IH]; intros w.
  { exists []. simpl. by rewrite app_nil_r. }
  simpl.
  destruct (IH (parse_table_matches t (current_cup w) (current_stage w) y
                  (rows_acc w))) as (chs2 & -> & H2).
  destruct (table_rows_chunks y t (current_cup w) (current_stage w)
              (rows_acc w)) as (chs1 & -> & H1).
  exists (chs1 ++ chs2). split.
  - by rewrite concat_app, app_assoc.
  - apply Forall_app. split.
    + eapply Forall_impl; [done|]. intros ch Hch. exists t. split; [left|done].
    + eapply Forall_impl; [done|]. intros ch (t' & Hin & Hch).
      exists t'. split; [by right|done].
Qed.

End Provenance.

(** C1, as stated: the first row a data row emits would always be the
    leg-1 row.  With both team names empty the leg-1 row is not written, and
    the first row is the swapped leg-2 row with the leg-2 goals. *)
Lemma C1_first_row_not_always_leg1 :
  let tr := tr_cells [td_plain ""; td_plain ""; td_plain ""; td_plain "";
                      td_plain "2-1"; td_plain "0-3"] in
  ∃ r, tr_rows (U := ascii_unicode) 2004 [] [] tr = [r]
       ∧ leg_no r = 2%N
       ∧ goals_home r = py "3" ∧ goals_away r = py "0"
       ∧ goals_home r
         ≠ goal_str_0 (parse_score (U := ascii_unicode) (py "2-1")).
Proof. eexists. by vm_compute. Qed.

(** C1 (amended): for a data row with six cells or more, with team names A
    and B and leg texts as read from the cells: when A or B is not empty the
    first emitted row is leg 1 with home A, away B, the leg-1 text as score
    and the leg-1 goals; when the leg-2 text is not empty the last emitted
    row is leg 2 (the second row, of two, when A or B is not empty) with
    home B, away A, home goals the second printed figure and away goals the
    first, and the score rebuilt from the swapped figures when the text
    parses and the leg-2 text itself otherwise. *)
Theorem C1_leg_swap `{U : PyUnicode} y c st tr :
  is_header tr = false →
  6 ≤ length (tr_tds tr) →
  let tds := tr_tds tr in
  let A := cell_or_empty tds 0 in
  let B := cell_or_empty tds 2 in
  let leg1 := cell_or_empty tds 4 in
  let leg2 := cell_or_empty tds 5 in
  let new := tr_rows y c st tr in
  (truthy A || truthy B = true →
   ∃ r1, new !! 0 = Some r1
     ∧ leg_no r1 = 1%N ∧ home r1 = A ∧ away r1 = B ∧ score r1 = leg1
     ∧ goals_home r1 = goal_str_0 (parse_score leg1)
     ∧ goals_away r1 = goal_str_1 (parse_score leg1))
  ∧ (truthy leg2 = true →
     ∃ r2, last new = Some r2
       ∧ (truthy A || truthy B = true →
          new !! 1 = Some r2 ∧ length new = 2)
       ∧ leg_no r2 = 2%N ∧ home r2 = B ∧ away r2 = A
       ∧ goals_home r2 = goal_str_1 (parse_score leg2)
       ∧ goals_away r2 = goal_str_0 (parse_score leg2)
       ∧ score r2 = match parse_score leg2 with
                    | Some (a, b) => py_str b ++ py "-" ++ py_str a
                    | None => leg2
                    end).
Proof.
  intros Hh Hlen tds A B leg1 leg2 new. subst new.
  rewrite tr_rows_data by (done || lia). rewrite emit_legs_nil.
  fold tds. fold A B leg1 leg2. split.
  - intros ->. eexists. split; [done|]. done.
  - intros ->. eexists. split.
    { rewrite last_app. simpl. done. }
    split; [by intros ->|].
    split; [done|]. split; [done|]. split; [done|].
    split; [done|]. split; [done|]. apply leg2_row_score.
Qed.

(** The example of the specification: A against B, "2-1" then "0-3". *)
Lemma C1_leg_swap_witness :
  let tr := tr_cells [td_plain "Ajax"; td_plain "NED"; td_plain "Bayern";
                      td_plain "GER"; td_plain "2-1"; td_plain "0-3"] in
  ∃ r1 r2,
    tr_rows (U := ascii_unicode) 2004 [] [] tr = [r1; r2]
    ∧ (home r1, away r1, score r1) = (py "Ajax", py "Bayern", py "2-1")
    ∧ (home r2, away r2, score r2) = (py "Bayern", py "Ajax", py "3-0").
Proof.
  intros tr.
  destruct (C1_leg_swap (U := ascii_unicode) 2004 [] [] tr)
    as [H1 H2]; [reflexivity|simpl; lia|].
  destruct (H1 eq_refl) as (r1 & Hr1 & _ & Hh1 & Ha1 & Hs1 & _).
  destruct (H2 eq_refl) as (r2 & _ & Hr2 & _ & Hh2 & Ha2 & _ & _ & Hs2).
  destruct (Hr2 eq_refl) as [Hr2' Hlen].
  exists r1, r2. split.
  - destruct (tr_rows 2004 [] [] tr) as [|x [|x' [|? ?]]]; try done.
    simpl in Hr1, Hr2'. by simplify_eq.
  - by rewrite Hh1, Ha1, Hs1, Hh2, Ha2, Hs2.
Defined.

(** C3, as stated: every leg-2 row would have its leg-1 row.  A row with
    both team names empty and a leg-2 text yields the leg-2 row alone. *)
Lemma C3_leg2_without_leg1 :
  let tables :=
    [[tr_cells [td_plain ""; td_plain ""; td_plain ""; td_plain "";
                td_plain "1-0"; td_plain "2-1"]]] in
  ∃ r2, year_rows (U := ascii_unicode) tables 2004 = [r2]
        ∧ leg_no r2 = 2%N
        ∧ ∀ r1, r1 ∈ year_rows (U := ascii_unicode) tables 2004 →
                leg_no r1 ≠ 1%N.
Proof.
  eexists. split; [by vm_compute|]. split; [done|].
  intros r1 Hin. apply list_elem_of_singleton in Hin. by subst r1.
Qed.

(** C3 (amended): on every page, a leg-2 row in which at least one team
    name is not empty stands right after a leg-1 row emitted from the same
    table row, with home and away (names and country codes) exchanged, the
    same year, competition and stage, and its goals are the printed leg-2
    figures exchanged. *)
Theorem C3_leg2_has_leg1 `{U : PyUnicode} tables y r2 :
  r2 ∈ year_rows tables y →
  leg_no r2 = 2%N →
  truthy (home r2) || truthy (away r2) = true →
  ∃ table tr c st r1 before after,
    table ∈ tables ∧ tr ∈ table
    ∧ tr_rows y c st tr = [r1; r2]
    ∧ year_rows tables y = before ++ [r1; r2] ++ after
    ∧ leg_no r1 = 1%N
    ∧ home r1 = away r2 ∧ away r1 = home r2
    ∧ home_cc r1 = away_cc r2 ∧ away_cc r1 = home_cc r2
    ∧ season_page r1 = season_page r2
    ∧ cup r1 = cup r2 ∧ comp_stage r1 = comp_stage r2
    ∧ goals_home r2
      = goal_str_1 (parse_score (cell_or_empty (tr_tds tr) 5))
    ∧ goals_away r2
      = goal_str_0 (parse_score (cell_or_empty (tr_tds tr) 5)).
Proof.
  intros Hin Hleg Hnames.
  destruct (page_rows_chunks tables y) as (chunks & Hrows & Hch).
  rewrite Hrows in Hin.
  apply elem_of_concat_split in Hin as (chs1 & ch & chs2 & -> & Hr2).
  apply Forall_app in Hch as [_ Hch]. apply Forall_cons in Hch as [Hch _].
  destruct Hch as (table & Htable & tr & c & st & Htr & ->).
  destruct (tr_rows_leg2 y c st tr r2 Hr2 Hleg Hnames) as [Hrows2 Heq].
  eexists table, tr, c, st, _, (concat chs1), (concat chs2).
  split; [done|]. split; [done|]. split; [exact Hrows2|].
  split.
  { rewrite Hrows, concat_app. simpl. by rewrite Hrows2. }
  rewrite Heq. done.
Qed.

Lemma C3_leg2_has_leg1_witness :
  let tables :=
    [[tr_cupheader "UEFA Cup";
      tr_cells [td_plain "Ajax"; td_plain "NED"; td_plain "Bayern";
                td_plain "GER"; td_plain "2-1"; td_plain "0-3"]]] in
  ∃ r1 r2 before after,
    year_rows (U := ascii_unicode) tables 2004 = before ++ [r1; r2] ++ after
    ∧ leg_no r1 = 1%N ∧ leg_no r2 = 2%N
    ∧ home r1 = away r2 ∧ away r1 = home r2.
Proof.
  intros tables.
  set (r2 := leg2_row (U := ascii_unicode) 2004 (py "UEFA Cup") []
               (py "Ajax") (py "NED") (py "Bayern") (py "GER") (py "0-3")).
  destruct (C3_leg2_has_leg1 (U := ascii_unicode) tables 2004 r2)
    as (_ & _ & _ & _ & r1 & before & after & _ & _ & _ & Hrows & Hl1
        & Hh & Ha & _).
  - vm_compute. right. left.
  - reflexivity.
  - reflexivity.
  - exists r1, r2, before, after. by rewrite Hl1, Hh, Ha.
Defined.

(** ** Dictionaries *)

Section DictFacts.
Context `{Countable K} {V : Type}.
Implicit Types (l : list (K * V)) (k : K) (v : V).

Lemma dict_of_snoc l k v : dict_of (l ++ [(k, v)]) = <[k := v]> (dict_of l).
Proof. unfold dict_of. by rewrite foldl_app. Qed.

Lemma dict_of_lookup_Some l k v : dict_of l !! k = Some v → (k, v) ∈ l.
Proof.
  induction l as [|[k' v'] l IH] using rev_ind; [done|].
  rewrite dict_of_snoc. destruct (decide (k' = k)) as [->|Hne].
  - rewrite lookup_insert_eq. intros [= ->].
    apply elem_of_app. right. left.
  - rewrite lookup_insert_ne by done. intros Hl.
    apply elem_of_app. left. by apply IH.
Qed.

Lemma dict_of_lookup_None l k : k ∉ l.*1 → dict_of l !! k = None.
Proof.
  intros Hk. destruct (dict_of l !! k) as [v|] eqn:E; [|done].
  apply dict_of_lookup_Some in E. exfalso. apply Hk.
  apply list_elem_of_fmap. by exists (k, v).
Qed.

(** With distinct keys a dictionary holds every pair it was built from. *)
Lemma dict_of_lookup_NoDup l k v :
  NoDup l.*1 → (k, v) ∈ l → dict_of l !! k = Some v.
Proof.
  induction l as [|[k' v'] l IH] using rev_ind; intros Hnd Hin.
  { by apply elem_of_nil in Hin. }
  rewrite fmap_app in Hnd. apply NoDup_app in Hnd as (Hnd & Hdisj & _).
  rewrite dict_of_snoc. apply elem_of_app in Hin as [Hin|Hin].
  - assert (k ≠ k').
    { intros ->. apply (Hdisj k'); [|left].
      apply list_elem_of_fmap. by exists (k', v). }
    rewrite lookup_insert_ne by done. by apply IH.
  - apply list_elem_of_singleton in Hin as [= -> ->].
    by rewrite lookup_insert_eq.
Qed.

End DictFacts.

(** ** The order of strings and [sorted] *)


Lemma str_leb_total a b : str_leb a b = true ∨ str_leb b a = true.
Proof.
  revert b. induction a as [|x a IH]; intros [|y b]; simpl; auto.
  destruct (N.ltb_spec x y), (N.ltb_spec y x); auto; try lia.
  assert (x = y) as -> by lia. rewrite N.eqb_refl. apply IH.
Qed.

Lemma str_leb_antisym a b : str_leb a b = true → str_leb b a = true → a = b.
Proof.
  revert b. induction a as [|x a IH]; intros [|y b]; simpl; try done.
  destruct (N.ltb_spec x y), (N.ltb_spec y x); try lia;
    destruct (N.eqb_spec x y), (N.eqb_spec y x); try done; try lia.
  subst. intros ??. f_equal. by apply IH.
Qed.

Lemma str_leb_trans a b c :
  str_leb a b = true → str_leb b c = true → str_leb a c = true.
Proof.
  revert b c. induction a as [|x a IH]; intros [|y b] [|z c]; simpl;
    try done.
  destruct (N.ltb_spec x y), (N.ltb_spec y z), (N.ltb_spec x z);
    try done; try lia;
    destruct (N.eqb_spec x y), (N.eqb_spec y z), (N.eqb_spec x z);
    try done; try lia.
  apply IH.
Qed.

#[export] Instance str_le_total : Total str_le.
Proof.
  intros a b. unfold str_le.
  destruct (str_leb_total a b) as [-> | ->]; [by left|by right].
Qed.

#[export] Instance str_le_trans : Transitive str_le.
Proof.
  intros a b c. unfold str_le. intros H1%Is_true_true H2%Is_true_true.
  apply Is_true_true. by eapply str_leb_trans.
Qed.

#[export] Instance str_le_antisym : AntiSymm (=) str_le.
Proof.
  intros a b. unfold str_le. intros H1%Is_true_true H2%Is_true_true.
  by apply str_leb_antisym.
Qed.

Lemma sorted_perm l : sorted l ≡ₚ l.
Proof. apply merge_sort_Permutation. Qed.

Lemma elem_of_sorted l x : x ∈ sorted l ↔ x ∈ l.
Proof. by rewrite sorted_perm. Qed.

Lemma NoDup_sorted l : NoDup l → NoDup (sorted l).
Proof. by rewrite sorted_perm. Qed.

Lemma sorted_strongly l : StronglySorted str_le (sorted l).
Proof. apply StronglySorted_merge_sort; apply _. Qed.

(** [sorted] depends on the elements only, not on their order. *)
Lemma sorted_proper l1 l2 : l1 ≡ₚ l2 → sorted l1 = sorted l2.
Proof.
  intros Hp. apply (StronglySorted_unique str_le);
    [apply sorted_strongly..|].
  by rewrite !sorted_perm.
Qed.

(** [unique] keeps every value once. *)
Lemma elem_of_unique `{EqDecision A} (l : list A) x : x ∈ unique l ↔ x ∈ l.
Proof.
  induction l as [|y l IH]; simpl; [done|].
  rewrite !elem_of_cons, list_elem_of_filter, IH.
  destruct (decide (x = y)); tauto.
Qed.

Lemma NoDup_unique `{EqDecision A} (l : list A) : NoDup (unique l).
Proof.
  induction l as [|y l IH]; simpl; constructor.
  - rewrite list_elem_of_filter. by intros [? _].
  - by apply NoDup_filter.
Qed.

(** ** Decimal text read back *)

Lemma pretty_N_go_app x s :
  py (pretty_N_go x s) = py (pretty_N_go x EmptyString) ++ py s.
Proof.
  revert s. induction (N.lt_wf_0 x) as [x _ IH]; intros s.
  destruct (decide (x = 0%N)) as [->|Hx]; [by rewrite !pretty_N_go_0|].
  rewrite !(pretty_N_go_step x) by lia.
  rewrite (IH (x `div` 10)%N) by (apply N.div_lt; lia).
  rewrite (IH (x `div` 10)%N ltac:(apply N.div_lt; lia) (String _ EmptyString)).
  simpl. by rewrite <- app_assoc.
Qed.

Lemma pretty_N_char_code d :
  (d < 10)%N → N_of_ascii (pretty_N_char d) = (48 + d)%N.
Proof.
  intros Hd.
  assert (d = 0 ∨ d = 1 ∨ d = 2 ∨ d = 3 ∨ d = 4 ∨ d = 5 ∨ d = 6 ∨ d = 7
          ∨ d = 8 ∨ d = 9)%N as Hc by lia.
  repeat (destruct Hc as [->|Hc]; [done|]). by subst.
Qed.

(** The digits of a positive number: those of its tenth, then the last. *)
Lemma pretty_N_go_digits x :
  (0 < x)%N →
  py (pretty_N_go x EmptyString)
  = py (pretty_N_go (x `div` 10) EmptyString) ++ [(48 + x `mod` 10)%N].
Proof.
  intros Hx. rewrite pretty_N_go_step by done.
  rewrite pretty_N_go_app. simpl.
  rewrite pretty_N_char_code; [done|]. apply N.mod_lt. lia.
Qed.

Lemma pretty_N_go_value x :
  all_digits (py (pretty_N_go x EmptyString)) = true
  ∧ digits_value (py (pretty_N_go x EmptyString)) = x.
Proof.
  induction (N.lt_wf_0 x) as [x _ IH].
  destruct (decide (x = 0%N)) as [->|Hx]; [done|].
  rewrite pretty_N_go_digits by lia.
  destruct (IH (x `div` 10)%N) as [IH1 IH2]; [apply N.div_lt; lia|].
  pose proof (N.mod_lt x 10 ltac:(lia)) as Hm.
  assert (Hd : ascii_decimal (48 + x `mod` 10) = Some (x `mod` 10)%N).
  { generalize dependent (x `mod` 10)%N. intros m Hm. unfold ascii_decimal.
    rewrite (proj2 (N.leb_le 48 _)), (proj2 (N.leb_le _ 57)) by lia.
    cbn [andb]. f_equal. lia. }
  split.
  - unfold all_digits in *. rewrite forallb_app, IH1. simpl.
    rewrite Hd. by rewrite bool_decide_eq_true_2 by eauto.
  - unfold digits_value in *. rewrite foldl_app, IH2. simpl.
    rewrite Hd. simpl. symmetry. apply N.div_mod. lia.
Qed.

(** [pd.to_numeric] reads back what [str] wrote. *)
Lemma to_numeric_py_str n : to_numeric (py_str n) = Some n.
Proof.
  unfold to_numeric. rewrite py_str_truthy. simpl.
  unfold py_str, pretty, pretty_N. case_decide as Hn; [by subst|].
  destruct (pretty_N_go_value n) as [H1 H2].
  by rewrite H1, H2.
Qed.

Lemma to_numeric_nil : to_numeric [] = None.
Proof. done. Qed.

(** The goal texts of a candidate row read back as the parsed counts. *)
Lemma to_numeric_goal_strs l :
  to_numeric (goal_str_0 l) = fst <$> l
  ∧ to_numeric (goal_str_1 l) = snd <$> l.
Proof.
  destruct l as [[a b]|]; simpl; [|done].
  by rewrite !to_numeric_py_str.
Qed.

(** The text of an id is not the word "draw", and it is not empty. *)
Lemma int64_str_not_draw x : int64_str x ≠ py "draw".
Proof.
  destruct x as [n|]; simpl; [|done].
  intros E. pose proof (to_numeric_py_str (N.of_nat n)) as Hn.
  by rewrite E in Hn.
Qed.

Lemma int64_str_truthy x : truthy (int64_str x) = true.
Proof. destruct x; [apply py_str_truthy|done]. Qed.

(** ** Clubs *)

Section ClubFacts.
Context `{U : PyUnicode}.

Lemma elem_of_clubs df c :
  c ∈ clubs df ↔
  truthy c = true
  ∧ ∃ r, r ∈ df ∧ (c = strip (df_home r) ∨ c = strip (df_away r)).
Proof.
  unfold clubs. rewrite elem_of_sorted, elem_of_elements,
    elem_of_list_to_set, list_elem_of_filter, elem_of_app,
    !list_elem_of_fmap.
  split.
  - intros [Ht [(r & -> & Hr)|(r & -> & Hr)]];
      (split; [by apply Is_true_true|]); eauto.
  - intros [Ht (r & Hr & [->| ->])];
      (split; [by apply Is_true_true|]); eauto.
Qed.

Lemma NoDup_clubs df : NoDup (clubs df).
Proof. unfold clubs. apply NoDup_sorted, NoDup_elements. Qed.

(** A name found in [club_map] is a club name of the data, at the place
    its id says. *)
Lemma club_map_lookup_Some df c i :
  club_map_of (dim_clubs df) !! c = Some i →
  ∃ k, i = S k ∧ clubs df !! k = Some c.
Proof.
  unfold club_map_of, dim_clubs. intros H%dict_of_lookup_Some.
  apply list_elem_of_fmap in H as ([i' c'] & [= -> ->] & H).
  apply elem_of_lookup_imap in H as (k & c & [= -> ->] & Hk). eauto.
Qed.

Lemma club_map_lookup df k c :
  clubs df !! k = Some c → club_map_of (dim_clubs df) !! c = Some (S k).
Proof.
  intros Hk. unfold club_map_of, dim_clubs. apply dict_of_lookup_NoDup.
  - rewrite <- list_fmap_compose.
    replace ((fst ∘ (λ r : nat * pystr, (r.2, r.1))) <$> imap (λ i c, (S i, c)) (clubs df))
      with (clubs df); [apply NoDup_clubs|].
    apply list_eq. intros j.
    rewrite list_lookup_fmap, list_lookup_imap.
    by destruct (clubs df !! j).
  - apply list_elem_of_fmap. exists (S k, c). split; [done|].
    by apply (elem_of_lookup_imap_2 (λ i c, (S i, c))).
Qed.

(** The empty name is not a key of [club_map]. *)
Lemma club_map_nil df : club_map_of (dim_clubs df) !! [] = None.
Proof.
  destruct (club_map_of (dim_clubs df) !! []) as [i|] eqn:E; [|done].
  apply club_map_lookup_Some in E as (k & _ & Hk).
  assert (Hin : [] ∈ clubs df) by (apply list_elem_of_lookup; eauto).
  by apply elem_of_clubs in Hin as [? _].
Qed.

(** Every non-empty stripped team name of the data has its club id. *)
Lemma club_map_total df r :
  r ∈ df →
  (truthy (strip (df_home r)) = true →
   is_Some (club_map_of (dim_clubs df) !! strip (df_home r)))
  ∧ (truthy (strip (df_away r)) = true →
     is_Some (club_map_of (dim_clubs df) !! strip (df_away r))).
Proof.
  intros Hr. split; intros Ht.
  - assert (Hin : strip (df_home r) ∈ clubs df)
      by (apply elem_of_clubs; eauto).
    apply list_elem_of_lookup in Hin as [k Hk].
    rewrite (club_map_lookup _ _ _ Hk). eauto.
  - assert (Hin : strip (df_away r) ∈ clubs df)
      by (apply elem_of_clubs; eauto).
    apply list_elem_of_lookup in Hin as [k Hk].
    rewrite (club_map_lookup _ _ _ Hk). eauto.
Qed.

End ClubFacts.

(** ** C8: the two-leg winner *)

Section TwoLegFacts.
Context `{U : PyUnicode}.

Lemma leg_no_text_1 (n : N) : py_str n = py "1" → n = 1%N.
Proof. intros H. by apply (py_str_inj n 1). Qed.

(** From one table row to its fact rows, for any maps in which the empty
    name has no club id. *)
Lemma two_leg_winner_row cm sm clm y c st tr r id :
  clm !! ([] : pystr) = None →
  r ∈ tr_rows y c st tr →
  f_two_leg_winner (fact_row cm sm clm (csv_row r)) = Some id →
  let tds := tr_tds tr in
  leg_no r = 1%N
  ∧ truthy (cell_or_empty tds 5) = true
  ∧ home r = cell_or_empty tds 0 ∧ away r = cell_or_empty tds 2
  ∧ ((bold_at tds 0 = true ∧ bold_at tds 2 = false
      ∧ clm !! strip (cell_or_empty tds 0) = Some id)
     ∨ (bold_at tds 0 = false ∧ bold_at tds 2 = true
        ∧ clm !! strip (cell_or_empty tds 2) = Some id)).
Proof.
  intros Hnil Hin Hid tds.
  destruct (is_header tr) eqn:Hh.
  { rewrite tr_rows_header in Hin by done. by apply elem_of_nil in Hin. }
  destruct (decide (length (tr_tds tr) < 4)) as [Hs|Hs].
  { rewrite tr_rows_short in Hin by done. by apply elem_of_nil in Hin. }
  rewrite tr_rows_data in Hin by (done || lia).
  rewrite emit_legs_nil in Hin. fold tds in Hin.
  unfold fact_row in Hid. cbn [f_two_leg_winner] in Hid.
  case_bool_decide as Hleg; [|done].
  unfold csv_row in Hleg, Hid. cbn [df_leg_no df_two_leg_winner] in Hleg, Hid.
  apply leg_no_text_1 in Hleg.
  apply elem_of_app in Hin as [Hin|Hin].
  - destruct (_ || _); [|by apply elem_of_nil in Hin].
    apply list_elem_of_singleton in Hin. subst r.
    unfold leg1_row in *. cbn [two_leg_winner leg_no home away] in *.
    assert (Hnil' : clm !! strip [] = None) by exact Hnil.
    destruct (truthy (cell_or_empty tds 5)); [|by rewrite Hnil' in Hid].
    unfold two_leg_winner_name in Hid.
    destruct (bold_at tds 0), (bold_at tds 2); cbn [andb negb] in Hid;
      try (by rewrite Hnil' in Hid).
    + repeat (split; [done|]). by left.
    + repeat (split; [done|]). by right.
  - destruct (truthy (cell_or_empty tds 5)); [|by apply elem_of_nil in Hin].
    apply list_elem_of_singleton in Hin. by subst r.
Qed.

(** Every row of [df] in a run comes from a table row of a page. *)
Lemma candidates_from_rows pages dfr :
  dfr ∈ candidates pages →
  ∃ y tables table tr c st r,
    (y, tables) ∈ pages ∧ table ∈ tables ∧ tr ∈ table
    ∧ r ∈ tr_rows y c st tr ∧ dfr = csv_row r.
Proof.
  unfold candidates. intros ([y tables] & Hin & Hp)%list_elem_of_bind.
  apply list_elem_of_fmap in Hin as (r & -> & Hr).
  destruct (page_rows_chunks tables y) as (chunks & Hrows & Hch).
  rewrite Hrows in Hr.
  apply elem_of_concat_split in Hr as (chs1 & ch & chs2 & -> & Hr).
  apply Forall_app in Hch as [_ Hch]. apply Forall_cons in Hch as [Hch _].
  destruct Hch as (table & Htable & tr & c & st & Htr & ->).
  by exists y, tables, table, tr, c, st, r.
Qed.

End TwoLegFacts.

(** C8: in the fact table of a run, a row whose two-leg winner id is set
    comes from a table row as its leg-1 row, the leg-2 text of that table
    row is not empty, exactly one of its two team cells is marked bold, and
    the id is the club id of the marked team, which is the row's home club
    when team 1 is marked and its away club when team 2 is. *)
Theorem C8_two_leg_winner `{U : PyUnicode} pages out f id :
  build (candidates pages) = Some out →
  f ∈ out_fact out →
  f_two_leg_winner f = Some id →
  ∃ y tables table tr c st r,
    (y, tables) ∈ pages ∧ table ∈ tables ∧ tr ∈ table
    ∧ r ∈ tr_rows y c st tr
    ∧ f = fact_row (cup_map_of (out_dim_cups out))
            (stage_map_norm_of (out_dim_stages out))
            (club_map_of (out_dim_clubs out)) (csv_row r)
    ∧ leg_no r = 1%N ∧ f_leg_no f = Some 1%N
    ∧ truthy (cell_or_empty (tr_tds tr) 5) = true
    ∧ ((bold_at (tr_tds tr) 0 = true ∧ bold_at (tr_tds tr) 2 = false
        ∧ home r = cell_or_empty (tr_tds tr) 0
        ∧ f_home_club_id f = Some id)
       ∨ (bold_at (tr_tds tr) 0 = false ∧ bold_at (tr_tds tr) 2 = true
          ∧ away r = cell_or_empty (tr_tds tr) 2
          ∧ f_away_club_id f = Some id)).
Proof.
  unfold build. intros Hb Hf Hid.
  destruct (dim_cups (candidates pages)) as [dc|]; [|done].
  injection Hb as <-. cbn [out_fact out_dim_cups out_dim_stages
                            out_dim_clubs] in *.
  unfold fact_table in Hf. apply list_elem_of_fmap in Hf as (dfr & -> & Hd).
  apply candidates_from_rows in Hd
    as (y & tables & table & tr & c & st & r & Hp & Ht & Htr & Hr & ->).
  destruct (two_leg_winner_row _ _ _ y c st tr r id
              (club_map_nil (candidates pages)) Hr Hid)
    as (Hleg & Hl2 & Hhome & Haway & Hbold).
  exists y, tables, table, tr, c, st, r.
  repeat (split; [done|]).
  split.
  { unfold fact_row, csv_row. cbn [f_leg_no df_leg_no]. rewrite Hleg.
    apply to_numeric_py_str. }
  split; [done|].
  unfold fact_row, csv_row. cbn [f_home_club_id f_away_club_id df_home df_away].
  rewrite Hhome, Haway.
  destruct Hbold as [(? & ? & ?)|(? & ? & ?)]; [left|right]; done.
Qed.

Lemma C8_two_leg_winner_witness :
  let pages :=
    [(2004%N,
      [[tr_cupheader "UEFA Cup";
        tr_cells [td_marked "Ajax"; td_plain "NED"; td_plain "Bayern";
                  td_plain "GER"; td_plain "2-1"; td_plain "0-3"]]])] in
  ∃ out f,
    build (U := ascii_unicode) (candidates (U := ascii_unicode) pages)
      = Some out
    ∧ out_fact out !! 0 = Some f
    ∧ f_two_leg_winner f = Some 1
    ∧ f_home_club_id f = Some 1.
Proof.
  intros pages.
  destruct (build (U := ascii_unicode) (candidates (U := ascii_unicode) pages))
    as [out|] eqn:Hb; [|by vm_compute in Hb].
  assert (Hout : ∃ f, out_fact out !! 0 = Some f ∧ f_two_leg_winner f = Some 1).
  { vm_compute in Hb. injection Hb as <-. eexists. split; reflexivity. }
  destruct Hout as (f & Hf & Hid).
  destruct (C8_two_leg_winner (U := ascii_unicode) pages out f 1 Hb)
    as (y & tables & table & tr & c & st & r & _ & _ & _ & _ & _ & _ & _ & _
        & Hbold); [by eapply list_elem_of_lookup_2|done|].
  exists out, f. split; [done|]. split; [done|]. split; [done|].
  destruct Hbold as [(_ & _ & _ & Hh)|(_ & _ & _ & Ha)]; [done|].
  vm_compute in Hb. injection Hb as <-. by vm_compute in Hf; simplify_eq.
Defined.

(** ** C2: the per-leg winner *)

(** What [winner_of] gives, case by case. *)
Lemma winner_of_missing gh ga home_id away_id :
  gh = None ∨ ga = None → winner_of gh ga home_id away_id = [].
Proof. unfold winner_of. destruct gh, ga; by intros [?|?]. Qed.

Lemma winner_of_draw_iff gh ga home_id away_id :
  winner_of gh ga home_id away_id = py "draw"
  ↔ ∃ n, gh = Some n ∧ ga = Some n.
Proof.
  unfold winner_of. destruct gh as [a|], ga as [b|]; cbn [isna orb];
    try (split; [done|by intros (? & ? & ?)]).
  cbn [num_eq]. destruct (N.eqb_spec a b) as [->|Hne].
  - split; [eauto|done].
  - split; [|by intros (n & [= ->] & [= ->])].
    intros E. by apply int64_str_not_draw in E.
Qed.

Lemma winner_of_higher (a b : N) home_id away_id :
  ((b < a)%N → winner_of (Some a) (Some b) home_id away_id
               = int64_str home_id)
  ∧ ((a < b)%N → winner_of (Some a) (Some b) home_id away_id
                 = int64_str away_id).
Proof.
  unfold winner_of. cbn [isna orb num_eq num_gt num_lt].
  split; intros Hlt.
  - rewrite (proj2 (N.eqb_neq a b)), (proj2 (N.ltb_lt b a)) by lia. done.
  - rewrite (proj2 (N.eqb_neq a b)), (proj2 (N.ltb_ge b a)),
      (proj2 (N.ltb_lt a b)) by lia. done.
Qed.

(** With both club ids resolved the winner is a club id in decimal, "draw"
    or empty. *)
Lemma winner_of_resolved gh ga (h a : nat) :
  winner_of gh ga (Some h) (Some a) = py_str (N.of_nat h)
  ∨ winner_of gh ga (Some h) (Some a) = py_str (N.of_nat a)
  ∨ winner_of gh ga (Some h) (Some a) = py "draw"
  ∨ winner_of gh ga (Some h) (Some a) = [].
Proof.
  destruct gh as [x|], ga as [y|];
    try (do 3 right; apply winner_of_missing; by auto).
  destruct (N.lt_trichotomy x y) as [Hlt|[->|Hgt]].
  - right. left. by apply winner_of_higher.
  - do 2 right. left. apply winner_of_draw_iff. eauto.
  - left. by apply winner_of_higher.
Qed.

(** The winner column of the fact table, for any maps: "draw" exactly when
    both goal counts are there and equal, empty when one is missing, and
    otherwise the printed id of the side with the higher count. *)
Lemma fact_row_winner `{U : PyUnicode} cm sm clm r :
  let f := fact_row cm sm clm r in
  let gh := to_numeric (df_goals_home r) in
  let ga := to_numeric (df_goals_away r) in
  (f_winner f = py "draw" ↔ ∃ n, gh = Some n ∧ ga = Some n)
  ∧ (gh = None ∨ ga = None → f_winner f = [])
  ∧ (∀ a b, gh = Some a → ga = Some b → (b < a)%N →
            f_winner f = int64_str (f_home_club_id f))
  ∧ (∀ a b, gh = Some a → ga = Some b → (a < b)%N →
            f_winner f = int64_str (f_away_club_id f)).
Proof.
  intros f gh ga. subst f. unfold fact_row. cbn [f_winner f_home_club_id
                                                  f_away_club_id].
  fold gh ga.
  split; [apply winner_of_draw_iff|].
  split; [apply winner_of_missing|].
  split; intros a b -> -> Hlt; by apply winner_of_higher.
Qed.

(** C2, the failing input: a row whose home name is empty and whose score
    is 2-1.  The home side has the higher count and no club id, and the
    winner is the text pandas prints for a missing id, which is not a club
    id, not "draw" and not empty. *)
Theorem C2_winner_of_unresolved_club :
  let pages :=
    [(2004%N,
      [[tr_cupheader "UEFA Cup";
        tr_cells [td_plain ""; td_plain ""; td_plain "Ajax"; td_plain "NED";
                  td_plain "2-1"; td_plain ""]]])] in
  ∃ out f,
    build (U := ascii_unicode) (candidates (U := ascii_unicode) pages)
      = Some out
    ∧ out_fact out = [f]
    ∧ f_goals_home f = py "2" ∧ f_goals_away f = py "1"
    ∧ f_home_club_id f = None ∧ f_away_club_id f = Some 1
    ∧ f_winner f = py "<NA>"
    ∧ f_winner f ≠ [] ∧ f_winner f ≠ py "draw"
    ∧ to_numeric (f_winner f) = None.
Proof. intros pages. do 2 eexists. split; [by vm_compute|]. done. Qed.

(** ** C5: competition ids *)

Lemma skip_used_free fuel used next_id :
  next_id ∉ used → skip_used (S fuel) used next_id = Some next_id.
Proof. intros Hn. simpl. by rewrite decide_False. Qed.

(** While every id in use is below [next_id], the loop over [remaining]
    hands out [next_id], [next_id + 1], ... in order. *)
Lemma assign_remaining_fresh remaining rows used next_id :
  (∀ x, x ∈ used → x < next_id) →
  assign_remaining remaining rows used next_id
  = Some (rows ++ imap (λ k c, {| cup_id := next_id + k; cup_kes := c |})
                    remaining).
Proof.
  revert rows used next_id.
  induction remaining as [|c rest IH]; intros rows used next_id Hused.
  { simpl. by rewrite app_nil_r. }
  cbn [assign_remaining].
  rewrite skip_used_free by (intros Hin; apply Hused in Hin; lia).
  rewrite IH.
  - rewrite <- app_assoc. cbn [imap app]. rewrite Nat.add_0_r.
    do 3 f_equal. apply imap_ext. intros k x _. simpl. f_equal. lia.
  - intros x [->%elem_of_singleton|Hx]%elem_of_union; [lia|].
    apply Hused in Hx. lia.
Qed.

Section CupFacts.
Context `{U : PyUnicode}.

Lemma fixed_cups_spec cu :
  ∃ used, fixed_cups cu = (fixed_present cu, used) ∧ ∀ x, x ∈ used → x < 4.
Proof.
  unfold fixed_cups, fixed_present, CUP_ID_FIXED.
  rewrite !filter_cons, filter_nil. cbn [foldl fst snd].
  destruct (decide (py "CHAMPIONS LEAGUE" ∈ cu)),
    (decide (py "EUROPA LEAGUE" ∈ cu)),
    (decide (py "CONFERENCE LEAGUE" ∈ cu));
    (eexists; split; [reflexivity|]); intros x; set_unfold; lia.
Qed.

Lemma cup_rows_eq df :
  cup_rows df
  = Some (fixed_present (cups_unique df)
          ++ imap (λ k c, {| cup_id := 4 + k; cup_kes := c |})
               (remaining_cups (cups_unique df))).
Proof.
  unfold cup_rows.
  destruct (fixed_cups_spec (cups_unique df)) as (used & -> & Hused).
  by apply assign_remaining_fresh.
Qed.

Lemma elem_of_cups_unique df c :
  c ∈ cups_unique df
  ↔ truthy c = true ∧ ∃ r, r ∈ df ∧ c = norm_cup_name (df_cup r).
Proof.
  unfold cups_unique. rewrite list_elem_of_filter, elem_of_unique,
    list_elem_of_fmap, Is_true_true. unfold cup_norm_kes.
  split; intros [Ht (r & Hc & Hr)]; eauto.
Qed.

Lemma NoDup_cups_unique df : NoDup (cups_unique df).
Proof. unfold cups_unique. apply NoDup_filter, NoDup_unique. Qed.

Lemma elem_of_remaining_cups cu c :
  c ∈ remaining_cups cu ↔ c ∈ cu ∧ c ∉ CUP_ID_FIXED.*1.
Proof.
  unfold remaining_cups. rewrite elem_of_sorted, list_elem_of_filter.
  tauto.
Qed.

Lemma NoDup_remaining_cups cu : NoDup cu → NoDup (remaining_cups cu).
Proof. intros H. unfold remaining_cups. by apply NoDup_sorted, NoDup_filter. Qed.

Lemma fixed_present_names cu :
  cup_kes <$> fixed_present cu
  = (filter (λ p, p.1 ∈ cu) CUP_ID_FIXED).*1.
Proof. unfold fixed_present. by rewrite <- list_fmap_compose. Qed.

Lemma elem_of_fixed_present cu row :
  row ∈ fixed_present cu
  ↔ (cup_kes row, cup_id row) ∈ CUP_ID_FIXED ∧ cup_kes row ∈ cu.
Proof.
  unfold fixed_present. rewrite list_elem_of_fmap. split.
  - intros ([c i] & -> & [Hp Hin]%list_elem_of_filter). done.
  - intros [Hin Hc]. exists (cup_kes row, cup_id row).
    split; [by destruct row|]. by apply list_elem_of_filter.
Qed.

Lemma remaining_rows_names rem :
  cup_kes <$> imap (λ k c, {| cup_id := 4 + k; cup_kes := c |}) rem = rem.
Proof.
  apply list_eq. intros j. rewrite list_lookup_fmap, list_lookup_imap.
  by destruct (rem !! j).
Qed.

(** The names of [cup_rows] are pairwise distinct. *)
Lemma cup_rows_names_NoDup cu :
  NoDup cu →
  NoDup (cup_kes <$> (fixed_present cu
                      ++ imap (λ k c, {| cup_id := 4 + k; cup_kes := c |})
                           (remaining_cups cu))).
Proof.
  intros Hnd. rewrite fmap_app, fixed_present_names, remaining_rows_names.
  apply NoDup_app. split; [|split].
  - eapply sublist_NoDup; [|apply fmap_sublist, sublist_filter].
    by apply (bool_decide_unpack _).
  - intros c Hc Hrem. apply elem_of_remaining_cups in Hrem as [_ Hrem].
    apply Hrem. eapply elem_of_sublist; [exact Hc|].
    apply fmap_sublist, sublist_filter.
  - by apply NoDup_remaining_cups.
Qed.

(** [dim_cups] exists as soon as one competition name does, and holds the
    rows of [cup_rows]. *)
Lemma dim_cups_eq df :
  cups_unique df ≠ [] →
  ∃ dc, dim_cups df = Some dc
        ∧ dc ≡ₚ fixed_present (cups_unique df)
                ++ imap (λ k c, {| cup_id := 4 + k; cup_kes := c |})
                     (remaining_cups (cups_unique df)).
Proof.
  intros Hne. unfold dim_cups. rewrite cup_rows_eq.
  set (rows := _ ++ _).
  destruct rows as [|row rows'] eqn:E.
  - exfalso. apply app_eq_nil in E as [Ef Er].
    destruct (cups_unique df) as [|c cu'] eqn:Ecu; [done|].
    destruct (decide (c ∈ CUP_ID_FIXED.*1)) as [Hc|Hc].
    + apply list_elem_of_fmap in Hc as ([c' i] & Heq & Hin).
      simpl in Heq. subst c.
      assert (Hrow : {| cup_id := i; cup_kes := c' |} ∈ fixed_present (c' :: cu')).
      { apply elem_of_fixed_present. split; [done|left]. }
      rewrite Ef in Hrow. by apply elem_of_nil in Hrow.
    + assert (Hrem : c ∈ remaining_cups (c :: cu')).
      { apply elem_of_remaining_cups. split; [left|done]. }
      destruct (remaining_cups (c :: cu')); [by apply elem_of_nil in Hrem|].
      done.
  - eexists. split; [done|]. apply merge_sort_Permutation.
Qed.

(** A row of [cup_rows] is found in [cup_map] under its name. *)
Lemma cup_map_lookup df dc row :
  dim_cups df = Some dc →
  row ∈ fixed_present (cups_unique df)
        ++ imap (λ k c, {| cup_id := 4 + k; cup_kes := c |})
             (remaining_cups (cups_unique df)) →
  cup_map_of dc !! cup_kes row = Some (cup_id row).
Proof.
  intros Hdc Hrow.
  assert (Hne : cups_unique df ≠ []).
  { intros E. rewrite E in Hrow. by apply elem_of_nil in Hrow. }
  destruct (dim_cups_eq df Hne) as (dc' & Hdc' & Hperm).
  rewrite Hdc in Hdc'. injection Hdc' as <-.
  unfold cup_map_of. apply dict_of_lookup_NoDup.
  - rewrite <- list_fmap_compose.
    change (fst ∘ _) with cup_kes. rewrite Hperm.
    apply cup_rows_names_NoDup, NoDup_cups_unique.
  - apply list_elem_of_fmap. exists row. split; [done|]. by rewrite Hperm.
Qed.

(** A name found in [cup_map] is a competition name of the data. *)
Lemma cup_map_lookup_Some df dc c i :
  dim_cups df = Some dc →
  cup_map_of dc !! c = Some i → c ∈ cups_unique df.
Proof.
  intros Hdc Hl. unfold cup_map_of in Hl.
  apply dict_of_lookup_Some, list_elem_of_fmap in Hl as (row & [= -> ->] & Hrow).
  assert (Hne : cups_unique df ≠ []).
  { intros E. unfold dim_cups in Hdc. rewrite cup_rows_eq, E in Hdc. done. }
  destruct (dim_cups_eq df Hne) as (dc' & Hdc' & Hperm).
  rewrite Hdc in Hdc'. injection Hdc' as <-. rewrite Hperm in Hrow.
  apply elem_of_app in Hrow as [Hrow|Hrow].
  - by apply elem_of_fixed_present in Hrow as [_ ?].
  - apply elem_of_lookup_imap in Hrow as (k & c & -> & Hk). simpl.
    assert (Hin : c ∈ remaining_cups (cups_unique df))
      by (apply list_elem_of_lookup; eauto).
    by apply elem_of_remaining_cups in Hin as [? _].
Qed.

(** The dimension does not depend on the order of the rows of [df]. *)
Lemma cups_unique_perm df df' :
  df ≡ₚ df' → cups_unique df ≡ₚ cups_unique df'.
Proof.
  intros Hp. apply NoDup_Permutation; [apply NoDup_cups_unique..|].
  intros c. rewrite !elem_of_cups_unique. by setoid_rewrite Hp.
Qed.

Lemma fixed_present_perm cu cu' :
  cu ≡ₚ cu' → fixed_present cu = fixed_present cu'.
Proof.
  intros Hp. unfold fixed_present. f_equal.
  apply list_filter_iff. intros p. by rewrite Hp.
Qed.

Lemma remaining_cups_perm cu cu' :
  cu ≡ₚ cu' → remaining_cups cu = remaining_cups cu'.
Proof. intros Hp. unfold remaining_cups. apply sorted_proper. by rewrite Hp. Qed.

Lemma dim_cups_perm df df' : df ≡ₚ df' → dim_cups df = dim_cups df'.
Proof.
  intros Hp%cups_unique_perm. unfold dim_cups. rewrite !cup_rows_eq.
  by rewrite (fixed_present_perm _ _ Hp), (remaining_cups_perm _ _ Hp).
Qed.

End CupFacts.

(** C5: when the data names a competition at all, the competition
    dimension exists and, in its name-to-id map, "CHAMPIONS LEAGUE", "EUROPA
    LEAGUE" and "CONFERENCE LEAGUE" have the ids 1, 2 and 3 when they occur;
    the other canonical names, each once and in ascending order of [str],
    have the ids 4, 5, ... by position; nothing else has an id; and the
    dimension is the same for every order of the rows of [df]. *)
Theorem C5_competition_ids `{U : PyUnicode} df :
  cups_unique df ≠ [] →
  ∃ dc, dim_cups df = Some dc
    ∧ (py "CHAMPIONS LEAGUE" ∈ cups_unique df →
       cup_map_of dc !! py "CHAMPIONS LEAGUE" = Some 1)
    ∧ (py "EUROPA LEAGUE" ∈ cups_unique df →
       cup_map_of dc !! py "EUROPA LEAGUE" = Some 2)
    ∧ (py "CONFERENCE LEAGUE" ∈ cups_unique df →
       cup_map_of dc !! py "CONFERENCE LEAGUE" = Some 3)
    ∧ (∀ k c, remaining_cups (cups_unique df) !! k = Some c →
              cup_map_of dc !! c = Some (4 + k))
    ∧ (∀ c, c ∈ remaining_cups (cups_unique df)
            ↔ c ∈ cups_unique df ∧ c ∉ CUP_ID_FIXED.*1)
    ∧ StronglySorted str_le (remaining_cups (cups_unique df))
    ∧ NoDup (remaining_cups (cups_unique df))
    ∧ (∀ c i, cup_map_of dc !! c = Some i → c ∈ cups_unique df)
    ∧ (∀ df', df' ≡ₚ df → dim_cups df' = Some dc).
Proof.
  intros Hne. destruct (dim_cups_eq df Hne) as (dc & Hdc & Hperm).
  exists dc. split; [done|].
  assert (Hfix : ∀ c i, (c, i) ∈ CUP_ID_FIXED → c ∈ cups_unique df →
                        cup_map_of dc !! c = Some i).
  { intros c i Hci Hc.
    apply (cup_map_lookup df dc {| cup_id := i; cup_kes := c |} Hdc).
    apply elem_of_app. left. by apply elem_of_fixed_present. }
  split; [apply Hfix; by apply (bool_decide_unpack _)|].
  split; [apply Hfix; by apply (bool_decide_unpack _)|].
  split; [apply Hfix; by apply (bool_decide_unpack _)|].
  split.
  { intros k c Hk.
    apply (cup_map_lookup df dc {| cup_id := 4 + k; cup_kes := c |} Hdc).
    apply elem_of_app. right.
    by apply (elem_of_lookup_imap_2
                (λ k c, {| cup_id := 4 + k; cup_kes := c |})). }
  split; [apply elem_of_remaining_cups|].
  split; [apply sorted_strongly|].
  split; [apply NoDup_remaining_cups, NoDup_cups_unique|].
  split; [intros c i; by apply cup_map_lookup_Some|].
  intros df' Hp. by rewrite (dim_cups_perm df' df Hp).
Qed.

Lemma C5_competition_ids_witness :
  let pages :=
    [(2004%N,
      [[tr_cupheader "Intertoto Cup";
        tr_cells [td_plain "Ajax"; td_plain "NED"; td_plain "Porto";
                  td_plain "POR"; td_plain "2-1"; td_plain ""];
        tr_cupheader "UEFA Champions League";
        tr_cells [td_plain "Ajax"; td_plain "NED"; td_plain "Bayern";
                  td_plain "GER"; td_plain "1-1"; td_plain ""];
        tr_cupheader "Cup Winners Cup";
        tr_cells [td_plain "Porto"; td_plain "POR"; td_plain "Bayern";
                  td_plain "GER"; td_plain "0-1"; td_plain ""]]])] in
  ∃ dc,
    dim_cups (U := ascii_unicode) (candidates (U := ascii_unicode) pages)
      = Some dc
    ∧ cup_map_of dc !! py "CHAMPIONS LEAGUE" = Some 1
    ∧ cup_map_of dc !! py "Cup Winners Cup" = Some 4
    ∧ cup_map_of dc !! py "Intertoto Cup" = Some 5.
Proof.
  intros pages.
  destruct (C5_competition_ids (U := ascii_unicode)
              (candidates (U := ascii_unicode) pages))
    as (dc & Hdc & Hcl & _ & _ & Hrem & _); [by vm_compute|].
  exists dc. split; [done|].
  split; [apply Hcl; by apply (bool_decide_unpack _)|].
  split; [by apply (Hrem 0)|by apply (Hrem 1)].
Defined.

(** ** C9: the fact assembler keeps every row *)

(** [main] builds its tables exactly when the data names a competition;
    otherwise sorting the empty competition frame fails. *)
Lemma build_total `{U : PyUnicode} df :
  cups_unique df ≠ [] ↔ is_Some (build df).
Proof.
  unfold build. split.
  - intros Hne. destruct (dim_cups_eq df Hne) as (dc & -> & _). eauto.
  - intros [out Hout] E. unfold dim_cups in Hout.
    by rewrite cup_rows_eq, E in Hout.
Qed.

(** C9: the fact table has one row per row of [df], in the same order, and
    every column of that row is fixed by the row of [df] it stands for.
    The year, the country codes, the score and the goal texts are copied.
    Each of the four id columns is what its own lookup gives: the id when
    the name is found, null when it is not, whatever the other lookups do.
    The two-leg winner is the id found for its name on a leg-1 row and null
    on any other.  The leg number is the number its text writes, null for
    an empty text.  The winner is empty when a goal text is empty; for goal
    texts that write two numbers it is "draw" when they are equal, and else
    the decimal text of the id found for the side with more goals (numbers
    and ids below 2^53, which pandas holds exactly).  [main] either writes
    this table, for the maps built from [df], or fails before on a [df]
    that names no competition. *)
Theorem C9_no_row_dropped `{U : PyUnicode} cup_map stage_map_norm club_map df :
  length (fact_table cup_map stage_map_norm club_map df) = length df
  ∧ (∀ i, df !! i = None →
          fact_table cup_map stage_map_norm club_map df !! i = None)
  ∧ (∀ i r, df !! i = Some r →
       ∃ f, fact_table cup_map stage_map_norm club_map df !! i = Some f
         ∧ f_season_page f = df_season_page r
         ∧ f_home_cc f = df_home_cc r ∧ f_away_cc f = df_away_cc r
         ∧ f_score f = df_score r
         ∧ f_goals_home f = df_goals_home r
         ∧ f_goals_away f = df_goals_away r
         ∧ f_cup_id f = cup_map !! strip (norm_cup_name (df_cup r))
         ∧ f_comp_stage_id f = stage_map_norm !! _norm_key (df_comp_stage r)
         ∧ f_home_club_id f = club_map !! strip (df_home r)
         ∧ f_away_club_id f = club_map !! strip (df_away r)
         ∧ f_two_leg_winner f
           = (if bool_decide (df_leg_no r = py "1")
              then club_map !! strip (df_two_leg_winner r) else None)
         ∧ (∀ n, (n < 2 ^ 53)%N → df_leg_no r = py_str n →
                 f_leg_no f = Some n)
         ∧ (df_leg_no r = [] → f_leg_no f = None)
         ∧ (df_goals_home r = [] ∨ df_goals_away r = [] → f_winner f = [])
         ∧ (∀ a, (a < 2 ^ 53)%N →
                 df_goals_home r = py_str a → df_goals_away r = py_str a →
                 f_winner f = py "draw")
         ∧ (∀ a b k, (b < a < 2 ^ 53)%N →
                 df_goals_home r = py_str a → df_goals_away r = py_str b →
                 club_map !! strip (df_home r) = Some k →
                 (N.of_nat k < 2 ^ 53)%N →
                 f_winner f = py_str (N.of_nat k))
         ∧ (∀ a b k, (a < b < 2 ^ 53)%N →
                 df_goals_home r = py_str a → df_goals_away r = py_str b →
                 club_map !! strip (df_away r) = Some k →
                 (N.of_nat k < 2 ^ 53)%N →
                 f_winner f = py_str (N.of_nat k)))
  ∧ match build df with
    | Some out =>
      cups_unique df ≠ []
      ∧ out_fact out
        = fact_table (cup_map_of (out_dim_cups out))
            (stage_map_norm_of (out_dim_stages out))
            (club_map_of (out_dim_clubs out)) df
      ∧ length (out_fact out) = length df
    | None => cups_unique df = []
    end.
Proof.
  split; [apply length_fmap|].
  split.
  { intros i Hi. unfold fact_table. by rewrite list_lookup_fmap, Hi. }
  split.
  { intros i r Hi. exists (fact_row cup_map stage_map_norm club_map r).
    split; [unfold fact_table; by rewrite list_lookup_fmap, Hi|].
    do 11 (split; [done|]).
    unfold fact_row. cbn [f_leg_no f_winner].
    split; [intros n _ ->; apply to_numeric_py_str|].
    split; [intros ->; apply to_numeric_nil|].
    split.
    { intros [->| ->]; rewrite to_numeric_nil; apply winner_of_missing; auto. }
    split.
    { intros a _ -> ->. rewrite to_numeric_py_str.
      apply winner_of_draw_iff. eauto. }
    split.
    - intros a b k [Hlt _] -> -> -> _. rewrite !to_numeric_py_str.
      by rewrite (proj1 (winner_of_higher a b _ _) Hlt).
    - intros a b k [Hlt _] -> -> -> _. rewrite !to_numeric_py_str.
      by rewrite (proj2 (winner_of_higher a b _ _) Hlt). }
  pose proof (build_total df) as Ht.
  destruct (build df) as [out|] eqn:E.
  - split; [apply Ht; eauto|].
    unfold build in E. destruct (dim_cups df) as [dc|]; [|done].
    injection E as <-. cbn. split; [done|]. apply length_fmap.
  - destruct (decide (cups_unique df = [])) as [?|Hne]; [done|].
    apply Ht in Hne. by destruct Hne.
Qed.

Lemma C9_no_row_dropped_witness :
  let r :=
    csv_row (leg1_row (U := ascii_unicode) 2004 (py "Mitropa Cup") []
               [] [] (py "Ajax") (py "NED") (py "1-2") [] false false) in
  ∃ f, fact_table (U := ascii_unicode) ∅ ∅ {[ py "Ajax" := 1 ]} [r] !! 0
       = Some f
       ∧ f_cup_id f = None ∧ f_home_club_id f = None
       ∧ f_away_club_id f = Some 1 ∧ f_score f = py "1-2"
       ∧ f_leg_no f = Some 1%N ∧ f_winner f = py "1".
Proof.
  intros r.
  destruct (C9_no_row_dropped (U := ascii_unicode) ∅ ∅ {[ py "Ajax" := 1 ]}
              [r])
    as (_ & _ & Hrow & _).
  destruct (Hrow 0 r eq_refl)
    as (f & Hf & _ & _ & _ & Hs & _ & _ & Hc & _ & Hh & Ha & _ & Hleg & _
        & _ & _ & _ & Hw).
  exists f. split; [exact Hf|].
  split; [by rewrite Hc|]. split; [by rewrite Hh|].
  split; [by rewrite Ha|]. split; [exact Hs|].
  split; [apply Hleg; by vm_compute|].
  apply (Hw 1%N 2%N 1); by vm_compute.
Defined.

(** ** C6: stage ids *)

Lemma seq_strongly_sorted a n : StronglySorted (≤) (seq a n).
Proof.
  revert a. induction n as [|n IH]; intros a; simpl; constructor; [done|].
  apply Forall_forall. intros k Hk%elem_of_seq. lia.
Qed.

Lemma omap_lookup_seq {V} (pre L : list V) :
  omap (λ k, (pre ++ L) !! k) (seq (length pre) (length L)) = L.
Proof.
  revert pre. induction L as [|x L IH]; intros pre; [done|].
  simpl. rewrite list_lookup_middle by done. f_equal.
  specialize (IH (pre ++ [x])).
  rewrite <- app_assoc, length_app in IH. simpl in IH.
  by rewrite Nat.add_1_r in IH.
Qed.

(** A dictionary keyed 0, 1, ..., read in key order, is the list of its
    values. *)
Lemma sorted_keys_seq {V} (m : gmap nat V) (L : list V) :
  (∀ k, m !! k = L !! k) → sorted_keys m = seq 0 (length L).
Proof.
  intros Hm. unfold sorted_keys.
  apply (StronglySorted_unique (≤));
    [apply StronglySorted_merge_sort; apply _|apply seq_strongly_sorted|].
  rewrite merge_sort_Permutation.
  apply NoDup_Permutation;
    [apply NoDup_fst_map_to_list|apply NoDup_seq|].
  intros k. rewrite elem_of_seq, list_elem_of_fmap. split.
  - intros ([k' v] & -> & Hin). apply elem_of_map_to_list in Hin.
    rewrite Hm in Hin. apply lookup_lt_Some in Hin. simpl. lia.
  - intros [_ Hk]. destruct (lookup_lt_is_Some_2 L k) as [v Hv]; [lia|].
    exists (k, v). split; [done|]. apply elem_of_map_to_list. by rewrite Hm.
Qed.

Lemma rows_in_key_order {V} (m : gmap nat V) (L : list V) :
  (∀ k, m !! k = L !! k) → omap (λ k, m !! k) (sorted_keys m) = L.
Proof.
  intros Hm. rewrite (sorted_keys_seq m L Hm).
  rewrite <- (omap_lookup_seq [] L) at 2. simpl.
  apply list_omap_ext. apply Forall2_same_length_lookup. split; [done|].
  intros i k k' Hk Hk'. rewrite Hk in Hk'. injection Hk' as <-. apply Hm.
Qed.

Lemma seeded_lookup k : seeded_stage_rows !! k = seeded_stages !! k.
Proof.
  unfold seeded_stage_rows, seeded_stages, PROVIDED_STAGE_MAPPING.
  cbn [foldl mk_stage stage_id].
  do 21 (destruct k as [|k];
         [by rewrite ?lookup_insert_ne by lia;
             first [apply lookup_insert_eq|apply lookup_singleton_eq]|]).
  rewrite !lookup_insert_ne by lia. by rewrite lookup_singleton_ne by lia.
Qed.

Lemma seeded_max_key : max_key seeded_stage_rows = 20.
Proof.
  unfold max_key. apply Nat.le_antisymm.
  - assert (Hin : max_list (map_to_list seeded_stage_rows).*1
                    ∈ (map_to_list seeded_stage_rows).*1).
    { apply max_list_elem_of. intros E.
      assert (H0 : (0, mk_stage 0 "Winner" 0) ∈ map_to_list seeded_stage_rows)
        by (apply elem_of_map_to_list; by rewrite seeded_lookup).
      apply (list_elem_of_fmap_2 fst) in H0. rewrite E in H0.
      by apply elem_of_nil in H0. }
    apply list_elem_of_fmap in Hin as ([k v] & -> & Hin).
    apply elem_of_map_to_list in Hin. rewrite seeded_lookup in Hin.
    apply lookup_lt_Some in Hin. simpl in *. lia.
  - apply max_list_elem_of_le. apply list_elem_of_fmap.
    exists (20, mk_stage 20 "Preliminary Round" 14). split; [done|].
    apply elem_of_map_to_list. by rewrite seeded_lookup.
Qed.

Section StageFacts.
Context `{U : PyUnicode}.

Lemma _norm_key_ascii s :
  is_ascii s → _norm_key s = _norm_key (U := ascii_unicode) s.
Proof. intros Hs. unfold _norm_key. apply lower_ascii. by apply is_ascii_strip. Qed.

(** The normalized names of the seeded rows are those the ASCII tables
    give, and they are pairwise distinct. *)
Lemma seeded_keys_ascii : seeded_keys = seeded_keys (U := ascii_unicode).
Proof.
  unfold seeded_keys. apply list_fmap_ext. intros i d Hd.
  apply _norm_key_ascii.
  assert (Hall : Forall (λ d, is_ascii (comp_stage_kes d)) seeded_stages)
    by (apply (bool_decide_unpack _); by vm_compute).
  rewrite Forall_forall in Hall. apply Hall.
  apply list_elem_of_lookup. eauto.
Qed.

Lemma seeded_keys_NoDup : NoDup seeded_keys.
Proof.
  rewrite seeded_keys_ascii. apply (bool_decide_unpack _). by vm_compute.
Qed.

Lemma seen_norm_seeded x :
  x ∈ (list_to_set ((λ v, _norm_key (comp_stage_kes v))
                      <$> (map_to_list seeded_stage_rows).*2) : gset pystr)
  ↔ x ∈ seeded_keys.
Proof.
  rewrite elem_of_list_to_set. unfold seeded_keys.
  rewrite !list_elem_of_fmap. split.
  - intros (d & -> & Hd). exists d. split; [done|].
    apply list_elem_of_fmap in Hd as ([k d'] & -> & Hin).
    apply elem_of_map_to_list in Hin. rewrite seeded_lookup in Hin.
    apply list_elem_of_lookup. eauto.
  - intros (d & -> & Hd). exists d. split; [done|].
    apply list_elem_of_lookup in Hd as [k Hk].
    apply list_elem_of_fmap. exists (k, d). split; [done|].
    apply elem_of_map_to_list. by rewrite seeded_lookup.
Qed.

(** [fresh_stages] depends on the set of seen keys only. *)
Lemma fresh_stages_ext seen seen' l :
  (∀ x, x ∈ seen ↔ x ∈ seen') → fresh_stages seen l = fresh_stages seen' l.
Proof.
  revert seen seen'. induction l as [|s l IH]; intros seen seen' Heq; [done|].
  simpl. destruct (decide (_norm_key s ∉ seen)) as [Hn|Hn];
    destruct (decide (_norm_key s ∉ seen')) as [Hn'|Hn'].
  - f_equal. apply IH. intros x. rewrite !elem_of_union, Heq. done.
  - exfalso. apply Hn'. intros Hin. apply Hn. by apply Heq.
  - exfalso. apply Hn. intros Hin. apply Hn'. by apply Heq.
  - by apply IH.
Qed.

(** The loop, read as a list: the rows known so far, then one row per
    fresh name, numbered on from [next_stage_id]. *)
Lemma stage_loop_rows l st L :
  (∀ k, dim_stages_rows st !! k = L !! k) →
  next_stage_id st = length L →
  ∀ k, dim_stages_rows (foldl add_stage st l) !! k
       = (L ++ imap (λ j s, {| stage_id := length L + j;
                               comp_stage_kes := s; importance := 0 |})
                 (fresh_stages (seen_norm st) l)) !! k.
Proof.
  revert st L. induction l as [|s l IH]; intros st L Hrows Hnext k.
  { simpl. by rewrite app_nil_r. }
  cbn [foldl fresh_stages]. unfold add_stage at 2. cbv zeta.
  destruct (decide (_norm_key s ∉ seen_norm st)) as [Hn|Hn].
  - rewrite (IH _ (L ++ [{| stage_id := length L; comp_stage_kes := s;
                            importance := 0 |}])).
    + cbn [seen_norm imap]. rewrite <- app_assoc. cbn [app].
      rewrite Nat.add_0_r. do 3 f_equal.
      apply imap_ext. intros j x _. simpl. f_equal.
      rewrite length_app. simpl. lia.
    + intros j. cbn [dim_stages_rows]. rewrite Hnext.
      destruct (decide (j = length L)) as [->|Hj].
      * rewrite lookup_insert_eq. by rewrite list_lookup_middle.
      * rewrite lookup_insert_ne by done. rewrite Hrows.
        destruct (decide (j < length L)).
        -- by rewrite lookup_app_l.
        -- rewrite !(proj2 (lookup_ge_None _ _));
             [done|rewrite length_app; simpl; lia|lia].
    + cbn [next_stage_id]. rewrite length_app. simpl. lia.
  - by apply IH.
Qed.

(** [dim_stages] is the seeded table followed by the appended names with
    the ids 21, 22, ... and importance 0. *)
Lemma dim_stages_eq df :
  dim_stages df
  = seeded_stages
    ++ imap (λ j s, {| stage_id := 21 + j; comp_stage_kes := s;
                       importance := 0 |})
         (appended_stages df).
Proof.
  unfold dim_stages. apply rows_in_key_order. intros k.
  unfold stage_loop. rewrite (stage_loop_rows _ _ seeded_stages).
  - cbn [seen_norm]. unfold appended_stages.
    by rewrite (fresh_stages_ext _ (list_to_set seeded_keys))
      by (intros x; rewrite seen_norm_seeded, elem_of_list_to_set; done).
  - apply seeded_lookup.
  - cbn [next_stage_id]. by rewrite seeded_max_key.
Qed.

(** The fresh names: their keys are new and pairwise distinct, and every
    name of the list has its key seen before or among them. *)
Lemma fresh_stages_keys seen l :
  NoDup (_norm_key <$> fresh_stages seen l)
  ∧ (∀ s, s ∈ fresh_stages seen l → (_norm_key s ∉ seen) ∧ s ∈ l)
  ∧ (∀ s, s ∈ l → _norm_key s ∈ seen
                  ∨ _norm_key s ∈ (_norm_key <$> fresh_stages seen l)).
Proof.
  revert seen. induction l as [|s l IH]; intros seen.
  { split; [constructor|]. split; intros s H; by apply elem_of_nil in H. }
  simpl. destruct (decide (_norm_key s ∉ seen)) as [Hn|Hn].
  - destruct (IH ({[_norm_key s]} ∪ seen)) as (IH1 & IH2 & IH3).
    split; [|split].
    + simpl. constructor; [|done].
      intros (s' & Heq & Hs')%list_elem_of_fmap.
      apply IH2 in Hs' as [Hs' _]. apply Hs'. rewrite Heq.
      apply elem_of_union. left. by apply elem_of_singleton.
    + intros s' [->|Hs']%elem_of_cons; [split; [done|left]|].
      apply IH2 in Hs' as [Hs' Hin]. split; [|by right].
      intros ?. apply Hs'. apply elem_of_union. by right.
    + intros s' [->|Hs']%elem_of_cons.
      * right. simpl. left.
      * destruct (IH3 s' Hs') as [[->%elem_of_singleton|?]%elem_of_union|?].
        -- right. simpl. left.
        -- by left.
        -- right. simpl. by right.
  - destruct (IH seen) as (IH1 & IH2 & IH3). split; [done|]. split.
    + intros s' Hs'. apply IH2 in Hs' as [? ?]. split; [done|by right].
    + intros s' [->|Hs']%elem_of_cons; [|by apply IH3].
      left. by apply dec_stable.
Qed.

(** In a sorted list, the fresh name of a key is the first name with that
    key. *)
Lemma fresh_stages_least seen l s' t :
  StronglySorted str_le l → s' ∈ fresh_stages seen l → t ∈ l →
  _norm_key t = _norm_key s' → str_le s' t.
Proof.
  intros Hl. revert seen. induction Hl as [|s l Hl IH Hs]; intros seen.
  { by intros ? ?%elem_of_nil. }
  cbn [fresh_stages]. intros Hs' Ht Hkey.
  destruct (decide (_norm_key s ∉ seen)) as [Hn|Hn].
  - apply elem_of_cons in Hs' as [->|Hs'].
    + apply elem_of_cons in Ht as [->|Ht].
      * by destruct (total str_le s s).
      * by eapply Forall_forall in Hs.
    + apply elem_of_cons in Ht as [->|Ht]; [|by eapply IH].
      exfalso.
      destruct (fresh_stages_keys ({[_norm_key s]} ∪ seen) l)
        as (_ & Hnew & _).
      apply Hnew in Hs' as [Hs' _]. apply Hs'. rewrite <- Hkey.
      apply elem_of_union. left. by apply elem_of_singleton.
  - apply elem_of_cons in Ht as [->|Ht]; [|by eapply IH].
    exfalso.
    destruct (fresh_stages_keys seen l) as (_ & Hnew & _).
    apply Hnew in Hs' as [Hs' _]. apply Hs'. rewrite <- Hkey.
    by apply dec_stable.
Qed.

(** The fresh names stand in the order of the list. *)
Lemma fresh_stages_sorted seen l :
  StronglySorted str_le l → StronglySorted str_le (fresh_stages seen l).
Proof.
  intros Hl. revert seen. induction Hl as [|s l Hl IH Hs]; intros seen.
  { constructor. }
  cbn [fresh_stages]. destruct (decide (_norm_key s ∉ seen)); [|apply IH].
  constructor; [apply IH|].
  apply Forall_forall. intros t Ht.
  destruct (fresh_stages_keys ({[_norm_key s]} ∪ seen) l) as (_ & Hnew & _).
  apply Hnew in Ht as [_ Ht]. by eapply Forall_forall in Hs.
Qed.

End StageFacts.

Section StageMap.
Context `{U : PyUnicode}.

Lemma seeded_positions i d : seeded_stages !! i = Some d → stage_id d = i.
Proof.
  unfold seeded_stages, PROVIDED_STAGE_MAPPING.
  do 21 (destruct i as [|i]; [by intros [= <-]|]). done.
Qed.

(** The row at place [i] of [dim_stages] has the id [i]. *)
Lemma dim_stages_positions df i row :
  dim_stages df !! i = Some row → stage_id row = i.
Proof.
  rewrite dim_stages_eq. destruct (decide (i < length seeded_stages)) as [Hi|Hi].
  - rewrite lookup_app_l by done. apply seeded_positions.
  - rewrite lookup_app_r by lia. rewrite list_lookup_imap.
    destruct (appended_stages df !! _); [|done]. intros [= <-].
    simpl in *. lia.
Qed.

Lemma dim_stages_keys df :
  (λ r, _norm_key (comp_stage_kes r)) <$> dim_stages df
  = seeded_keys ++ (_norm_key <$> appended_stages df).
Proof.
  rewrite dim_stages_eq, fmap_app. f_equal.
  apply list_eq. intros j.
  rewrite !list_lookup_fmap, list_lookup_imap.
  by destruct (appended_stages df !! j).
Qed.

Lemma dim_stages_keys_NoDup df :
  NoDup ((λ r, _norm_key (comp_stage_kes r)) <$> dim_stages df).
Proof.
  rewrite dim_stages_keys. unfold appended_stages.
  destruct (fresh_stages_keys (list_to_set seeded_keys)
              (sorted (unique_stages df))) as (Hnd & Hnew & _).
  apply NoDup_app. split; [apply seeded_keys_NoDup|]. split; [|done].
  intros x Hx (s & -> & Hs)%list_elem_of_fmap.
  apply Hnew in Hs as [Hs _]. apply Hs. by apply elem_of_list_to_set.
Qed.

(** A row of [dim_stages] is found under its normalized name, and a
    normalized name that is found is that of a row. *)
Lemma stage_map_lookup df row :
  row ∈ dim_stages df →
  stage_map_norm_of (dim_stages df) !! _norm_key (comp_stage_kes row)
  = Some (stage_id row).
Proof.
  intros Hrow. unfold stage_map_norm_of. apply dict_of_lookup_NoDup.
  - rewrite <- list_fmap_compose. apply dim_stages_keys_NoDup.
  - apply list_elem_of_fmap. by exists row.
Qed.

Lemma stage_map_lookup_Some df key i :
  stage_map_norm_of (dim_stages df) !! key = Some i →
  ∃ row, dim_stages df !! i = Some row
         ∧ key = _norm_key (comp_stage_kes row).
Proof.
  unfold stage_map_norm_of.
  intros (row & [= -> ->] & Hrow)%dict_of_lookup_Some%list_elem_of_fmap.
  exists row. split; [|done].
  apply list_elem_of_lookup in Hrow as [j Hj].
  by rewrite <- (dim_stages_positions df j row Hj) in Hj.
Qed.

Lemma seeded_in_dim_stages df i d :
  seeded_stages !! i = Some d → dim_stages df !! i = Some d.
Proof.
  intros Hd. rewrite dim_stages_eq, lookup_app_l; [done|].
  by apply lookup_lt_Some in Hd.
Qed.

Lemma dim_stages_seeded df i row :
  dim_stages df !! i = Some row → i ≤ 20 → seeded_stages !! i = Some row.
Proof.
  rewrite dim_stages_eq. intros Hrow Hi.
  rewrite lookup_app_l in Hrow; [done|]. simpl. lia.
Qed.

Lemma dim_stages_appended df i row :
  dim_stages df !! i = Some row → 21 ≤ i →
  ∃ s, appended_stages df !! (i - 21) = Some s
       ∧ row = {| stage_id := i; comp_stage_kes := s; importance := 0 |}.
Proof.
  rewrite dim_stages_eq. intros Hrow Hi.
  rewrite lookup_app_r in Hrow by (simpl; lia).
  rewrite list_lookup_imap in Hrow. simpl in Hrow.
  destruct (appended_stages df !! (i - 21)) as [s|]; [|done].
  injection Hrow as <-. exists s. split; [done|]. f_equal. lia.
Qed.

(** An appended name is a stage name of the data that no seeded row
    matches. *)
Lemma appended_stages_spec df s :
  s ∈ appended_stages df →
  s ∈ unique_stages df ∧ _norm_key s ∉ seeded_keys.
Proof.
  unfold appended_stages. intros Hs.
  destruct (fresh_stages_keys (list_to_set seeded_keys)
              (sorted (unique_stages df))) as (_ & Hnew & _).
  apply Hnew in Hs as [Hk Hin]. split; [by apply elem_of_sorted|].
  intros ?. apply Hk. by apply elem_of_list_to_set.
Qed.

(** A stage name of the data that no seeded row matches has an appended
    name with its normalized form. *)
Lemma unmatched_stage_appended df s :
  s ∈ unique_stages df → _norm_key s ∉ seeded_keys →
  ∃ j s', appended_stages df !! j = Some s' ∧ _norm_key s' = _norm_key s.
Proof.
  intros Hs Hk. unfold appended_stages.
  destruct (fresh_stages_keys (list_to_set seeded_keys)
              (sorted (unique_stages df))) as (_ & _ & Hall).
  destruct (Hall s) as [Hin|Hin]; [by apply elem_of_sorted| |].
  - by apply elem_of_list_to_set in Hin.
  - apply list_elem_of_fmap in Hin as (s' & Heq & Hs').
    apply list_elem_of_lookup in Hs' as [j Hj]. eauto.
Qed.

Lemma elem_of_seeded_keys x :
  x ∈ seeded_keys
  ↔ ∃ d, d ∈ seeded_stages ∧ x = _norm_key (comp_stage_kes d).
Proof.
  unfold seeded_keys. rewrite list_elem_of_fmap.
  split; intros (d & ? & ?); eauto.
Qed.

End StageMap.

(** C6, amended: a stage name resolves through its stripped, lower-cased
    form ([strip] and [lower]: white space inside the name is kept), and by
    equality of these forms only.  It resolves to the id of a seeded row
    (the twenty provided rows and "Winner") exactly when its normalized
    form is that of a seeded row, and then to the id of that row; "quarter
    finals" resolves to 3, the row of importance 3; a name that merely
    contains or is contained in a seeded name resolves to no seeded id.
    The stage names of the data that no seeded row matches get one appended
    row for each normalized form, not one for each name: such a name
    resolves to a row appended behind the seeded ones, with the next id
    from 21 on in [sorted] order and importance 0, whose name is the first
    in [sorted] order of the names of the data with its normalized form
    (the name itself when no other name of the data shares that form); the
    appended rows have pairwise distinct normalized names, stand in
    [sorted] order of their names, and are all the rows behind the seeded
    ones.  Each row of the dimension sits at the place of its id. *)
Theorem C6_stage_resolution `{U : PyUnicode} df :
  let m := stage_map_norm_of (dim_stages df) in
  (∀ x, (∃ d, d ∈ seeded_stages ∧ m !! _norm_key x = Some (stage_id d))
        ↔ (∃ d, d ∈ seeded_stages
                ∧ _norm_key x = _norm_key (comp_stage_kes d)))
  ∧ (∀ x d, d ∈ seeded_stages →
            _norm_key x = _norm_key (comp_stage_kes d) →
            m !! _norm_key x = Some (stage_id d))
  ∧ m !! _norm_key (py "quarter finals") = Some 3
  ∧ dim_stages df !! 3 = Some (mk_stage 3 "Quarter Finals" 3)
  ∧ (∀ i, m !! _norm_key (py "Quarter") = Some i → 21 ≤ i)
  ∧ (∀ i, m !! _norm_key (py "Final Round") = Some i → 21 ≤ i)
  ∧ (∀ s, s ∈ unique_stages df →
          (∀ d, d ∈ seeded_stages →
                _norm_key s ≠ _norm_key (comp_stage_kes d)) →
          ∃ j s', appended_stages df !! j = Some s'
                  ∧ s' ∈ unique_stages df
                  ∧ _norm_key s' = _norm_key s
                  ∧ dim_stages df !! (21 + j)
                    = Some {| stage_id := 21 + j; comp_stage_kes := s';
                              importance := 0 |}
                  ∧ m !! _norm_key s = Some (21 + j)
                  ∧ ((∀ t, t ∈ unique_stages df →
                           _norm_key t = _norm_key s → t = s) →
                     s' = s)
                  ∧ (∀ t, t ∈ unique_stages df →
                          _norm_key t = _norm_key s → str_le s' t))
  ∧ NoDup (_norm_key <$> appended_stages df)
  ∧ StronglySorted str_le (appended_stages df)
  ∧ length (dim_stages df) = 21 + length (appended_stages df)
  ∧ (∀ i row, dim_stages df !! i = Some row → stage_id row = i)
  ∧ (∀ i row, dim_stages df !! i = Some row →
              (i ≤ 20 ∧ seeded_stages !! i = Some row)
              ∨ (21 ≤ i ∧ importance row = 0
                 ∧ comp_stage_kes row ∈ unique_stages df
                 ∧ ∀ d, d ∈ seeded_stages →
                        _norm_key (comp_stage_kes row)
                        ≠ _norm_key (comp_stage_kes d))).
Proof.
  intros m.
  assert (Hseed : ∀ x d, d ∈ seeded_stages →
            _norm_key x = _norm_key (comp_stage_kes d) →
            m !! _norm_key x = Some (stage_id d)).
  { intros x d Hd ->. apply stage_map_lookup.
    apply list_elem_of_lookup in Hd as [i Hi].
    apply list_elem_of_lookup. exists i. by apply seeded_in_dim_stages. }
  assert (Hback : ∀ key i, m !! key = Some i → i ≤ 20 →
            ∃ d, seeded_stages !! i = Some d
                 ∧ key = _norm_key (comp_stage_kes d)).
  { intros key i Hm Hi.
    apply stage_map_lookup_Some in Hm as (row & Hrow & ->).
    exists row. split; [|done]. by apply dim_stages_seeded in Hrow. }
  assert (Hnot : ∀ key i, key ∉ seeded_keys → m !! key = Some i → 21 ≤ i).
  { intros key i Hk Hm. destruct (decide (i ≤ 20)) as [Hi|Hi]; [|lia].
    destruct (Hback key i Hm Hi) as (d & Hd & ->). exfalso. apply Hk.
    apply elem_of_seeded_keys. exists d. split; [|done].
    apply list_elem_of_lookup. eauto. }
  split.
  { intros x. split.
    - intros (d & Hd & Hm).
      apply list_elem_of_lookup in Hd as [i Hi].
      pose proof (seeded_positions i d Hi) as Hid. rewrite Hid in Hm.
      destruct (Hback _ i Hm) as (d' & Hd' & Hkey).
      { apply lookup_lt_Some in Hi. simpl in Hi. lia. }
      exists d'. split; [|done]. apply list_elem_of_lookup. eauto.
    - intros (d & Hd & Hkey). exists d. split; [done|]. by apply Hseed. }
  split; [exact Hseed|].
  split.
  { apply (Hseed (py "quarter finals") (mk_stage 3 "Quarter Finals" 3)).
    - apply list_elem_of_lookup. by exists 3.
    - rewrite (_norm_key_ascii (py "quarter finals")) by ascii_lit.
      rewrite (_norm_key_ascii (comp_stage_kes _)) by ascii_lit.
      by vm_compute. }
  split; [by apply seeded_in_dim_stages|].
  split.
  { intros i. apply Hnot.
    rewrite seeded_keys_ascii, _norm_key_ascii by ascii_lit.
    apply (bool_decide_unpack _). by vm_compute. }
  split.
  { intros i. apply Hnot.
    rewrite seeded_keys_ascii, _norm_key_ascii by ascii_lit.
    apply (bool_decide_unpack _). by vm_compute. }
  split.
  { intros s Hs Hun.
    destruct (unmatched_stage_appended df s Hs) as (j & s' & Hj & Hkey).
    { intros (d & Hd & Heq)%elem_of_seeded_keys. by apply (Hun d). }
    assert (Hrow : dim_stages df !! (21 + j)
                   = Some {| stage_id := 21 + j; comp_stage_kes := s';
                             importance := 0 |}).
    { rewrite dim_stages_eq, lookup_app_r by (simpl; lia).
      rewrite list_lookup_imap.
      replace (21 + j - length seeded_stages) with j by (simpl; lia).
      by rewrite Hj. }
    exists j, s'. split; [done|].
    split.
    { apply (appended_stages_spec df s').
      apply list_elem_of_lookup. eauto. }
    split; [done|]. split; [done|].
    split.
    { rewrite <- Hkey.
      apply (stage_map_lookup df {| stage_id := 21 + j; comp_stage_kes := s';
                                    importance := 0 |}).
      apply list_elem_of_lookup. eauto. }
    split.
    { intros Honly. apply Honly; [|done].
      apply (appended_stages_spec df s').
      apply list_elem_of_lookup. eauto. }
    intros t Ht Hkt.
    apply (fresh_stages_least (list_to_set seeded_keys)
             (sorted (unique_stages df))).
    - apply sorted_strongly.
    - apply list_elem_of_lookup. eauto.
    - by apply elem_of_sorted.
    - by rewrite Hkt. }
  split.
  { unfold appended_stages.
    by destruct (fresh_stages_keys (list_to_set seeded_keys)
                   (sorted (unique_stages df))) as (Hnd & _ & _). }
  split; [apply fresh_stages_sorted, sorted_strongly|].
  split.
  { rewrite dim_stages_eq, length_app, length_imap. done. }
  split; [apply dim_stages_positions|].
  intros i row Hrow. destruct (decide (i ≤ 20)) as [Hi|Hi].
  - left. split; [done|]. by apply dim_stages_seeded in Hrow.
  - right. split; [lia|].
    apply dim_stages_appended in Hrow as (s & Hs & ->); [|lia].
    assert (Hin : s ∈ appended_stages df)
      by (apply list_elem_of_lookup; eauto).
    apply appended_stages_spec in Hin as [Hin Hk].
    split; [done|]. split; [done|].
    intros d Hd Heq. apply Hk. apply elem_of_seeded_keys. eauto.
Qed.

Lemma C6_stage_resolution_witness :
  let pages :=
    [(2004%N,
      [[tr_cupheader "UEFA Cup";
        tr_roundheader " QUARTER FINALS";
        tr_cells [td_plain "Ajax"; td_plain "NED"; td_plain "Porto";
                  td_plain "POR"; td_plain "2-1"; td_plain ""];
        tr_roundheader "Play-off";
        tr_cells [td_plain "Ajax"; td_plain "NED"; td_plain "Bayern";
                  td_plain "GER"; td_plain "1-1"; td_plain ""]]])] in
  let df := candidates (U := ascii_unicode) pages in
  let m := stage_map_norm_of (U := ascii_unicode)
             (dim_stages (U := ascii_unicode) df) in
  m !! _norm_key (U := ascii_unicode) (py " QUARTER FINALS") = Some 3
  ∧ m !! _norm_key (U := ascii_unicode) (py "Play-off") = Some 21.
Proof.
  intros pages df m.
  destruct (C6_stage_resolution (U := ascii_unicode) df)
    as (_ & Hseed & _ & _ & _ & _ & Hnew & _).
  split.
  - apply (Hseed (py " QUARTER FINALS") (mk_stage 3 "Quarter Finals" 3)).
    + apply list_elem_of_lookup. by exists 3.
    + by vm_compute.
  - destruct (Hnew (py "Play-off")) as (j & s' & Hj & _ & _ & _ & Hm & _).
    + apply (bool_decide_unpack _). by vm_compute.
    + intros d Hd. revert d Hd. apply Forall_forall.
      apply (bool_decide_unpack _). by vm_compute.
    + fold m in Hm. rewrite Hm. f_equal.
      assert (Hj' : appended_stages (U := ascii_unicode) df
                    = [py "Play-off"]) by (by vm_compute).
      rewrite Hj' in Hj.
      apply list_lookup_singleton_Some in Hj as [-> _]. reflexivity.
Defined.

(** C6 as it is worded fails on its last part.  A page with the round
    headers "play-off", "Play-Off", "Quarter  Finals" (two spaces) and
    "Quarter Finals" gives three distinct stage names that no seeded row
    matches, and two appended rows: "play-off" is the name of no row of the
    dimension and resolves to 21, the id of the row "Play-Off"; and
    "Quarter  Finals" is not matched with the seeded "Quarter Finals" but
    appended with id 22. *)
Lemma C6_unmatched_names_share_row :
  let pages :=
    [(2004%N,
      [[tr_cupheader "UEFA Cup";
        tr_roundheader "play-off";
        tr_cells [td_plain "Ajax"; td_plain "NED"; td_plain "Porto";
                  td_plain "POR"; td_plain "2-1"; td_plain ""];
        tr_roundheader "Play-Off";
        tr_cells [td_plain "Ajax"; td_plain "NED"; td_plain "Bayern";
                  td_plain "GER"; td_plain "1-1"; td_plain ""];
        tr_roundheader "Quarter  Finals";
        tr_cells [td_plain "Porto"; td_plain "POR"; td_plain "Bayern";
                  td_plain "GER"; td_plain "0-1"; td_plain ""];
        tr_roundheader "Quarter Finals";
        tr_cells [td_plain "Bayern"; td_plain "GER"; td_plain "Ajax";
                  td_plain "NED"; td_plain "3-0"; td_plain ""]]])] in
  let df := candidates (U := ascii_unicode) pages in
  ∃ out,
    build (U := ascii_unicode) df = Some out
    ∧ unique_stages df
      = [py "play-off"; py "Play-Off"; py "Quarter  Finals";
         py "Quarter Finals"]
    ∧ Forall (λ s, Forall (λ d, _norm_key (U := ascii_unicode) s
                                ≠ _norm_key (U := ascii_unicode)
                                    (comp_stage_kes d)) seeded_stages)
        [py "play-off"; py "Play-Off"; py "Quarter  Finals"]
    ∧ appended_stages (U := ascii_unicode) df
      = [py "Play-Off"; py "Quarter  Finals"]
    ∧ drop 21 (out_dim_stages out)
      = [ {| stage_id := 21; comp_stage_kes := py "Play-Off";
             importance := 0 |};
          {| stage_id := 22; comp_stage_kes := py "Quarter  Finals";
             importance := 0 |} ]
    ∧ (py "play-off" ∉ comp_stage_kes <$> out_dim_stages out)
    ∧ f_comp_stage_id <$> out_fact out = [Some 21; Some 21; Some 22; Some 3].
Proof.
  intros pages df. eexists. split; [by vm_compute|].
  split; [by vm_compute|].
  split; [apply (bool_decide_unpack _); by vm_compute|].
  split; [by vm_compute|].
  split; [by vm_compute|].
  split; [apply (bool_decide_unpack _); by vm_compute|].
  by vm_compute.
Qed.

(** * Further properties of the program *)

(** ** Scores that are printed and read back *)

Lemma dropwhile_app_all p ws rest :
  forallb p ws = true → dropwhile p (ws ++ rest) = dropwhile p rest.
Proof.
  induction ws as [|c ws IH]; simpl; [done|].
  intros [-> H]%andb_true_iff. by apply IH.
Qed.

Lemma rstrip_app_space s ws :
  forallb isspace ws = true → rstrip (s ++ ws) = rstrip s.
Proof.
  intros Hws. unfold rstrip. rewrite reverse_app.
  rewrite dropwhile_app_all; [done|].
  rewrite forallb_forall in Hws |- *. intros c Hc. apply Hws.
  apply list_elem_of_In. apply list_elem_of_In in Hc.
  by apply elem_of_reverse.
Qed.

Lemma rstrip_snoc_false s c : isspace c = false → rstrip (s ++ [c]) = s ++ [c].
Proof.
  intros Hc. unfold rstrip. rewrite reverse_snoc.
  rewrite dropwhile_head_false by done.
  by rewrite <- reverse_snoc, reverse_involutive.
Qed.

(** Text that starts and ends with a character that is not white space is
    what [strip] leaves of it, whatever white space stands around it. *)
Lemma strip_padded ws1 c mid d ws2 :
  forallb isspace ws1 = true → forallb isspace ws2 = true →
  isspace c = false → isspace d = false →
  strip (ws1 ++ (c :: mid ++ [d]) ++ ws2) = c :: mid ++ [d].
Proof.
  intros H1 H2 Hc Hd. unfold strip, lstrip.
  rewrite dropwhile_app_all by done.
  change ((c :: mid ++ [d]) ++ ws2) with (c :: (mid ++ [d]) ++ ws2).
  rewrite dropwhile_head_false by done.
  change (c :: (mid ++ [d]) ++ ws2) with (((c :: mid) ++ [d]) ++ ws2).
  rewrite rstrip_app_space by done.
  by apply rstrip_snoc_false.
Qed.

(** [str(n)] is a non-empty run of the ASCII digits. *)
Lemma py_str_digit_codes n : Forall is_digit_code (py_str n).
Proof.
  assert (Hall : all_digits (py_str n) = true).
  { unfold py_str, pretty, pretty_N. case_decide; [done|].
    apply pretty_N_go_value. }
  unfold all_digits in Hall. rewrite forallb_forall in Hall.
  apply Forall_forall. intros c Hc%list_elem_of_In. apply Hall in Hc.
  apply bool_decide_eq_true in Hc as [d Hd]. unfold ascii_decimal in Hd.
  destruct (_ && _) eqn:E; [|done].
  apply andb_true_iff in E as [E1%N.leb_le E2%N.leb_le]. by split.
Qed.

Lemma digits_value_py_str n : digits_value (py_str n) = n.
Proof.
  pose proof (to_numeric_py_str n) as H. unfold to_numeric in H.
  destruct (_ && _); by simplify_eq.
Qed.

Lemma is_digit_code_not_space c : is_digit_code c → isspace c = false.
Proof.
  intros [H1 H2]. unfold isspace.
  repeat (apply orb_false_intro);
    rewrite ?andb_false_iff, ?N.leb_gt, ?N.eqb_neq; lia.
Qed.

Lemma digit_codes_ascii g : Forall is_digit_code g → is_ascii g.
Proof.
  unfold is_ascii. intros Hg. eapply Forall_impl; [exact Hg|].
  intros c [_ H]. simpl. lia.
Qed.

Section PrintedScores.
Context `{U : PyUnicode}.

Lemma decimal_digit_code c : is_digit_code c → is_Some (decimal c).
Proof.
  intros [H1 H2]. rewrite decimal_ascii by lia. unfold ascii_decimal.
  rewrite (proj2 (N.leb_le 48 c)), (proj2 (N.leb_le c 57)) by lia. eauto.
Qed.

Lemma decimal_space c : isspace c = true → decimal c = None.
Proof.
  intros Hc. destruct (decimal c) as [d|] eqn:E; [|done].
  apply decimal_not_space in E. congruence.
Qed.

Lemma decimal_dash c : is_dash c = true → decimal c = None.
Proof.
  unfold is_dash.
  intros [->%N.eqb_eq| ->%N.eqb_eq]%orb_true_iff;
    [by rewrite decimal_ascii|apply decimal_not_dash].
Qed.

(** A run of digits followed by something that is no digit is split off
    whole. *)
Lemma span_digits_run g rest :
  Forall is_digit_code g →
  match rest with [] => True | c :: _ => decimal c = None end →
  span_digits (g ++ rest) = (g, rest).
Proof.
  intros Hg Hrest. induction Hg as [|c g Hc Hg IH]; simpl.
  - destruct rest as [|c rest]; [done|]. simpl. by rewrite Hrest.
  - destruct (decimal_digit_code c Hc) as [d ->]. by rewrite IH.
Qed.

Lemma py_int_py_str n : py_int (py_str n) = n.
Proof.
  rewrite py_int_ascii
    by apply digit_codes_ascii, py_str_digit_codes.
  apply digits_value_py_str.
Qed.

Lemma py_str_cons n : ∃ c g, py_str n = c :: g ∧ is_digit_code c.
Proof.
  pose proof (py_str_truthy n) as Ht. pose proof (py_str_digit_codes n) as Hd.
  destruct (py_str n) as [|c g]; [done|].
  apply Forall_cons in Hd as [Hc _]. eauto.
Qed.

Lemma py_str_snoc n : ∃ g d, py_str n = g ++ [d] ∧ is_digit_code d.
Proof.
  pose proof (py_str_truthy n) as Ht. pose proof (py_str_digit_codes n) as Hd.
  destruct (py_str n) as [|d g _] using rev_ind; [done|].
  apply Forall_app in Hd as [_ [Hd _]%Forall_cons]. eauto.
Qed.

(** The head of white space followed by a dash, or of white space followed
    by digits, is no digit or no white space as needed below. *)
Lemma head_not_digit ws c rest :
  forallb isspace ws = true → decimal c = None →
  match ws ++ c :: rest with [] => True | x :: _ => decimal x = None end.
Proof.
  destruct ws as [|w ws]; simpl; [done|].
  intros [Hw _]%andb_true_iff _. by apply decimal_space.
Qed.

(** The pattern of [parse_score] on a score as it is printed: two numbers
    in decimal with a hyphen or an en dash between them, and any white space
    before, after and around the dash. *)
Lemma score_match_printed a b ws2 d ws3 :
  forallb isspace ws2 = true → forallb isspace ws3 = true →
  is_dash d = true →
  score_match (py_str a ++ ws2 ++ [d] ++ ws3 ++ py_str b)
  = Some (py_str a, py_str b).
Proof.
  intros H2 H3 Hd. unfold score_match.
  destruct (py_str_cons a) as (ca & ga & Ea & Hca).
  destruct (py_str_cons b) as (cb & gb & Eb & Hcb).
  assert (Hhead : dropwhile isspace (py_str a ++ ws2 ++ [d] ++ ws3 ++ py_str b)
                  = py_str a ++ ws2 ++ [d] ++ ws3 ++ py_str b).
  { rewrite Ea. cbn [app]. apply dropwhile_head_false.
    by apply is_digit_code_not_space. }
  rewrite Hhead.
  rewrite span_digits_run;
    [|apply py_str_digit_codes
     |apply head_not_digit; [done|by apply decimal_dash]].
  rewrite py_str_truthy. cbn [negb].
  rewrite dropwhile_app_all by done. cbn [app dropwhile].
  assert (Hds : isspace d = false).
  { unfold is_dash in Hd.
    by apply orb_true_iff in Hd as [->%N.eqb_eq| ->%N.eqb_eq]. }
  rewrite Hds, Hd. cbn [negb].
  rewrite dropwhile_app_all by done.
  assert (Hb : dropwhile isspace (py_str b) = py_str b).
  { rewrite Eb. apply dropwhile_head_false.
    by apply is_digit_code_not_space. }
  rewrite Hb. rewrite <- (app_nil_r (py_str b)) at 1.
  rewrite span_digits_run; [|apply py_str_digit_codes|done].
  by rewrite py_str_truthy.
Qed.

(** The core of a printed score loses nothing to [strip], and the white
    space around it is what [strip] takes away. *)
Lemma strip_printed_score a b ws1 ws2 (d : N) ws3 ws4 :
  forallb isspace ws1 = true → forallb isspace ws4 = true →
  strip (ws1 ++ (py_str a ++ ws2 ++ [d] ++ ws3 ++ py_str b) ++ ws4)
  = py_str a ++ ws2 ++ [d] ++ ws3 ++ py_str b.
Proof.
  intros H1 H4.
  destruct (py_str_cons a) as (ca & ga & Ea & Hca).
  destruct (py_str_snoc b) as (gb & cb & Eb & Hcb).
  assert (Hcore : py_str a ++ ws2 ++ [d] ++ ws3 ++ py_str b
                  = ca :: (ga ++ ws2 ++ [d] ++ ws3 ++ gb) ++ [cb]).
  { rewrite Ea, Eb. cbn [app]. f_equal.
    rewrite <- !app_assoc. cbn [app]. by rewrite <- !app_assoc. }
  rewrite Hcore. apply strip_padded; try done;
    by apply is_digit_code_not_space.
Qed.

Lemma parse_score_stripped s a b ws2 d ws3 :
  forallb isspace ws2 = true → forallb isspace ws3 = true →
  is_dash d = true →
  strip s = py_str a ++ ws2 ++ [d] ++ ws3 ++ py_str b →
  parse_score s = Some (a, b).
Proof.
  intros H2 H3 Hd Hs. unfold parse_score.
  rewrite Hs, score_match_printed by done.
  rewrite !py_int_py_str.
  destruct s; [|done]. exfalso.
  destruct (py_str_cons a) as (ca & ga & Ea & _).
  rewrite Ea in Hs. by vm_compute in Hs.
Qed.

(** The score text that the walker rebuilds for a second leg reads back as
    the two numbers it was made of. *)
Lemma parse_score_rebuilt a b :
  parse_score (py_str a ++ py "-" ++ py_str b) = Some (a, b).
Proof.
  apply (parse_score_stripped _ a b [] 45%N []); try done.
  pose proof (strip_printed_score a b [] [] 45%N [] []) as H.
  rewrite app_nil_r in H. by apply H.
Qed.

End PrintedScores.

(** X1: [parse_score] reads back every printed score: for all numbers [a]
    and [b] of no more than 4300 digits, which is as long a decimal text as
    [int] takes, the text of [a], a hyphen or an en dash, and the text of
    [b], with any white space before, after and on both sides of the dash,
    parses to the pair [(a, b)]. *)
Theorem parse_score_printed `{U : PyUnicode} a b ws1 ws2 d ws3 ws4 :
  length (py_str a) ≤ 4300 → length (py_str b) ≤ 4300 →
  forallb isspace ws1 = true → forallb isspace ws2 = true →
  forallb isspace ws3 = true → forallb isspace ws4 = true →
  is_dash d = true →
  parse_score (ws1 ++ (py_str a ++ ws2 ++ [d] ++ ws3 ++ py_str b) ++ ws4)
  = Some (a, b).
Proof.
  intros _ _ H1 H2 H3 H4 Hd.
  apply (parse_score_stripped _ a b ws2 d ws3); try done.
  by apply strip_printed_score.
Qed.

Lemma parse_score_printed_witness :
  parse_score (U := ascii_unicode)
    (py " " ++ (py_str 12 ++ py " " ++ [8211%N] ++ [] ++ py_str 3) ++ py " ")
  = Some (12%N, 3%N).
Proof.
  apply (parse_score_printed (U := ascii_unicode) 12 3 (py " ") (py " ")
           8211%N [] (py " "));
    try reflexivity; apply (bool_decide_unpack _); by vm_compute.
Defined.

(** ** Candidate rows of a page *)

Section CandidateRows.
Context `{U : PyUnicode}.

(** A row that a table row emits is its leg-1 row or its leg-2 row, each
    under its guard. *)
Lemma tr_rows_cases y c st tr r :
  r ∈ tr_rows y c st tr →
  let tds := tr_tds tr in
  is_header tr = false ∧ 4 ≤ length tds
  ∧ ((r = leg1_row y c st (cell_or_empty tds 0) (cell_or_empty tds 1)
            (cell_or_empty tds 2) (cell_or_empty tds 3)
            (cell_or_empty tds 4) (cell_or_empty tds 5)
            (bold_at tds 0) (bold_at tds 2)
      ∧ truthy (cell_or_empty tds 0) || truthy (cell_or_empty tds 2) = true)
     ∨ (r = leg2_row y c st (cell_or_empty tds 0) (cell_or_empty tds 1)
              (cell_or_empty tds 2) (cell_or_empty tds 3)
              (cell_or_empty tds 5)
        ∧ truthy (cell_or_empty tds 5) = true)).
Proof.
  intros Hin tds.
  destruct (is_header tr) eqn:Hh.
  { rewrite tr_rows_header in Hin by done. by apply elem_of_nil in Hin. }
  destruct (decide (length (tr_tds tr) < 4)) as [Hs|Hs].
  { rewrite tr_rows_short in Hin by done. by apply elem_of_nil in Hin. }
  split; [done|]. split; [unfold tds; lia|].
  rewrite tr_rows_data in Hin by (done || lia).
  rewrite emit_legs_nil in Hin. fold tds in Hin.
  apply elem_of_app in Hin as [Hin|Hin].
  - destruct (_ || _) eqn:E; [|by apply elem_of_nil in Hin].
    apply list_elem_of_singleton in Hin. by left.
  - destruct (truthy (cell_or_empty tds 5)) eqn:E;
      [|by apply elem_of_nil in Hin].
    apply list_elem_of_singleton in Hin. by right.
Qed.

(** Every row of a page comes from a table row of the page. *)
Lemma year_rows_from_rows tables y r :
  r ∈ year_rows tables y →
  ∃ table tr c st, table ∈ tables ∧ tr ∈ table ∧ r ∈ tr_rows y c st tr.
Proof.
  intros Hr.
  destruct (page_rows_chunks tables y) as (chunks & Hrows & Hch).
  rewrite Hrows in Hr.
  apply elem_of_concat_split in Hr as (chs1 & ch & chs2 & -> & Hr).
  apply Forall_app in Hch as [_ Hch]. apply Forall_cons in Hch as [Hch _].
  destruct Hch as (table & Htable & tr & c & st & Htr & ->).
  by exists table, tr, c, st.
Qed.

Lemma leg2_row_goals y c st t1 c1 t2 c2 l2 :
  let r := leg2_row y c st t1 c1 t2 c2 l2 in
  goals_home r = goal_str_0 (parse_score (score r))
  ∧ goals_away r = goal_str_1 (parse_score (score r)).
Proof.
  intros r. unfold r. rewrite leg2_row_score.
  unfold leg2_row. cbn [goals_home goals_away].
  destruct (parse_score l2) as [[a b]|] eqn:E.
  - by rewrite parse_score_rebuilt.
  - by rewrite E.
Qed.

Lemma leg2_row_score_truthy y c st t1 c1 t2 c2 l2 :
  truthy l2 = true → truthy (score (leg2_row y c st t1 c1 t2 c2 l2)) = true.
Proof.
  intros Hl. rewrite leg2_row_score.
  destruct (parse_score l2) as [[a b]|]; [|done].
  destruct (py_str_cons b) as (cb & gb & -> & _). done.
Qed.

End CandidateRows.

(** X2: every candidate row of a page carries the year of the page, is a
    leg 1 or a leg 2, has the winner left empty, and has goal columns that
    agree with its score column: they are the decimal texts of the two
    numbers [parse_score] reads from the row's own score, home first, and
    both are empty when the score does not parse.  A leg-1 row names a team,
    a leg-2 row has a score text and no two-leg winner, and a two-leg winner
    is always the row's home or away team. *)
Theorem candidate_row_invariants `{U : PyUnicode} tables y r :
  r ∈ year_rows tables y →
  season_page r = y
  ∧ (leg_no r = 1%N ∨ leg_no r = 2%N)
  ∧ winner r = []
  ∧ goals_home r = goal_str_0 (parse_score (score r))
  ∧ goals_away r = goal_str_1 (parse_score (score r))
  ∧ (leg_no r = 1%N → truthy (home r) || truthy (away r) = true)
  ∧ (leg_no r = 2%N → two_leg_winner r = [] ∧ truthy (score r) = true)
  ∧ (two_leg_winner r = [] ∨ two_leg_winner r = home r
     ∨ two_leg_winner r = away r).
Proof.
  intros (table & tr & c & st & _ & _ & Hr)%year_rows_from_rows.
  apply tr_rows_cases in Hr as (_ & _ & [[-> Ht]|[-> Hl]]).
  - cbn [leg1_row season_page leg_no winner goals_home goals_away score
         home away two_leg_winner].
    split; [done|]. split; [by left|]. split; [done|].
    split; [done|]. split; [done|]. split; [done|]. split; [done|].
    destruct (truthy (cell_or_empty (tr_tds tr) 5)); [|by left].
    unfold two_leg_winner_name.
    destruct (_ && _); [by right; left|].
    destruct (_ && _); [by right; right|by left].
  - pose proof (leg2_row_goals y c st
                  (cell_or_empty (tr_tds tr) 0) (cell_or_empty (tr_tds tr) 1)
                  (cell_or_empty (tr_tds tr) 2) (cell_or_empty (tr_tds tr) 3)
                  (cell_or_empty (tr_tds tr) 5)) as [Hgh Hga].
    split; [done|]. split; [by right|]. split; [done|].
    split; [exact Hgh|]. split; [exact Hga|].
    split; [done|]. split; [|by left].
    intros _. split; [done|]. by apply leg2_row_score_truthy.
Qed.

Lemma candidate_row_invariants_witness :
  let tables :=
    [[tr_cupheader "UEFA Cup";
      tr_cells [td_plain "Ajax"; td_plain "NED"; td_plain "Bayern";
                td_plain "GER"; td_plain "2-1"; td_plain "0 - 3"]]] in
  ∃ r, year_rows (U := ascii_unicode) tables 2004 !! 1 = Some r
       ∧ score r = py "3-0"
       ∧ goals_home r = goal_str_0 (parse_score (U := ascii_unicode) (score r))
       ∧ goals_away r = goal_str_1 (parse_score (U := ascii_unicode) (score r)).
Proof.
  intros tables.
  pose (r := leg2_row (U := ascii_unicode) 2004 (py "UEFA Cup") []
               (py "Ajax") (py "NED") (py "Bayern") (py "GER") (py "0 - 3")).
  assert (Hr : year_rows (U := ascii_unicode) tables 2004 !! 1 = Some r)
    by reflexivity.
  exists r. split; [exact Hr|]. split; [reflexivity|].
  apply list_elem_of_lookup_2 in Hr.
  destruct (candidate_row_invariants (U := ascii_unicode) tables 2004 r Hr)
    as (_ & _ & _ & Hgh & Hga & _).
  by split.
Defined.

(** X3: a data row with four or five cells, which the fall-back branch
    takes, yields at most one row: when a team name is there, the leg-1 row
    with the fifth cell (if any) as score, and never a leg-2 row nor a
    two-leg winner, whatever is set in bold; the code of that branch for the
    second leg never runs. *)
Theorem fallback_row_one_leg `{U : PyUnicode} y c st tr :
  is_header tr = false →
  4 ≤ length (tr_tds tr) ≤ 5 →
  let tds := tr_tds tr in
  tr_rows y c st tr
  = (if truthy (cell_or_empty tds 0) || truthy (cell_or_empty tds 2)
     then [leg1_row y c st (cell_or_empty tds 0) (cell_or_empty tds 1)
             (cell_or_empty tds 2) (cell_or_empty tds 3)
             (cell_or_empty tds 4) [] false false]
     else [])
  ∧ (∀ r, r ∈ tr_rows y c st tr →
          leg_no r = 1%N ∧ two_leg_winner r = []
          ∧ (length tds = 4 →
             score r = [] ∧ goals_home r = [] ∧ goals_away r = [])).
Proof.
  intros Hh Hlen tds.
  assert (H5 : cell_or_empty tds 5 = []).
  { unfold cell_or_empty. rewrite lookup_ge_None_2; [done|unfold tds; lia]. }
  assert (Heq : tr_rows y c st tr
    = (if truthy (cell_or_empty tds 0) || truthy (cell_or_empty tds 2)
       then [leg1_row y c st (cell_or_empty tds 0) (cell_or_empty tds 1)
               (cell_or_empty tds 2) (cell_or_empty tds 3)
               (cell_or_empty tds 4) [] false false]
       else [])).
  { rewrite tr_rows_data by (done || lia). rewrite emit_legs_nil.
    fold tds. rewrite H5. cbn [truthy]. rewrite app_nil_r.
    by destruct (_ || _). }
  split; [exact Heq|].
  intros r Hr. rewrite Heq in Hr.
  destruct (_ || _); [|by apply elem_of_nil in Hr].
  apply list_elem_of_singleton in Hr as ->.
  split; [done|]. split; [done|].
  intros H4.
  assert (H4' : cell_or_empty tds 4 = []).
  { unfold cell_or_empty. rewrite lookup_ge_None_2; [done|lia]. }
  cbn [leg1_row score goals_home goals_away]. by rewrite H4'.
Qed.

Lemma fallback_row_one_leg_witness :
  let tr := tr_cells [td_marked "Ajax"; td_plain "NED"; td_plain "Bayern";
                      td_plain "GER"; td_plain "2-1"] in
  ∃ r, tr_rows (U := ascii_unicode) 2001 (py "UEFA Cup") [] tr = [r]
       ∧ leg_no r = 1%N ∧ two_leg_winner r = [] ∧ score r = py "2-1".
Proof.
  intros tr.
  destruct (fallback_row_one_leg (U := ascii_unicode) 2001 (py "UEFA Cup") []
              tr eq_refl) as [Heq _]; [simpl; lia|].
  eexists. split; [exact Heq|]. by vm_compute.
Defined.

(** ** The dimensions as tables *)

Lemma StronglySorted_lt_of_le {A} (f : A → nat) (l : list A) :
  StronglySorted (λ a b, f a ≤ f b) l → NoDup (f <$> l) →
  StronglySorted (λ a b, f a < f b) l.
Proof.
  induction 1 as [|a l Hl IH Ha]; intros Hnd; [constructor|].
  rewrite fmap_cons in Hnd. apply NoDup_cons in Hnd as [Hna Hnd].
  constructor; [by apply IH|].
  apply Forall_forall. intros b Hb.
  assert (f a ≤ f b) by (by eapply Forall_forall in Ha).
  assert (f a ≠ f b).
  { intros E. apply Hna. rewrite E. apply list_elem_of_fmap. eauto. }
  lia.
Qed.

Lemma StronglySorted_lookup_lt {A} (R : relation A) l i j a b :
  StronglySorted R l → i < j → l !! i = Some a → l !! j = Some b → R a b.
Proof.
  intros Hs. revert i j. induction Hs as [|x l Hs IH Hx]; intros i j Hij Hi Hj.
  { by rewrite lookup_nil in Hi. }
  destruct j as [|j]; [lia|]. destruct i as [|i]; simpl in Hi, Hj.
  - simplify_eq. eapply Forall_forall in Hx; [done|].
    by eapply list_elem_of_lookup_2.
  - apply (IH i j); [lia|done..].
Qed.

Section DimensionTables.
Context `{U : PyUnicode}.

Lemma clubs_perm df df' : df ≡ₚ df' → clubs df = clubs df'.
Proof.
  intros Hp. unfold clubs. do 2 f_equal.
  apply set_eq. intros c.
  rewrite !elem_of_list_to_set, !list_elem_of_filter, !elem_of_app,
    !list_elem_of_fmap.
  by setoid_rewrite Hp.
Qed.

Lemma NoDup_unique_stages df : NoDup (unique_stages df).
Proof. unfold unique_stages. apply NoDup_filter, NoDup_unique. Qed.

Lemma elem_of_unique_stages df s :
  s ∈ unique_stages df
  ↔ truthy s = true ∧ ∃ r, r ∈ df ∧ s = strip (df_comp_stage r).
Proof.
  unfold unique_stages.
  rewrite list_elem_of_filter, elem_of_unique, list_elem_of_fmap.
  split; intros [Ht Hr]; (split; [by apply Is_true_true|]);
    destruct Hr as (r & ? & ?); eauto.
Qed.

Lemma unique_stages_perm df df' :
  df ≡ₚ df' → unique_stages df ≡ₚ unique_stages df'.
Proof.
  intros Hp. apply NoDup_Permutation; [apply NoDup_unique_stages..|].
  intros s. rewrite !elem_of_unique_stages. by setoid_rewrite Hp.
Qed.

Lemma dim_stages_perm df df' : df ≡ₚ df' → dim_stages df = dim_stages df'.
Proof.
  intros Hp%unique_stages_perm. rewrite !dim_stages_eq.
  unfold appended_stages. by rewrite (sorted_proper _ _ Hp).
Qed.

(** The rows of [dim_clubs] are the club names with their places. *)
Lemma dim_clubs_lookup df k :
  dim_clubs df !! k = (λ c, (S k, c)) <$> clubs df !! k.
Proof. unfold dim_clubs. by rewrite list_lookup_imap. Qed.

Lemma elem_of_dim_clubs df i c :
  (i, c) ∈ dim_clubs df ↔ ∃ k, i = S k ∧ clubs df !! k = Some c.
Proof.
  unfold dim_clubs. split.
  - intros (k & c' & [= -> ->] & Hk)%elem_of_lookup_imap. eauto.
  - intros (k & -> & Hk).
    by apply (elem_of_lookup_imap_2 (λ i c, (S i, c))).
Qed.

(** The canonical name is empty exactly for a blank name, and it is never
    padded. *)
Lemma norm_cup_name_nil s : norm_cup_name s = [] ↔ strip s = [].
Proof.
  rewrite norm_cup_name_cases. cbv zeta.
  destruct (strip s) as [|c t] eqn:Es; [done|].
  cbn [truthy negb].
  destruct (_ || _); [done|].
  destruct (contains (py "CHAMPION") _); [done|].
  by destruct (contains (py "CONFERENCE") _).
Qed.

Lemma strip_norm_cup_name s : strip (norm_cup_name s) = norm_cup_name s.
Proof.
  rewrite norm_cup_name_cases. cbv zeta.
  destruct (negb (truthy (strip s))); [done|].
  destruct (_ || _); [done|].
  destruct (contains (py "CHAMPION") _); [done|].
  destruct (contains (py "CONFERENCE") _); [done|].
  apply strip_idemp.
Qed.

Lemma cups_unique_nil df :
  cups_unique df = [] ↔ ∀ r, r ∈ df → strip (df_cup r) = [].
Proof.
  split.
  - intros E r Hr. apply norm_cup_name_nil.
    destruct (norm_cup_name (df_cup r)) as [|c t] eqn:En; [done|].
    assert (Hin : c :: t ∈ cups_unique df).
    { apply elem_of_cups_unique. split; [done|]. eauto. }
    rewrite E in Hin. by apply elem_of_nil in Hin.
  - intros Hall. destruct (cups_unique df) as [|c cu] eqn:E; [done|].
    assert (Hin : c ∈ cups_unique df) by (rewrite E; left).
    apply elem_of_cups_unique in Hin as [Ht (r & Hr & ->)].
    apply Hall, norm_cup_name_nil in Hr. by rewrite Hr in Ht.
Qed.

Lemma elem_of_cup_rows_of cu row :
  row ∈ cup_rows_of cu →
  cup_kes row ∈ cu
  ∧ ((cup_kes row, cup_id row) ∈ CUP_ID_FIXED
     ∨ (4 ≤ cup_id row ∧ cup_kes row ∉ CUP_ID_FIXED.*1)).
Proof.
  unfold cup_rows_of. intros [Hrow|Hrow]%elem_of_app.
  - apply elem_of_fixed_present in Hrow as [? ?]. split; [done|by left].
  - apply elem_of_lookup_imap in Hrow as (k & c & -> & Hk). simpl.
    assert (Hin : c ∈ remaining_cups cu)
      by (apply list_elem_of_lookup; eauto).
    apply elem_of_remaining_cups in Hin as [? ?].
    split; [done|right]. split; [lia|done].
Qed.

Lemma cup_rows_of_names cu c :
  c ∈ cu → ∃ row, row ∈ cup_rows_of cu ∧ cup_kes row = c.
Proof.
  intros Hc. unfold cup_rows_of.
  destruct (decide (c ∈ CUP_ID_FIXED.*1)) as [Hf|Hf].
  - apply list_elem_of_fmap in Hf as ([c' i] & Heq & Hin).
    simpl in Heq. subst c'.
    exists {| cup_id := i; cup_kes := c |}. split; [|done].
    apply elem_of_app. left. by apply elem_of_fixed_present.
  - assert (Hin : c ∈ remaining_cups cu)
      by (by apply elem_of_remaining_cups).
    apply list_elem_of_lookup in Hin as [k Hk].
    exists {| cup_id := 4 + k; cup_kes := c |}. split; [|done].
    apply elem_of_app. right.
    by apply (elem_of_lookup_imap_2
                (λ k c, {| cup_id := 4 + k; cup_kes := c |})).
Qed.

Lemma cup_rows_of_ids_NoDup cu : NoDup (cup_id <$> cup_rows_of cu).
Proof.
  unfold cup_rows_of. rewrite fmap_app. apply NoDup_app. split; [|split].
  - unfold fixed_present. rewrite <- list_fmap_compose.
    change (cup_id ∘ _) with (snd : pystr * nat → nat).
    eapply sublist_NoDup; [|apply fmap_sublist, sublist_filter].
    apply (bool_decide_unpack _). by vm_compute.
  - intros i (row & -> & Hrow)%list_elem_of_fmap
             (row' & Heq & Hrow')%list_elem_of_fmap.
    apply elem_of_fixed_present in Hrow as [Hfix _].
    apply elem_of_lookup_imap in Hrow' as (k & c & -> & _).
    simpl in Heq.
    assert (Hlt : cup_id row < 4).
    { revert Hfix. generalize (cup_kes row) (cup_id row). intros c' i' Hfix.
      unfold CUP_ID_FIXED in Hfix.
      rewrite !elem_of_cons, elem_of_nil in Hfix.
      destruct Hfix as [[= _ ->]|[[= _ ->]|[[= _ ->]|[]]]]; lia. }
    lia.
  - apply NoDup_fmap_2_strong; [|apply NoDup_alt; intros i j x;
      rewrite !list_lookup_imap; intros Hi Hj].
    + intros r1 r2 (k1 & c1 & -> & H1)%elem_of_lookup_imap
                   (k2 & c2 & -> & H2)%elem_of_lookup_imap Heq.
      simpl in Heq. assert (k1 = k2) as -> by lia. congruence.
    + destruct (remaining_cups cu !! i) eqn:Ei; [|done].
      destruct (remaining_cups cu !! j) eqn:Ej; [|done].
      simpl in Hi, Hj. simplify_eq. lia.
Qed.

Lemma dim_cups_rows df dc :
  dim_cups df = Some dc →
  cups_unique df ≠ [] ∧ dc = merge_sort cup_id_le (cup_rows_of (cups_unique df)).
Proof.
  intros Hdc. unfold dim_cups in Hdc. rewrite cup_rows_eq in Hdc.
  fold (cup_rows_of (cups_unique df)) in Hdc.
  destruct (cup_rows_of (cups_unique df)) as [|row rows] eqn:E; [done|].
  split; [|by simplify_eq].
  intros Hnil. by rewrite Hnil in E.
Qed.

End DimensionTables.

#[export] Instance cup_id_le_total : Total cup_id_le.
Proof. intros a b. unfold cup_id_le. lia. Qed.
#[export] Instance cup_id_le_trans : Transitive cup_id_le.
Proof. intros a b c. unfold cup_id_le. lia. Qed.

(** X4: the club dimension holds exactly the non-empty stripped home and
    away names of the data, each once, in strictly ascending order of
    [str], numbered 1, 2, ... by position; a name has the id [k + 1] in
    [club_map] exactly when it stands at place [k]; and the table is the
    same for every order of the rows of the data. *)
Theorem club_dimension `{U : PyUnicode} df :
  (∀ c, c ∈ clubs df ↔
        truthy c = true
        ∧ ∃ r, r ∈ df ∧ (c = strip (df_home r) ∨ c = strip (df_away r)))
  ∧ NoDup (clubs df)
  ∧ (∀ i j a b, i < j → clubs df !! i = Some a → clubs df !! j = Some b →
                str_le a b ∧ a ≠ b)
  ∧ length (dim_clubs df) = length (clubs df)
  ∧ (∀ k, dim_clubs df !! k = (λ c, (S k, c)) <$> clubs df !! k)
  ∧ (∀ c i, club_map_of (dim_clubs df) !! c = Some i
            ↔ ∃ k, i = S k ∧ clubs df !! k = Some c)
  ∧ (∀ df', df' ≡ₚ df → dim_clubs df' = dim_clubs df).
Proof.
  split; [apply elem_of_clubs|]. split; [apply NoDup_clubs|].
  split.
  { intros i j a b Hij Hi Hj. split.
    - pose proof (sorted_strongly
        (elements (list_to_set (C := gset pystr)
           (filter (λ c, truthy c)
              (((λ r, strip (df_home r)) <$> df)
                 ++ ((λ r, strip (df_away r)) <$> df)))))) as Hs.
      fold (clubs df) in Hs.
      by apply (StronglySorted_lookup_lt _ _ i j a b Hs).
    - intros ->. pose proof (NoDup_clubs df) as Hnd.
      pose proof (proj1 (NoDup_alt (clubs df)) Hnd i j b Hi Hj). lia. }
  split; [unfold dim_clubs; by rewrite length_imap|].
  split; [apply dim_clubs_lookup|].
  split.
  { intros c i. split; [apply club_map_lookup_Some|].
    intros (k & -> & Hk). by apply club_map_lookup. }
  intros df' Hp. unfold dim_clubs. by rewrite (clubs_perm _ _ Hp).
Qed.

(** X5: the three dimension tables depend on the rows of the data only as
    a collection: for every reordering of the rows of [df] they come out the
    same, [main] fails or succeeds alike, and the fact table is reordered
    the same way, each row resolved through the same maps. *)
Theorem dimensions_order_independent `{U : PyUnicode} df df' :
  df ≡ₚ df' →
  dim_cups df = dim_cups df'
  ∧ dim_stages df = dim_stages df'
  ∧ dim_clubs df = dim_clubs df'
  ∧ (∀ out, build df = Some out →
       ∃ out', build df' = Some out'
               ∧ out_dim_cups out' = out_dim_cups out
               ∧ out_dim_stages out' = out_dim_stages out
               ∧ out_dim_clubs out' = out_dim_clubs out
               ∧ out_fact out' ≡ₚ out_fact out)
  ∧ (build df = None → build df' = None).
Proof.
  intros Hp.
  pose proof (dim_cups_perm _ _ Hp) as Hc.
  pose proof (dim_stages_perm _ _ Hp) as Hs.
  assert (Hl : dim_clubs df = dim_clubs df').
  { unfold dim_clubs. by rewrite (clubs_perm _ _ Hp). }
  split; [done|]. split; [done|]. split; [done|].
  unfold build. rewrite <- Hc, <- Hs, <- Hl.
  destruct (dim_cups df) as [dc|]; [|done].
  split; [|done].
  intros out [= <-]. eexists. split; [done|]. cbn.
  repeat (split; [done|]).
  unfold fact_table. apply fmap_Permutation. by symmetry.
Qed.

Lemma dimensions_order_independent_witness :
  let r1 := csv_row (leg1_row (U := ascii_unicode) 2004 (py "UEFA Cup")
                       (py "Final") (py "Porto") (py "POR") (py "Ajax")
                       (py "NED") (py "2-1") [] false false) in
  let r2 := csv_row (leg1_row (U := ascii_unicode) 2005 (py "Intertoto Cup")
                       (py "Round 1") (py "Bayern") (py "GER") (py "Ajax")
                       (py "NED") (py "0-0") [] false false) in
  dim_clubs [r1; r2] = dim_clubs [r2; r1]
  ∧ dim_stages (U := ascii_unicode) [r1; r2]
    = dim_stages (U := ascii_unicode) [r2; r1]
  ∧ dim_clubs [r1; r2] = [(1, py "Ajax"); (2, py "Bayern"); (3, py "Porto")].
Proof.
  intros r1 r2.
  destruct (dimensions_order_independent (U := ascii_unicode)
              [r1; r2] [r2; r1]) as (_ & Hs & Hl & _); [apply perm_swap|].
  split; [exact Hl|]. split; [exact Hs|]. by vm_compute.
Defined.

(** X6: in what [main] writes, references resolve.  For every row of the
    data, the fact row has a home (away) club id exactly when the stripped
    home (away) name is not empty, a competition id exactly when the
    canonical competition name is not empty, and a stage id whenever the
    stripped stage name is not empty; and every id that is set, the two-leg
    winner included, is the id of a row of its dimension table that bears
    the name looked up. *)
Theorem fact_references_resolve `{U : PyUnicode} df out r :
  build df = Some out →
  r ∈ df →
  let f := fact_row (cup_map_of (out_dim_cups out))
             (stage_map_norm_of (out_dim_stages out))
             (club_map_of (out_dim_clubs out)) r in
  f ∈ out_fact out
  ∧ (is_Some (f_home_club_id f) ↔ truthy (strip (df_home r)) = true)
  ∧ (is_Some (f_away_club_id f) ↔ truthy (strip (df_away r)) = true)
  ∧ (is_Some (f_cup_id f) ↔ truthy (norm_cup_name (df_cup r)) = true)
  ∧ (truthy (strip (df_comp_stage r)) = true → is_Some (f_comp_stage_id f))
  ∧ (∀ id, f_home_club_id f = Some id →
           (id, strip (df_home r)) ∈ out_dim_clubs out)
  ∧ (∀ id, f_away_club_id f = Some id →
           (id, strip (df_away r)) ∈ out_dim_clubs out)
  ∧ (∀ id, f_two_leg_winner f = Some id →
           (id, strip (df_two_leg_winner r)) ∈ out_dim_clubs out)
  ∧ (∀ id, f_cup_id f = Some id →
           {| cup_id := id; cup_kes := norm_cup_name (df_cup r) |}
             ∈ out_dim_cups out)
  ∧ (∀ id, f_comp_stage_id f = Some id →
           ∃ row, out_dim_stages out !! id = Some row
                  ∧ stage_id row = id
                  ∧ _norm_key (comp_stage_kes row)
                    = _norm_key (df_comp_stage r)).
Proof.
  intros Hb Hr. unfold build in Hb.
  destruct (dim_cups df) as [dc|] eqn:Hdc; [|done].
  injection Hb as <-. cbn [out_dim_cups out_dim_stages out_dim_clubs out_fact].
  set (f := fact_row _ _ _ r).
  assert (Hclub : ∀ name id,
            club_map_of (dim_clubs df) !! name = Some id →
            (id, name) ∈ dim_clubs df ∧ truthy name = true).
  { intros name id Hid.
    apply club_map_lookup_Some in Hid as (k & -> & Hk). split.
    - apply elem_of_dim_clubs. eauto.
    - assert (Hin : name ∈ clubs df) by (by eapply list_elem_of_lookup_2).
      by apply elem_of_clubs in Hin as [? _]. }
  destruct (club_map_total df r Hr) as [Hhome Haway].
  split.
  { unfold fact_table. apply list_elem_of_fmap. eauto. }
  split.
  { split; [|exact Hhome]. intros [id Hid]. by apply Hclub in Hid as [_ ?]. }
  split.
  { split; [|exact Haway]. intros [id Hid]. by apply Hclub in Hid as [_ ?]. }
  assert (Hcupkey : f_cup_id f = cup_map_of dc !! norm_cup_name (df_cup r)).
  { unfold f, fact_row, cup_norm_kes. cbn [f_cup_id].
    by rewrite strip_norm_cup_name. }
  split.
  { rewrite Hcupkey. split.
    - intros [id Hid]. apply (cup_map_lookup_Some df dc _ _ Hdc) in Hid.
      by apply elem_of_cups_unique in Hid as [? _].
    - intros Ht.
      assert (Hin : norm_cup_name (df_cup r) ∈ cups_unique df).
      { apply elem_of_cups_unique. eauto. }
      apply cup_rows_of_names in Hin as (row & Hrow & Hname).
      rewrite <- Hname, (cup_map_lookup df dc row Hdc Hrow). eauto. }
  split.
  { intros Ht.
    set (s := strip (df_comp_stage r)) in *.
    assert (Hs : s ∈ unique_stages df).
    { apply elem_of_unique_stages. eauto. }
    assert (Hkey : _norm_key s = _norm_key (df_comp_stage r)).
    { unfold _norm_key, s. by rewrite strip_idemp. }
    unfold f, fact_row. cbn [f_comp_stage_id]. rewrite <- Hkey.
    destruct (decide (_norm_key s ∈ seeded_keys)) as [Hseed|Hseed].
    - apply elem_of_seeded_keys in Hseed as (d & Hd & ->).
      apply list_elem_of_lookup in Hd as [i Hi].
      apply (seeded_in_dim_stages df) in Hi.
      apply list_elem_of_lookup_2 in Hi.
      rewrite (stage_map_lookup df d Hi). eauto.
    - destruct (unmatched_stage_appended df s Hs Hseed)
        as (j & s' & Hj & <-).
      assert (Hrow : {| stage_id := 21 + j; comp_stage_kes := s';
                        importance := 0 |} ∈ dim_stages df).
      { rewrite dim_stages_eq. apply elem_of_app. right.
        by apply (elem_of_lookup_imap_2
                    (λ j s, {| stage_id := 21 + j; comp_stage_kes := s;
                               importance := 0 |})). }
      apply stage_map_lookup in Hrow. cbn in Hrow. rewrite Hrow. eauto. }
  split; [intros id Hid; by apply Hclub in Hid as [? _]|].
  split; [intros id Hid; by apply Hclub in Hid as [? _]|].
  split.
  { intros id Hid. unfold f, fact_row in Hid. cbn [f_two_leg_winner] in Hid.
    case_bool_decide; [|done]. by apply Hclub in Hid as [? _]. }
  split.
  { intros id Hid. rewrite Hcupkey in Hid. unfold cup_map_of in Hid.
    apply dict_of_lookup_Some, list_elem_of_fmap in Hid
      as ([i' c'] & [= <- <-] & Hrow).
    exact Hrow. }
  intros id Hid. unfold f, fact_row in Hid. cbn [f_comp_stage_id] in Hid.
  apply stage_map_lookup_Some in Hid as (row & Hrow & Hkey).
  exists row. split; [done|]. split; [by eapply dim_stages_positions|done].
Qed.

Lemma fact_references_resolve_witness :
  let r := csv_row (leg1_row (U := ascii_unicode) 2004 (py "UEFA Cup")
                      (py "Final") (py "Porto") (py "POR") (py "Ajax")
                      (py "NED") (py "2-1") [] false false) in
  ∃ out, build (U := ascii_unicode) [r] = Some out
         ∧ (∀ id, f_home_club_id
                    (fact_row (U := ascii_unicode)
                       (cup_map_of (out_dim_cups out))
                       (stage_map_norm_of (U := ascii_unicode)
                          (out_dim_stages out))
                       (club_map_of (out_dim_clubs out)) r) = Some id →
                  (id, strip (df_home r)) ∈ out_dim_clubs out).
Proof.
  intros r.
  destruct (build (U := ascii_unicode) [r]) as [out|] eqn:E;
    [|by vm_compute in E].
  exists out. split; [done|].
  assert (Hr : r ∈ [r]) by left.
  destruct (fact_references_resolve (U := ascii_unicode) [r] out r E Hr)
    as (_ & _ & _ & _ & _ & Hhome & _).
  exact Hhome.
Defined.

(** X7: the competition table that [main] writes lists its rows in strictly
    ascending order of id, so that no two rows share an id; it has one row
    for each non-empty canonical competition name of the data and no other;
    a row either is one of the three reserved pairs or has an id of 4 or
    more and a name that is not reserved; and no two names have the same id
    in [cup_map]. *)
Theorem cup_dimension_table `{U : PyUnicode} df dc :
  dim_cups df = Some dc →
  StronglySorted (λ a b, cup_id a < cup_id b) dc
  ∧ NoDup (cup_id <$> dc)
  ∧ NoDup (cup_kes <$> dc)
  ∧ (∀ c, c ∈ cup_kes <$> dc ↔ c ∈ cups_unique df)
  ∧ (∀ row, row ∈ dc →
            (cup_kes row, cup_id row) ∈ CUP_ID_FIXED
            ∨ (4 ≤ cup_id row ∧ cup_kes row ∉ CUP_ID_FIXED.*1))
  ∧ (∀ c c' i, cup_map_of dc !! c = Some i → cup_map_of dc !! c' = Some i →
               c = c').
Proof.
  intros Hdc. destruct (dim_cups_rows df dc Hdc) as [Hne ->].
  set (rows := cup_rows_of (cups_unique df)).
  assert (Hperm : merge_sort cup_id_le rows ≡ₚ rows)
    by apply merge_sort_Permutation.
  assert (Hids : NoDup (cup_id <$> merge_sort cup_id_le rows)).
  { rewrite Hperm. apply cup_rows_of_ids_NoDup. }
  split.
  { apply StronglySorted_lt_of_le; [|done].
    apply (StronglySorted_merge_sort cup_id_le). }
  split; [done|].
  split.
  { rewrite Hperm. apply cup_rows_names_NoDup, NoDup_cups_unique. }
  split.
  { intros c. rewrite Hperm. split.
    - intros (row & -> & Hrow)%list_elem_of_fmap.
      by apply elem_of_cup_rows_of in Hrow as [? _].
    - intros (row & Hrow & <-)%cup_rows_of_names.
      apply list_elem_of_fmap. eauto. }
  split.
  { intros row Hrow. rewrite Hperm in Hrow.
    by apply elem_of_cup_rows_of in Hrow as [_ ?]. }
  intros c c' i Hc Hc'. unfold cup_map_of in Hc, Hc'.
  apply dict_of_lookup_Some, list_elem_of_fmap in Hc
    as (row & [= -> ->] & Hrow).
  apply dict_of_lookup_Some, list_elem_of_fmap in Hc'
    as (row' & [= -> Hid] & Hrow').
  apply list_elem_of_lookup in Hrow as [k Hk].
  apply list_elem_of_lookup in Hrow' as [k' Hk'].
  assert (k = k') as <-.
  { apply (proj1 (NoDup_alt _) Hids k k' (cup_id row));
      rewrite list_lookup_fmap; [by rewrite Hk|by rewrite Hk', Hid]. }
  congruence.
Qed.

Lemma cup_dimension_table_witness :
  let df :=
    [ csv_row (leg1_row (U := ascii_unicode) 2004 (py "Intertoto Cup") []
                 (py "Porto") (py "POR") (py "Ajax") (py "NED") (py "2-1")
                 [] false false);
      csv_row (leg1_row (U := ascii_unicode) 2004 (py "UEFA Cup") []
                 (py "Porto") (py "POR") (py "Ajax") (py "NED") (py "2-1")
                 [] false false) ] in
  ∃ dc, dim_cups (U := ascii_unicode) df = Some dc
        ∧ dc = [ {| cup_id := 2; cup_kes := py "EUROPA LEAGUE" |};
                 {| cup_id := 4; cup_kes := py "Intertoto Cup" |} ]
        ∧ NoDup (cup_id <$> dc).
Proof.
  intros df.
  destruct (dim_cups (U := ascii_unicode) df) as [dc|] eqn:E;
    [|by vm_compute in E].
  exists dc. split; [done|].
  destruct (cup_dimension_table (U := ascii_unicode) df dc E)
    as (_ & Hnd & _).
  split; [|exact Hnd].
  vm_compute in E. by injection E as <-.
Defined.

(** X8: [main] fails on the competition table, with the [KeyError] of
    sorting an empty frame, exactly when no row of the data frame has a
    competition name that is not blank, and in particular when the frame
    has no row at all.  For a run this is so when every candidate row
    stands before the first competition header of its page or under a
    blank one; and it is not so when some candidate row has a competition
    name that is not blank and is not one of the words read back from the
    file as a missing value. *)
Theorem build_fails_without_competition `{U : PyUnicode} :
  (∀ df, build df = None ↔ ∀ r, r ∈ df → strip (df_cup r) = [])
  ∧ build [] = None
  ∧ (∀ pages,
       (∀ y tables r, (y, tables) ∈ pages → r ∈ year_rows tables y →
                      strip (cup r) = []) →
       build (read_back <$> candidates pages) = None)
  ∧ (∀ pages y tables r,
       (y, tables) ∈ pages → r ∈ year_rows tables y →
       strip (cup r) ≠ [] → cup r ∉ NA_VALUES →
       is_Some (build (read_back <$> candidates pages))).
Proof.
  assert (Hdf : ∀ df, build df = None ↔ ∀ r, r ∈ df → strip (df_cup r) = []).
  { intros df. rewrite <- cups_unique_nil.
    pose proof (build_total df) as Ht.
    destruct (build df) as [out|].
    - split; [done|]. intros E. exfalso. by apply Ht.
    - split; [|done]. intros _.
      destruct (decide (cups_unique df = [])) as [E|E]; [done|].
      apply Ht in E. by destruct E. }
  split; [exact Hdf|]. split; [|split].
  - apply Hdf. intros r Hr. by apply elem_of_nil in Hr.
  - intros pages Hall. apply Hdf.
    intros d (d0 & -> & Hd0)%list_elem_of_fmap.
    unfold candidates in Hd0.
    apply list_elem_of_bind in Hd0 as ([y tables] & Hin & Hp).
    apply list_elem_of_fmap in Hin as (r & -> & Hr).
    cbn [read_back csv_row df_cup]. unfold na_blank.
    case_bool_decide; [done|]. by apply (Hall y tables).
  - intros pages y tables r Hp Hr Hcup Hna.
    destruct (build (read_back <$> candidates pages)) as [out|] eqn:E;
      [by eexists|].
    exfalso. apply Hcup.
    assert (Hin : read_back (csv_row r) ∈ read_back <$> candidates pages).
    { apply list_elem_of_fmap. exists (csv_row r). split; [done|].
      unfold candidates. apply list_elem_of_bind.
      exists (y, tables). split; [|done]. apply list_elem_of_fmap. eauto. }
    apply (proj1 (Hdf _) E) in Hin.
    cbn [read_back csv_row df_cup] in Hin. unfold na_blank in Hin.
    by rewrite bool_decide_eq_false_2 in Hin.
Qed.

(** ** The address of a page and the years to fetch *)

Lemma Return_inj {A} (a b : A) : Return a = Return b → a = b.
Proof. by intros [= ->]. Qed.

Lemma py_str_Z_inj y y' : py_str_Z y = py_str_Z y' → y = y'.
Proof. unfold py_str_Z. intros H%py_inj. by apply (inj pretty). Qed.

Lemma url_parts_inj (base m m' mid : pystr) y y' tail :
  length m = length m' →
  base ++ m ++ mid ++ py_str_Z y ++ tail
  = base ++ m' ++ mid ++ py_str_Z y' ++ tail →
  y = y'.
Proof.
  intros Hlen H. apply app_inv_head in H.
  apply app_inj_1 in H as [_ H]; [|done].
  apply app_inv_head in H. apply app_inv_tail in H.
  by apply py_str_Z_inj.
Qed.

(** X9: [url_for_year] gives an address exactly for the years 2000 to 2026
    and raises [ValueError("Unsupported year")] for every other integer;
    the addresses of two different years are different. *)
Theorem url_for_year_supported :
  (∀ y, (∃ u, url_for_year y = Return u) ↔ (2000 ≤ y ≤ 2026)%Z)
  ∧ (∀ y, ¬ (2000 ≤ y ≤ 2026)%Z →
          url_for_year y = Raise (ValueError (py "Unsupported year")))
  ∧ (∀ y y' u, url_for_year y = Return u → url_for_year y' = Return u →
               y = y').
Proof.
  assert (Hcases : ∀ y,
    ((2000 ≤ y ≤ 2026)%Z
     ∧ ∃ m, length m = 7
            ∧ url_for_year y
              = Return (py "https://kassiesa.net/uefa/data/" ++ m
                          ++ py "/match" ++ py_str_Z y ++ py ".html"))
    ∨ (¬ (2000 ≤ y ≤ 2026)%Z
       ∧ url_for_year y = Raise (ValueError (py "Unsupported year")))).
  { intros y. unfold url_for_year.
    destruct ((2018 <=? y) && (y <=? 2026))%Z eqn:E5.
    { left. split; [lia|]. by exists (py "method5"). }
    destruct ((2009 <=? y) && (y <=? 2017))%Z eqn:E4.
    { left. split; [lia|]. by exists (py "method4"). }
    destruct ((2004 <=? y) && (y <=? 2008))%Z eqn:E3.
    { left. split; [lia|]. by exists (py "method3"). }
    destruct ((2000 <=? y) && (y <=? 2003))%Z eqn:E2.
    { left. split; [lia|]. by exists (py "method2"). }
    right. split; [lia|done]. }
  split; [|split].
  - intros y. destruct (Hcases y) as [[Hy (m & _ & ->)]|[Hy ->]].
    + split; [done|]. eauto.
    + split; [by intros [u ?]|done].
  - intros y Hy. by destruct (Hcases y) as [[? _]|[_ ->]].
  - intros y y' u Hu Hu'.
    destruct (Hcases y) as [[_ (m & Hm & Hy)]|[_ Hy]];
      rewrite Hy in Hu; [|done].
    destruct (Hcases y') as [[_ (m' & Hm' & Hy')]|[_ Hy']];
      rewrite Hy' in Hu'; [|done].
    rewrite <- Hu' in Hu. apply Return_inj in Hu.
    apply url_parts_inj in Hu; [done|congruence].
Qed.

Lemma foldl_max_spec (x : Z) (r : list Z) :
  (foldl Z.max x r = x ∨ foldl Z.max x r ∈ r)
  ∧ (x ≤ foldl Z.max x r)%Z
  ∧ ∀ y, y ∈ r → (y ≤ foldl Z.max x r)%Z.
Proof.
  revert x. induction r as [|z r IH]; intros x; simpl.
  { split; [by left|]. split; [lia|]. by intros y ?%elem_of_nil. }
  destruct (IH (Z.max x z)) as (Hin & Hle & Hall).
  split; [|split].
  - destruct Hin as [->|Hin]; [|right; by right].
    destruct (Z.max_spec x z) as [[_ ->]|[_ ->]]; [right; left|by left].
  - lia.
  - intros y [->|Hy]%elem_of_cons; [lia|by apply Hall].
Qed.

Lemma py_max_spec (l : list Z) :
  l ≠ [] → ∃ m, py_max l = Some m ∧ m ∈ l ∧ ∀ y, y ∈ l → (y ≤ m)%Z.
Proof.
  destruct l as [|x r]; [done|]. intros _. simpl.
  destruct (foldl_max_spec x r) as (Hin & Hle & Hall).
  eexists. split; [done|]. split.
  - destruct Hin as [->|Hin]; [left|by right].
  - intros y [->|Hy]%elem_of_cons; [done|by apply Hall].
Qed.

Lemma existing_years_nil dir years :
  existing_years dir years = [] ↔ ∀ y, y ∈ years → per_file_name y ∉ dir.
Proof.
  unfold existing_years. split.
  - intros E y Hy Hin.
    assert (H : y ∈ filter (λ y, per_file_name y ∈ dir) (unique years)).
    { apply list_elem_of_filter. split; [done|by apply elem_of_unique]. }
    rewrite E in H. by apply elem_of_nil in H.
  - intros Hall.
    destruct (filter _ _) as [|y l] eqn:E; [done|].
    assert (H : y ∈ filter (λ y, per_file_name y ∈ dir) (unique years))
      by (rewrite E; left).
    apply list_elem_of_filter in H as [Hin Hy].
    apply (proj1 (elem_of_unique _ _)) in Hy.
    by destruct (Hall y Hy).
Qed.

(** X10: the years that [main] fetches.  With [overwrite], or when no file
    of any of the years is in the directory, these are all the years as
    given.  Otherwise it is the newest year alone, whether its own file is
    there or not (the two branches of the test are the same), so that the
    missing files of older years are not fetched; and [max] is never
    called on an empty list. *)
Theorem to_fetch_spec dir years overwrite :
  is_Some (to_fetch dir years overwrite)
  ∧ (overwrite = true ∨ (∀ y, y ∈ years → per_file_name y ∉ dir) →
     to_fetch dir years overwrite = Some years)
  ∧ (overwrite = false →
     ∀ y0, y0 ∈ years → per_file_name y0 ∈ dir →
     ∃ newest, to_fetch dir years overwrite = Some [newest]
               ∧ newest ∈ years ∧ ∀ y, y ∈ years → (y ≤ newest)%Z).
Proof.
  assert (Hsome : overwrite = false →
     ∀ y0, y0 ∈ years → per_file_name y0 ∈ dir →
     ∃ newest, to_fetch dir years overwrite = Some [newest]
               ∧ newest ∈ years ∧ ∀ y, y ∈ years → (y ≤ newest)%Z).
  { intros -> y0 Hy0 Hin. unfold to_fetch. cbn [orb].
    rewrite bool_decide_eq_true_2.
    2:{ intros E. by destruct (proj1 (existing_years_nil _ _) E y0 Hy0). }
    cbn [negb].
    destruct (py_max_spec years) as (m & -> & Hm & Hmax).
    { intros ->. by apply elem_of_nil in Hy0. }
    exists m. split; [by destruct (negb _)|done]. }
  assert (Hall : overwrite = true ∨ (∀ y, y ∈ years → per_file_name y ∉ dir) →
                 to_fetch dir years overwrite = Some years).
  { intros [->|Hnone]; [done|]. unfold to_fetch.
    apply (proj2 (existing_years_nil dir years)) in Hnone. rewrite Hnone.
    rewrite bool_decide_eq_false_2 by (by intros ?).
    by rewrite orb_true_r. }
  split; [|done].
  destruct overwrite; [rewrite Hall; eauto|].
  destruct (existing_years dir years) as [|y0 l] eqn:E.
  { rewrite Hall; [eauto|]. right.
    by apply (proj1 (existing_years_nil dir years)). }
  assert (H : y0 ∈ existing_years dir years) by (rewrite E; left).
  apply list_elem_of_filter in H as [Hin Hy].
  apply (proj1 (elem_of_unique _ _)) in Hy.
  destruct (Hsome eq_refl y0 Hy Hin) as (m & -> & _). eauto.
Qed.

(** ** The request and its retries *)

Section FetchFacts.
Context `{U : PyUnicode} `{C : PyCodecs}.
Implicit Types (sess_get : nat → pystr → result Response).

Lemma reply_error_failed reply :
  is_Some (reply_error reply) →
  (∃ e, reply = Raise e ∧ is_Exception e = true)
  ∨ (∃ r, reply = Return r ∧ resp_ok r = false).
Proof.
  destruct reply as [r|e]; simpl.
  - destruct (resp_ok r) eqn:E; [by intros [? ?]|eauto].
  - destruct (is_Exception e) eqn:E; [eauto|by intros [? ?]].
Qed.

(** An exception that [except Exception] does not catch leaves the function
    at the request that raised it: nothing is tried again, and there is no
    sleep. *)
Lemma fetch_loop_uncaught sess_get url a rest last st e :
  sess_get (net_requests st) url = Raise e → is_Exception e = false →
  fetch_loop sess_get url (a :: rest) last st = (Raise e, net_request st).
Proof. intros He Hex. cbn [fetch_loop]. by rewrite He, Hex. Qed.

(** A run of failed attempts: each is followed by its sleep, and the error
    of the last one is kept. *)
Lemma fetch_loop_failed sess_get url attempts last st :
  (∀ i, i < length attempts →
        is_Some (reply_error (sess_get (net_requests st + i) url))) →
  fetch_loop sess_get url attempts last st
  = (Raise (default (RuntimeError (py "Failed " ++ url))
              (match attempts with
               | [] => last
               | _ :: _ =>
                 reply_error
                   (sess_get (net_requests st + (length attempts - 1)) url)
               end)),
     {| net_requests := net_requests st + length attempts;
        net_slept := net_slept st ++ attempts |}).
Proof.
  revert last st. induction attempts as [|a rest IH]; intros last st Hall.
  { simpl. rewrite Nat.add_0_r, app_nil_r. by destruct st. }
  pose proof (Hall 0 ltac:(simpl; lia)) as H0. rewrite Nat.add_0_r in H0.
  assert (Hstep : ∀ e, reply_error (sess_get (net_requests st) url) = Some e →
            fetch_loop sess_get url (a :: rest) last st
            = fetch_loop sess_get url rest (Some e)
                (net_sleep a (net_request st))).
  { intros e He. cbn [fetch_loop].
    destruct (sess_get (net_requests st) url) as [r|e']; simpl in He.
    - destruct (resp_ok r); [done|]. by injection He as <-.
    - destruct (is_Exception e'); [by injection He as <-|done]. }
  destruct H0 as [e He]. rewrite (Hstep e He), IH.
  2:{ intros i Hi. cbn [net_sleep net_request net_requests].
      replace (S (net_requests st) + i) with (net_requests st + S i) by lia.
      apply Hall. simpl. lia. }
  cbn [net_sleep net_request net_requests net_slept length].
  f_equal.
  - f_equal. destruct rest as [|b rest']; simpl.
    + by rewrite Nat.add_0_r, He.
    + do 3 f_equal. lia.
  - f_equal; [lia|]. by rewrite <- app_assoc.
Qed.

(** Failed attempts and then an [ok] response: its content is decoded and
    returned, with no sleep behind it. *)
Lemma fetch_loop_ok sess_get url pre a post last st r :
  (∀ i, i < length pre →
        is_Some (reply_error (sess_get (net_requests st + i) url))) →
  sess_get (net_requests st + length pre) url = Return r →
  resp_ok r = true →
  fetch_loop sess_get url (pre ++ a :: post) last st
  = (Return (decode_html_bytes (resp_content r)),
     {| net_requests := net_requests st + length pre + 1;
        net_slept := net_slept st ++ pre |}).
Proof.
  revert last st. induction pre as [|b pre IH]; intros last st Hall Hr Hok.
  { simpl in *. rewrite Nat.add_0_r in Hr. rewrite Hr, Hok.
    rewrite app_nil_r. unfold net_request. do 2 f_equal. lia. }
  pose proof (Hall 0 ltac:(simpl; lia)) as [e He].
  rewrite Nat.add_0_r in He.
  assert (Hstep : fetch_loop sess_get url ((b :: pre) ++ a :: post) last st
                  = fetch_loop sess_get url (pre ++ a :: post) (Some e)
                      (net_sleep b (net_request st))).
  { cbn [fetch_loop app].
    destruct (sess_get (net_requests st) url) as [r'|e']; simpl in He.
    - destruct (resp_ok r'); [done|]. by injection He as <-.
    - destruct (is_Exception e'); [by injection He as <-|done]. }
  rewrite Hstep, (IH _ _).
  - cbn [net_sleep net_request net_requests net_slept length].
    f_equal. f_equal; [lia|]. by rewrite <- app_assoc.
  - intros i Hi. cbn [net_sleep net_request net_requests].
    replace (S (net_requests st) + i) with (net_requests st + S i) by lia.
    apply Hall. simpl. lia.
  - cbn [net_sleep net_request net_requests].
    replace (S (net_requests st) + length pre)
      with (net_requests st + length (b :: pre)) by (simpl; lia).
    exact Hr.
  - exact Hok.
Qed.

End FetchFacts.

(** X11: [fetch_html] returns the page of the first request that is
    answered with an [ok] response, decoded by [decode_html_bytes].  When
    the first [k] requests fail (an exception that [except Exception]
    catches, or a response that is not [ok]) and request [k + 1] is
    answered [ok], with [k] less than [retries], it has sent exactly
    [k + 1] requests and has slept after each failure for 1, 2, ..., [k]
    seconds (and the random part), not after the success.  An exception
    that [except Exception] lets through, such as [SystemExit] or
    [KeyboardInterrupt], is not such a failure: it leaves the function at
    once. *)
Theorem fetch_html_first_ok `{U : PyUnicode} `{C : PyCodecs}
    sess_get url retries st k r :
  k < Z.to_nat retries →
  (∀ i, i < k →
        is_Some (reply_error (sess_get (net_requests st + i) url))) →
  sess_get (net_requests st + k) url = Return r →
  resp_ok r = true →
  fetch_html sess_get url retries st
  = (Return (decode_html_bytes (resp_content r)),
     {| net_requests := net_requests st + k + 1;
        net_slept := net_slept st ++ seq 1 k |}).
Proof.
  intros Hk Hfail Hr Hok. unfold fetch_html.
  replace (Z.to_nat retries) with (k + S (Z.to_nat retries - k - 1)) by lia.
  rewrite seq_app. cbn [seq].
  pose proof (fetch_loop_ok sess_get url (seq 1 k) (1 + k)
                (seq (S (1 + k)) (Z.to_nat retries - k - 1)) None st r) as H.
  rewrite length_seq in H. by apply H.
Qed.

Lemma fetch_html_first_ok_witness :
  let sess_get := λ (n : nat) (url : pystr),
    if decide (n = 0) then Raise (OtherError (py "Timeout") [])
    else Return {| resp_ok := true; resp_status_code := 200;
                   resp_content := py "<p>ok</p>" |} in
  fetch_html (U := ascii_unicode) (C := two_codecs) sess_get (py "u") 3
    {| net_requests := 0; net_slept := [] |}
  = (Return (py "<p>ok</p>"), {| net_requests := 2; net_slept := [1] |}).
Proof.
  intros sess_get.
  apply (fetch_html_first_ok (U := ascii_unicode) (C := two_codecs)
           sess_get (py "u") 3 {| net_requests := 0; net_slept := [] |} 1
           {| resp_ok := true; resp_status_code := 200;
              resp_content := py "<p>ok</p>" |}).
  - simpl. lia.
  - intros i Hi. assert (i = 0) as -> by lia. simpl. eauto.
  - reflexivity.
  - reflexivity.
Defined.

(** X12: when each of the [retries] requests fails, with an exception
    that [except Exception] catches or a response that is not [ok],
    [fetch_html] raises after exactly [retries] requests, having slept
    after each of them, the last one included, for 1, 2, ..., [retries]
    seconds (and the random part).  The exception is the one of the last
    request, or [RuntimeError("HTTP <status>")] when the last reply was a
    response; with [retries] of zero or less no request is sent and it is
    [RuntimeError("Failed <url>")]. *)
Theorem fetch_html_gives_up `{U : PyUnicode} `{C : PyCodecs}
    sess_get url retries st :
  let n := Z.to_nat retries in
  (∀ i, i < n →
        is_Some (reply_error (sess_get (net_requests st + i) url))) →
  fetch_html sess_get url retries st
  = (Raise (match n with
            | 0 => RuntimeError (py "Failed " ++ url)
            | S m =>
              default (RuntimeError (py "Failed " ++ url))
                (reply_error (sess_get (net_requests st + m) url))
            end),
     {| net_requests := net_requests st + n;
        net_slept := net_slept st ++ seq 1 n |})
  ∧ (0 < n → ∃ e, reply_error (sess_get (net_requests st + (n - 1)) url)
                  = Some e
                  ∧ (fetch_html sess_get url retries st).1 = Raise e).
Proof.
  intros n Hfail. unfold fetch_html. fold n. clearbody n.
  pose proof (fetch_loop_failed sess_get url (seq 1 n) None st) as H.
  rewrite length_seq in H. specialize (H Hfail).
  split.
  - rewrite H. f_equal. destruct n as [|m]; [done|].
    cbn [seq]. by rewrite Nat.sub_succ, Nat.sub_0_r.
  - intros Hn. rewrite H. cbn [fst].
    destruct n as [|m]; [lia|]. cbn [seq].
    rewrite Nat.sub_succ, Nat.sub_0_r.
    destruct (Hfail m) as [e He]; [lia|].
    exists e. split; [done|]. by rewrite He.
Qed.

Lemma fetch_html_gives_up_witness :
  let sess_get := λ (n : nat) (url : pystr),
    Return {| resp_ok := false; resp_status_code := 503;
              resp_content := [] |} in
  fetch_html (U := ascii_unicode) (C := two_codecs) sess_get (py "u") 3
    {| net_requests := 0; net_slept := [] |}
  = (Raise (RuntimeError (py "HTTP 503")),
     {| net_requests := 3; net_slept := [1; 2; 3] |}).
Proof.
  intros sess_get.
  destruct (fetch_html_gives_up (U := ascii_unicode) (C := two_codecs)
              sess_get (py "u") 3 {| net_requests := 0; net_slept := [] |})
    as [H _]; [intros i _; simpl; eauto|].
  exact H.
Defined.

(** ** Decoding the bytes of a page *)

Lemma filter_Forall_id {A} (P : A → Prop) `{∀ x, Decision (P x)} (l : list A) :
  Forall P l → filter P l = l.
Proof.
  induction 1 as [|x l Hx Hl IH]; [done|].
  rewrite filter_cons_True by done. by f_equal.
Qed.

Section CodecFacts.
Local Open Scope N_scope.

Ltac cmp_cases :=
  repeat match goal with
  | |- context [(?a <? ?b)%N] => destruct (N.ltb_spec a b); try lia
  | |- context [(?a <=? ?b)%N] => destruct (N.leb_spec a b); try lia
  | |- context [(?a =? ?b)%N] => destruct (N.eqb_spec a b); try lia
  end.

Lemma utf8_decode_1 b1 r :
  b1 < 128 → utf8_decode (b1 :: r) = (b1 ::.) <$> utf8_decode r.
Proof. intros. cbn [utf8_decode]. by cmp_cases. Qed.

Lemma utf8_decode_2 b1 b2 r :
  194 ≤ b1 < 224 → 128 ≤ b2 ≤ 191 →
  utf8_decode (b1 :: b2 :: r)
  = ((b1 - 192) * 64 + (b2 - 128) ::.) <$> utf8_decode r.
Proof. intros. cbn [utf8_decode]. unfold is_cont. by cmp_cases. Qed.

Lemma utf8_decode_3 b1 b2 b3 r :
  224 ≤ b1 < 240 → 128 ≤ b2 ≤ 191 → 128 ≤ b3 ≤ 191 →
  (b1 = 224 → 160 ≤ b2) → (b1 = 237 → b2 < 160) →
  utf8_decode (b1 :: b2 :: b3 :: r)
  = ((b1 - 224) * 4096 + (b2 - 128) * 64 + (b3 - 128) ::.)
      <$> utf8_decode r.
Proof.
  intros. cbn [utf8_decode]. unfold is_cont.
  cmp_cases; simpl; try done; lia.
Qed.

Lemma utf8_decode_4 b1 b2 b3 b4 r :
  240 ≤ b1 < 245 → 128 ≤ b2 ≤ 191 → 128 ≤ b3 ≤ 191 → 128 ≤ b4 ≤ 191 →
  (b1 = 240 → 144 ≤ b2) → (b1 = 244 → b2 < 144) →
  utf8_decode (b1 :: b2 :: b3 :: b4 :: r)
  = ((b1 - 240) * 262144 + (b2 - 128) * 4096 + (b3 - 128) * 64
       + (b4 - 128) ::.) <$> utf8_decode r.
Proof.
  intros. cbn [utf8_decode]. unfold is_cont.
  cmp_cases; simpl; try done; lia.
Qed.

(** The quotients and remainders that the encoder takes of a code point. *)
Lemma utf8_digits c :
  ∃ q1 r1 q2 r2 q3 r3,
    c / 64 = q1 ∧ c mod 64 = r1 ∧ c / 4096 = q2 ∧ (c / 64) mod 64 = r2
    ∧ c / 262144 = q3 ∧ (c / 4096) mod 64 = r3
    ∧ c = 64 * q1 + r1 ∧ r1 < 64 ∧ q1 = 64 * q2 + r2 ∧ r2 < 64
    ∧ q2 = 64 * q3 + r3 ∧ r3 < 64.
Proof.
  assert (E1 : c / 4096 = c / 64 / 64) by (by rewrite N.Div0.div_div).
  assert (E2 : c / 262144 = c / 64 / 64 / 64)
    by (by rewrite !N.Div0.div_div).
  exists (c / 64), (c mod 64), (c / 64 / 64), ((c / 64) mod 64),
    (c / 64 / 64 / 64), ((c / 64 / 64) mod 64).
  rewrite E1, E2.
  repeat split; try apply N.div_mod'; apply N.mod_lt; lia.
Qed.

Lemma utf8_decode_encode_char c r :
  is_scalar c →
  utf8_decode (utf8_encode_char c ++ r) = (c ::.) <$> utf8_decode r.
Proof.
  intros Hc. unfold utf8_encode_char.
  destruct (utf8_digits c)
    as (q1 & r1 & q2 & r2 & q3 & r3 & -> & -> & -> & -> & -> & -> & H).
  destruct (N.ltb_spec c 128); [by apply utf8_decode_1|].
  destruct (N.ltb_spec c 2048).
  { cbn [app]. rewrite utf8_decode_2 by lia. do 2 f_equal. lia. }
  destruct (N.ltb_spec c 65536).
  { cbn [app]. rewrite utf8_decode_3 by (unfold is_scalar in Hc; lia).
    do 2 f_equal. lia. }
  cbn [app]. rewrite utf8_decode_4 by (unfold is_scalar in Hc; lia).
  do 2 f_equal. lia.
Qed.

(** Encoding and strict decoding are inverse on scalar values. *)
Lemma utf8_decode_encode s :
  Forall is_scalar s → utf8_decode (utf8_encode s) = Some s.
Proof.
  induction 1 as [|c s Hc Hs IH]; [done|].
  unfold utf8_encode. rewrite bind_cons. fold (utf8_encode s).
  by rewrite utf8_decode_encode_char, IH.
Qed.

(** Where the strict decoder succeeds, the forgiving one reads the same. *)
Lemma utf8_decode_ignore_strict (n : nat) bs s :
  (length bs ≤ n)%nat → utf8_decode bs = Some s → utf8_decode_ignore bs = s.
Proof.
  revert bs s. induction n as [|n IH]; intros bs s Hlen H.
  { destruct bs; [|simpl in Hlen; lia]. by simplify_eq/=. }
  destruct bs as [|b1 r1]; [by simplify_eq/=|].
  cbn [utf8_decode utf8_decode_ignore] in *.
  repeat (case_match; try done);
    apply fmap_Some in H as (s' & H & ->); f_equal;
    apply IH; simplify_eq/=; (done || lia).
Qed.

Lemma utf8_decode_ignore_encode s :
  Forall is_scalar s → utf8_decode_ignore (utf8_encode s) = s.
Proof.
  intros Hs. by apply (utf8_decode_ignore_strict (length (utf8_encode s))),
    utf8_decode_encode.
Qed.

(** The forgiving decoder makes no non-breaking space out of bytes that
    hold none. *)
Lemma utf8_decode_ignore_no_nbsp (n : nat) bs :
  (length bs ≤ n)%nat → 160 ∉ bs → 160 ∉ utf8_decode_ignore bs.
Proof.
  revert bs. induction n as [|n IH]; intros bs Hlen Hn.
  { destruct bs; [|simpl in Hlen; lia]. apply not_elem_of_nil. }
  destruct bs as [|b1 r1]; [apply not_elem_of_nil|].
  cbn [utf8_decode_ignore]. unfold is_cont.
  repeat first
    [ progress cmp_cases
    | match goal with
      | |- context [match ?l with [] => _ | _ :: _ => _ end] =>
        is_var l; destruct l
      end ];
    cbn [negb orb andb];
    repeat match goal with
    | H : _ ∉ _ :: _ |- _ => apply not_elem_of_cons in H as [? ?]
    end;
    try apply not_elem_of_nil;
    try (apply not_elem_of_cons; split; [lia|]);
    try (apply IH; [simpl in *; lia|]);
    repeat (apply not_elem_of_cons; split; [done|]); try done.
Qed.

Lemma utf8_encode_char_bytes c :
  is_scalar c →
  utf8_encode_char c ≠ [] ∧ Forall (λ b, b < 256) (utf8_encode_char c).
Proof.
  intros Hc. unfold utf8_encode_char.
  destruct (utf8_digits c)
    as (q1 & r1 & q2 & r2 & q3 & r3 & -> & -> & -> & -> & -> & -> & H).
  unfold is_scalar in Hc.
  cmp_cases; (split; [done|]); repeat (apply Forall_cons; split; [lia|]);
    apply Forall_nil_2.
Qed.

Lemma utf8_encode_bytes s :
  Forall is_scalar s → Forall (λ b, b < 256) (utf8_encode s).
Proof.
  induction 1 as [|c s Hc Hs IH]; [apply Forall_nil_2|].
  unfold utf8_encode. rewrite bind_cons. apply Forall_app. split; [|done].
  by apply utf8_encode_char_bytes.
Qed.

(** A code point of the Latin-1 supplement is encoded with the lead byte
    that Latin-1 reads as one of the two letters [norm_text] looks for. *)
Lemma utf8_encode_latin1_lead s c :
  c ∈ s → 128 ≤ c < 256 → 194 ∈ utf8_encode s ∨ 195 ∈ utf8_encode s.
Proof.
  intros Hin Hc.
  assert (Hb : 192 + c / 64 ∈ utf8_encode s).
  { unfold utf8_encode. apply list_elem_of_bind. exists c. split; [|done].
    unfold utf8_encode_char. cmp_cases. left. }
  destruct (utf8_digits c)
    as (q1 & r1 & q2 & r2 & q3 & r3 & E & _ & _ & _ & _ & _ & H).
  rewrite E in Hb.
  assert (q1 = 2 ∨ q1 = 3) as [->| ->] by lia; [by left|by right].
Qed.

Lemma replace_nbsp_id s : 160 ∉ s → replace_nbsp s = s.
Proof.
  induction s as [|c s IH]; [done|].
  intros [Hc Hs]%not_elem_of_cons. unfold replace_nbsp in *.
  rewrite fmap_cons, IH by done.
  destruct (N.eqb_spec c 160); [done|done].
Qed.

Lemma replace_nbsp_no_nbsp s : 160 ∉ replace_nbsp s.
Proof.
  unfold replace_nbsp. intros (c & Hc & _)%list_elem_of_fmap.
  destruct (N.eqb_spec c 160); [done|by subst].
Qed.

Lemma elem_of_contains b s : b ∈ s → contains [b] s = true.
Proof.
  induction 1 as [b s|b c s Hin IH]; cbn [contains startswith].
  - by rewrite N.eqb_refl.
  - rewrite IH. apply orb_true_r.
Qed.

Lemma not_elem_of_dropwhile (x : N) p s : x ∉ s → x ∉ dropwhile p s.
Proof.
  induction s as [|c s IH]; [done|].
  intros Hn. cbn [dropwhile]. destruct (p c); [|done].
  apply IH. by apply not_elem_of_cons in Hn as [_ ?].
Qed.

Lemma not_elem_of_strip (x : N) s : x ∉ s → x ∉ strip s.
Proof.
  intros Hn. unfold strip, rstrip, lstrip.
  rewrite elem_of_reverse. apply not_elem_of_dropwhile.
  rewrite elem_of_reverse. by apply not_elem_of_dropwhile.
Qed.

Lemma takewhile_Forall p s : Forall (λ c, p c = true) (takewhile p s).
Proof.
  induction s as [|c s IH]; [apply Forall_nil_2|].
  cbn [takewhile]. destruct (p c) eqn:E; [by apply Forall_cons|].
  apply Forall_nil_2.
Qed.

(** The group of the charset pattern is a non-empty name of ASCII letters,
    digits, [_] and [-]. *)
Lemma charset_at_spec s g :
  charset_at s = Some g →
  truthy g = true ∧ Forall (λ b, charset_char b = true) g.
Proof.
  unfold charset_at. destruct (startswith _ _); [|done].
  cbv zeta.
  destruct (truthy (match drop 8 s with
                    | [] => []
                    | q :: r => if is_quote q then takewhile charset_char r
                                else []
                    end)) eqn:Eq.
  - intros [= <-]. split; [done|].
    destruct (drop 8 s) as [|q r]; [apply Forall_nil_2|].
    destruct (is_quote q); [apply takewhile_Forall|apply Forall_nil_2].
  - destruct (truthy (takewhile charset_char (drop 8 s))) eqn:Eb; [|done].
    intros [= <-]. split; [done|apply takewhile_Forall].
Qed.

Lemma charset_search_spec s g :
  charset_search s = Some g →
  truthy g = true ∧ Forall (λ b, charset_char b = true) g.
Proof.
  induction s as [|b s IH]; [done|].
  cbn [charset_search].
  destruct (charset_at (b :: s)) as [g'|] eqn:E; [|done].
  intros [= <-]. by apply charset_at_spec in E.
Qed.

Lemma charset_char_ascii b : charset_char b = true → b < 128.
Proof.
  unfold charset_char. intros H.
  repeat (apply orb_true_iff in H as [H|H]);
    rewrite ?andb_true_iff, ?N.leb_le, ?N.eqb_eq in H; lia.
Qed.

Lemma ascii_low_ascii c : c < 128 → ascii_low c < 128.
Proof. unfold ascii_low. intros. cmp_cases; simpl; lia. Qed.

End CodecFacts.

Section DecodeFacts.
Context `{U : PyUnicode} `{C : PyCodecs}.

(** The declared charset that [decode_html_bytes] tries is never empty, so
    the test [if not attempt] skips only the case of no declaration. *)
Lemma declared_charset_truthy raw enc :
  declared_charset raw = Some enc → truthy enc = true ∧ is_ascii enc.
Proof.
  unfold declared_charset. intros (g & Hg & ->)%fmap_Some.
  apply charset_search_spec in Hg as [Ht Hg].
  assert (Ha : is_ascii g).
  { eapply Forall_impl; [exact Hg|]. intros b. apply charset_char_ascii. }
  assert (Hd : ascii_decode_ignore g = g).
  { unfold ascii_decode_ignore. apply filter_Forall_id.
    eapply Forall_impl; [exact Ha|]. done. }
  rewrite Hd, lower_ascii by done. split.
  - by destruct g.
  - unfold is_ascii. apply Forall_fmap.
    eapply Forall_impl; [exact Ha|]. intros b. apply ascii_low_ascii.
Qed.

Lemma decode_html_bytes_undeclared raw :
  declared_charset raw = None →
  decode_html_bytes raw = default raw (utf8_decode raw).
Proof.
  intros E. unfold decode_html_bytes. rewrite E.
  cbn [decode_attempts]. rewrite decode_utf8, decode_latin1.
  change (truthy (py "utf-8")) with true.
  change (truthy (py "latin-1")) with true. cbn [negb].
  by destruct (utf8_decode raw).
Qed.

Lemma decode_html_bytes_declared raw enc :
  declared_charset raw = Some enc →
  decode_html_bytes raw
  = default (default raw (utf8_decode raw)) (bytes_decode enc raw).
Proof.
  intros E. unfold decode_html_bytes. rewrite E.
  apply declared_charset_truthy in E as [Ht _].
  cbn [decode_attempts]. rewrite Ht, decode_utf8, decode_latin1.
  change (truthy (py "utf-8")) with true.
  change (truthy (py "latin-1")) with true. cbn [negb].
  destruct (bytes_decode enc raw); [done|].
  by destruct (utf8_decode raw).
Qed.

End DecodeFacts.

(** X13: [decode_html_bytes] never comes to its last line, the decoding
    that drops bytes.  It returns the text by the declared charset (the
    first [charset=] name in the first 4000 bytes, in lower case, which is
    never empty) when there is one and its codec decodes the bytes; else
    the strict UTF-8 text when the bytes are valid UTF-8; else the bytes
    read one by one as Latin-1, which keeps every byte. *)
Theorem decode_html_bytes_never_lossy `{U : PyUnicode} `{C : PyCodecs} raw :
  is_Some (decode_attempts
             [declared_charset raw; Some (py "utf-8"); Some (py "latin-1")]
             raw)
  ∧ (declared_charset raw = None →
     decode_html_bytes raw = default raw (utf8_decode raw))
  ∧ (∀ enc, declared_charset raw = Some enc →
       truthy enc = true
       ∧ decode_html_bytes raw
         = default (default raw (utf8_decode raw)) (bytes_decode enc raw))
  ∧ (utf8_decode raw = None →
     (∀ enc, declared_charset raw = Some enc → bytes_decode enc raw = None) →
     decode_html_bytes raw = raw).
Proof.
  split.
  { destruct (declared_charset raw) as [enc|] eqn:E.
    - apply declared_charset_truthy in E as [Ht _].
      cbn [decode_attempts]. rewrite Ht, decode_utf8, decode_latin1.
      change (truthy (py "utf-8")) with true.
      change (truthy (py "latin-1")) with true. cbn [negb].
      destruct (bytes_decode enc raw); [eauto|].
      destruct (utf8_decode raw); eauto.
    - cbn [decode_attempts]. rewrite decode_utf8, decode_latin1.
      change (truthy (py "utf-8")) with true.
      change (truthy (py "latin-1")) with true. cbn [negb].
      destruct (utf8_decode raw); eauto. }
  split; [apply decode_html_bytes_undeclared|].
  split.
  { intros enc E. split; [by apply declared_charset_truthy in E as [? _]|].
    by apply decode_html_bytes_declared. }
  intros Hu Hd. destruct (declared_charset raw) as [enc|] eqn:E.
  - by rewrite (decode_html_bytes_declared raw enc E), (Hd enc eq_refl), Hu.
  - by rewrite (decode_html_bytes_undeclared raw E), Hu.
Qed.

(** X14: a page sent as UTF-8 is decoded to exactly its text, whenever it
    declares no charset in its first 4000 bytes, or declares [utf-8] (in
    any letter case, quoted or not), or declares a charset whose codec
    fails on it. *)
Theorem decode_utf8_page `{U : PyUnicode} `{C : PyCodecs} s :
  Forall is_scalar s →
  (∀ enc, declared_charset (utf8_encode s) = Some enc →
          enc = py "utf-8" ∨ bytes_decode enc (utf8_encode s) = None) →
  decode_html_bytes (utf8_encode s) = s.
Proof.
  intros Hs Hd. pose proof (utf8_decode_encode s Hs) as Hdec.
  destruct (declared_charset (utf8_encode s)) as [enc|] eqn:E.
  - rewrite (decode_html_bytes_declared _ enc E), Hdec.
    destruct (Hd enc eq_refl) as [->| ->]; [|done].
    by rewrite decode_utf8, Hdec.
  - by rewrite (decode_html_bytes_undeclared _ E), Hdec.
Qed.

Lemma decode_utf8_page_witness :
  let s := py "<meta charset=UTF-8><td>M" ++ [225%N] ++ py "laga</td>" in
  declared_charset (U := ascii_unicode) (utf8_encode s) = Some (py "utf-8")
  ∧ decode_html_bytes (U := ascii_unicode) (C := two_codecs) (utf8_encode s)
    = s.
Proof.
  intros s.
  assert (E : declared_charset (U := ascii_unicode) (utf8_encode s)
              = Some (py "utf-8")) by (by vm_compute).
  split; [exact E|].
  apply (decode_utf8_page (U := ascii_unicode) (C := two_codecs) s).
  - apply Forall_forall. intros c Hc. left.
    assert (Hlt : Forall (λ c, (c < 256)%N) s).
    { apply (bool_decide_unpack _). by vm_compute. }
    eapply Forall_forall in Hlt; [|exact Hc]. simpl in Hlt. lia.
  - intros enc Henc. rewrite E in Henc. left. by injection Henc as <-.
Defined.

(** X15: [norm_text] repairs text that was sent as UTF-8 and read as
    Latin-1.  For every text of Unicode scalar values that holds a code
    point from U+0080 to U+00FF, the Latin-1 reading of its UTF-8 bytes
    comes back as the text itself, provided that no byte is A0 (which
    [norm_text] first turns into a space) and that the bytes neither begin
    nor end with one that Latin-1 reads as white space. *)
Theorem norm_text_repairs_mojibake s :
  Forall is_scalar s →
  (∃ c, c ∈ s ∧ (128 ≤ c < 256)%N) →
  160%N ∉ utf8_encode s →
  strip (utf8_encode s) = utf8_encode s →
  norm_text (utf8_encode s) = s.
Proof.
  intros Hs (c & Hc & Hrange) Hnb Hstrip. unfold norm_text.
  assert (Hne : truthy (utf8_encode s) = true).
  { destruct (utf8_encode_latin1_lead s c Hc Hrange) as [H|H];
      by destruct (utf8_encode s); [apply elem_of_nil in H|]. }
  rewrite Hne. cbn [negb]. cbv zeta.
  rewrite replace_nbsp_id, Hstrip by done.
  assert (Hcont : contains [195%N] (utf8_encode s)
                  || contains [194%N] (utf8_encode s) = true).
  { destruct (utf8_encode_latin1_lead s c Hc Hrange) as [H|H];
      apply elem_of_contains in H; rewrite H; [apply orb_true_r|done]. }
  rewrite Hcont.
  assert (Hl : latin1_encode_ignore (utf8_encode s) = utf8_encode s).
  { unfold latin1_encode_ignore. apply filter_Forall_id.
    by apply utf8_encode_bytes. }
  rewrite Hl. by apply utf8_decode_ignore_encode.
Qed.

Lemma norm_text_repairs_mojibake_witness :
  norm_text (utf8_encode (py "M" ++ [225%N] ++ py "laga"))
  = py "M" ++ [225%N] ++ py "laga".
Proof.
  apply norm_text_repairs_mojibake.
  - apply Forall_forall. intros c Hc. left.
    assert (Hlt : Forall (λ c, (c < 256)%N) (py "M" ++ [225%N] ++ py "laga")).
    { apply (bool_decide_unpack _). by vm_compute. }
    eapply Forall_forall in Hlt; [|exact Hc]. simpl in Hlt. lia.
  - exists 225%N. split; [|lia]. apply (bool_decide_unpack _). by vm_compute.
  - apply (bool_decide_unpack _). by vm_compute.
  - by vm_compute.
Defined.

(** X16: the text that [norm_text] returns never holds a non-breaking
    space, on either of its paths: it replaces every one by a space, and
    the re-decoding of the repair cannot bring one back. *)
Theorem norm_text_no_nbsp s : 160%N ∉ norm_text s.
Proof.
  unfold norm_text. destruct (negb (truthy s)); [apply not_elem_of_nil|].
  cbv zeta.
  assert (Hn : 160%N ∉ strip (replace_nbsp s))
    by apply not_elem_of_strip, replace_nbsp_no_nbsp.
  destruct (_ || _); [|done].
  apply (utf8_decode_ignore_no_nbsp
           (length (latin1_encode_ignore (strip (replace_nbsp s))))); [done|].
  unfold latin1_encode_ignore. by intros [_ H]%list_elem_of_filter.
Qed.

(** ** The winner column of a run *)

Section RunFacts.
Context `{U : PyUnicode}.

Lemma year_rows_goals tables y r :
  r ∈ year_rows tables y →
  season_page r = y
  ∧ goals_home r = goal_str_0 (parse_score (score r))
  ∧ goals_away r = goal_str_1 (parse_score (score r)).
Proof.
  intros (table & tr & c & st & _ & _ & Hr)%year_rows_from_rows.
  apply tr_rows_cases in Hr as (_ & _ & [[-> _]|[-> _]]).
  - done.
  - split; [done|]. apply leg2_row_goals.
Qed.

Lemma csv_row_in_candidates pages y tables r :
  (y, tables) ∈ pages → r ∈ year_rows tables y →
  csv_row r ∈ candidates pages.
Proof.
  intros Hp Hr. unfold candidates. apply list_elem_of_bind.
  exists (y, tables). split; [|done]. apply list_elem_of_fmap. eauto.
Qed.

Lemma winner_of_scores (a b : N) home_id away_id :
  winner_of (Some a) (Some b) home_id away_id
  = if (a =? b)%N then py "draw"
    else if (b <? a)%N then int64_str home_id
    else int64_str away_id.
Proof.
  unfold winner_of, num_gt, num_lt, num_eq, isna. cbn [orb].
  destruct (N.eqb_spec a b) as [->|Hne]; [done|].
  destruct (N.ltb_spec b a); [done|].
  destruct (N.ltb_spec a b); [done|lia].
Qed.

End RunFacts.

(** X17: in the fact table of a run, the winner of a row follows from its
    score text.  Take a candidate row that comes back from its file as it
    was written.  Its fact row carries the year of its page, its leg number
    and its score text, and a club id for each side whose stripped name is
    not empty.  When the score does not parse, both goal columns and the
    winner are empty.  When it parses to [a] and [b], both below 2^53, the
    goal columns are their decimal texts, and the winner is "draw" for
    equal numbers, else the decimal text of the club id of the side with
    more goals, when that side has one. *)
Theorem run_winner_from_score `{U : PyUnicode} pages out y tables r :
  build (read_back <$> candidates pages) = Some out →
  (y, tables) ∈ pages →
  r ∈ year_rows tables y →
  reads_back r →
  let f := fact_row (cup_map_of (out_dim_cups out))
             (stage_map_norm_of (out_dim_stages out))
             (club_map_of (out_dim_clubs out)) (csv_row r) in
  f ∈ out_fact out
  ∧ f_season_page f = py_str y
  ∧ f_leg_no f = Some (leg_no r)
  ∧ f_score f = score r
  ∧ (strip (home r) ≠ [] → is_Some (f_home_club_id f))
  ∧ (strip (away r) ≠ [] → is_Some (f_away_club_id f))
  ∧ match parse_score (score r) with
    | None => f_goals_home f = [] ∧ f_goals_away f = [] ∧ f_winner f = []
    | Some (a, b) =>
      (a < 2 ^ 53)%N → (b < 2 ^ 53)%N →
      f_goals_home f = py_str a ∧ f_goals_away f = py_str b
      ∧ (a = b → f_winner f = py "draw")
      ∧ (∀ i, (b < a)%N → f_home_club_id f = Some i →
              f_winner f = py_str (N.of_nat i))
      ∧ (∀ i, (a < b)%N → f_away_club_id f = Some i →
              f_winner f = py_str (N.of_nat i))
    end.
Proof.
  intros Hb Hp Hr Hrb.
  assert (Hin : csv_row r ∈ read_back <$> candidates pages).
  { unfold reads_back in Hrb. rewrite <- Hrb. apply list_elem_of_fmap.
    exists (csv_row r). split; [done|].
    by apply (csv_row_in_candidates pages y tables). }
  destruct (year_rows_goals tables y r Hr) as (Hy & Hgh & Hga).
  unfold build in Hb.
  destruct (dim_cups (read_back <$> candidates pages)) as [dc|] eqn:Hdc;
    [|done].
  injection Hb as <-.
  cbn [out_dim_cups out_dim_stages out_dim_clubs out_fact].
  set (df := read_back <$> candidates pages) in *.
  set (f := fact_row _ _ _ (csv_row r)).
  assert (Hw : f_winner f
               = winner_of (fst <$> parse_score (score r))
                   (snd <$> parse_score (score r))
                   (f_home_club_id f) (f_away_club_id f)).
  { unfold f, fact_row, csv_row.
    cbn [f_winner f_home_club_id f_away_club_id df_goals_home df_goals_away
         df_home df_away].
    rewrite Hgh, Hga.
    by destruct (to_numeric_goal_strs (parse_score (score r))) as [-> ->]. }
  destruct (club_map_total df (csv_row r) Hin) as [Hh Ha].
  cbn [csv_row df_home df_away] in Hh, Ha.
  split.
  { unfold fact_table. apply list_elem_of_fmap. eauto. }
  split; [unfold f, fact_row, csv_row; cbn; by rewrite Hy|].
  split; [unfold f, fact_row, csv_row; cbn; apply to_numeric_py_str|].
  split; [done|].
  split.
  { intros Hne. apply Hh. by destruct (strip (home r)). }
  split.
  { intros Hne. apply Ha. by destruct (strip (away r)). }
  assert (Hgh' : f_goals_home f = goal_str_0 (parse_score (score r)))
    by exact Hgh.
  assert (Hga' : f_goals_away f = goal_str_1 (parse_score (score r)))
    by exact Hga.
  destruct (parse_score (score r)) as [[a b]|] eqn:Eps.
  - intros _ _.
    cbn [fmap option_fmap option_map fst snd] in Hw.
    rewrite winner_of_scores in Hw.
    split; [done|]. split; [done|]. rewrite Hw. split; [|split].
    + intros ->. by rewrite N.eqb_refl.
    + intros i Hlt Hi.
      rewrite (proj2 (N.eqb_neq a b)), (proj2 (N.ltb_lt b a)), Hi by lia.
      done.
    + intros i Hlt Hi.
      rewrite (proj2 (N.eqb_neq a b)), (proj2 (N.ltb_ge b a)), Hi by lia.
      done.
  - cbn [fmap option_fmap option_map] in Hw.
    rewrite winner_of_missing in Hw by (by left).
    by rewrite Hw.
Qed.

Lemma run_winner_from_score_witness :
  let tables :=
    [[tr_cupheader "UEFA Cup";
      tr_cells [td_plain "Ajax"; td_plain "NED"; td_plain "Bayern";
                td_plain "GER"; td_plain "2-1"; td_plain "0-3"]]] in
  let pages := [(2004%N, tables)] in
  ∃ out r i,
    build (U := ascii_unicode)
      (read_back <$> candidates (U := ascii_unicode) pages) = Some out
    ∧ year_rows (U := ascii_unicode) tables 2004 !! 1 = Some r
    ∧ let f := fact_row (U := ascii_unicode) (cup_map_of (out_dim_cups out))
                 (stage_map_norm_of (U := ascii_unicode) (out_dim_stages out))
                 (club_map_of (out_dim_clubs out)) (csv_row r) in
      f ∈ out_fact out
      ∧ f_score f = py "3-0" ∧ f_leg_no f = Some 2%N
      ∧ f_home_club_id f = Some i
      ∧ f_winner f = py_str (N.of_nat i).
Proof.
  intros tables pages.
  destruct (build (U := ascii_unicode)
              (read_back <$> candidates (U := ascii_unicode) pages))
    as [out|] eqn:E; [|by vm_compute in E].
  pose (r := leg2_row (U := ascii_unicode) 2004 (py "UEFA Cup") []
               (py "Ajax") (py "NED") (py "Bayern") (py "GER") (py "0-3")).
  assert (Hr : year_rows (U := ascii_unicode) tables 2004 !! 1 = Some r)
    by reflexivity.
  assert (Hp : (2004%N, tables) ∈ pages) by left.
  assert (Hrb : reads_back r) by (by vm_compute).
  destruct (run_winner_from_score (U := ascii_unicode) pages out 2004%N
              tables r E Hp (list_elem_of_lookup_2 _ _ _ Hr) Hrb)
    as (Hf & _ & Hleg & Hscore & Hhome & _ & Hw).
  destruct Hhome as [i Hi]; [by vm_compute|].
  exists out, r, i.
  split; [reflexivity|]. split; [exact Hr|].
  split; [exact Hf|].
  split; [exact Hscore|]. split; [exact Hleg|]. split; [exact Hi|].
  assert (Eps : parse_score (U := ascii_unicode) (score r) = Some (3%N, 0%N))
    by reflexivity.
  rewrite Eps in Hw.
  destruct Hw as (_ & _ & _ & Hw & _); [by vm_compute|by vm_compute|].
  apply Hw; [by vm_compute|exact Hi].
Defined.

(** ** The run of [main] up to the data frame *)




Lemma py_str_Z_N (y : Z) : (0 ≤ y)%Z → py_str_Z y = py_str (Z.to_N y).
Proof.
  intros Hy. unfold py_str_Z, py_str. destruct y as [|p|p]; [done|done|lia].
Qed.






Lemma url_for_year_cases y :
  ((2000 ≤ y ≤ 2026)%Z ∧ ∃ url, url_for_year y = Return url)
  ∨ (¬ (2000 ≤ y ≤ 2026)%Z
     ∧ url_for_year y = Raise (ValueError (py "Unsupported year"))).
Proof.
  unfold url_for_year.
  destruct ((2018 <=? y) && (y <=? 2026))%Z eqn:E5;
    [left; split; [lia|eauto]|].
  destruct ((2009 <=? y) && (y <=? 2017))%Z eqn:E4;
    [left; split; [lia|eauto]|].
  destruct ((2004 <=? y) && (y <=? 2008))%Z eqn:E3;
    [left; split; [lia|eauto]|].
  destruct ((2000 <=? y) && (y <=? 2003))%Z eqn:E2;
    [left; split; [lia|eauto]|].
  right. split; [lia|done].
Qed.



(** A text made of ASCII digits is not one of the words read as missing. *)
Lemma na_blank_digits s : Forall is_digit_code s → na_blank s = s.
Proof.
  intros Hs. unfold na_blank. case_bool_decide as Hin; [|done]. exfalso.
  assert (H : forallb
                (λ w, existsb (λ c, negb ((48 <=? c) && (c <=? 57))%N) w)
                NA_VALUES = true) by (by vm_compute).
  rewrite forallb_forall in H.
  specialize (H s (proj1 (list_elem_of_In _ _) Hin)).
  apply existsb_exists in H as (c & Hc%list_elem_of_In & Hn).
  eapply Forall_forall in Hs; [|exact Hc]. unfold is_digit_code in Hs.
  apply negb_true_iff, andb_false_iff in Hn as [Hn|Hn];
    apply N.leb_gt in Hn; lia.
Qed.


Section RunFacts2.
Context `{U : PyUnicode} `{C : PyCodecs}.
Variable soup_tables : pystr → list (list Tr).

Lemma fetch_loop_requests sess_get url attempts last st :
  net_requests (fetch_loop sess_get url attempts last st).2
  ≤ net_requests st + length attempts.
Proof.
  revert last st. induction attempts as [|a rest IH]; intros last st.
  { simpl. lia. }
  cbn [fetch_loop length].
  destruct (sess_get (net_requests st) url) as [r|e].
  - destruct (resp_ok r).
    + simpl. lia.
    + etrans; [apply IH|]. simpl. lia.
  - destruct (is_Exception e).
    + etrans; [apply IH|]. simpl. lia.
    + simpl. lia.
Qed.








End RunFacts2.

Section RunFacts3.
Context `{U : PyUnicode} `{C : PyCodecs}.
Variable soup_tables : pystr → list (list Tr).


End RunFacts3.

Section RunFacts4.
Context `{U : PyUnicode} `{C : PyCodecs}.
Variable soup_tables : pystr → list (list Tr).


End RunFacts4.



Section RunFacts5.
Context `{U : PyUnicode} `{C : PyCodecs}.
Variable soup_tables : pystr → list (list Tr).
Variable sess_get : nat → pystr → result Response.

Lemma fetch_year_effect st y :
  let st' := fetch_year soup_tables sess_get st y in
  net_requests (run_net st')
  ≤ net_requests (run_net st) + (if decide (2000 ≤ y ≤ 2026)%Z then 3 else 0)
  ∧ (run_files st' = run_files st
     ∨ ((2000 ≤ y ≤ 2026)%Z
        ∧ ∃ html, run_files st'
                  = <[per_file_name y :=
                        read_back
                          <$> (csv_row
                                 <$> year_rows (soup_tables html) (Z.to_N y))]>
                      (run_files st))).
Proof.
  intros st'. unfold st', fetch_year.
  destruct (url_for_year_cases y) as [[Hy [url ->]]|[Hy ->]].
  - rewrite decide_True by done.
    pose proof (fetch_loop_requests sess_get url (seq 1 3) None (run_net st))
      as Hreq.
    unfold fetch_html. change (Z.to_nat 3) with 3.
    destruct (fetch_loop sess_get url (seq 1 3) None (run_net st))
      as [[html|e] net]; cbn [snd run_net run_files] in *.
    + split; [by rewrite length_seq in Hreq|]. right. eauto.
    + split; [by rewrite length_seq in Hreq|]. by left.
  - rewrite decide_False by done. cbn [run_net run_files].
    split; [lia|by left].
Qed.

Lemma year_rows_season tables (y : Z) r :
  (0 ≤ y)%Z →
  r ∈ read_back <$> (csv_row <$> year_rows tables (Z.to_N y)) →
  df_season_page r = py_str_Z y.
Proof.
  intros Hy (d & -> & (r0 & -> & Hr)%list_elem_of_fmap)%list_elem_of_fmap.
  apply year_rows_goals in Hr as [Hs _].
  cbn [read_back csv_row df_season_page].
  rewrite Hs, py_str_Z_N by done.
  apply na_blank_digits, py_str_digit_codes.
Qed.

(** The loop stops early or not: in either case it has run the turns of the
    years of a front part of the list. *)
Lemma fetch_years_prefix st l :
  ∃ l', l' `prefix_of` l
        ∧ fetch_years soup_tables sess_get st l
          = foldl (fetch_year soup_tables sess_get) st l'.
Proof.
  revert st. induction l as [|y l IH]; intros st.
  { by exists []. }
  cbn [fetch_years].
  destruct (run_raised (fetch_year soup_tables sess_get st y)) eqn:E.
  - exists [y]. split; [|done]. apply prefix_cons, prefix_nil.
  - destruct (IH (fetch_year soup_tables sess_get st y)) as (l' & Hp & ->).
    exists (y :: l'). split; [by apply prefix_cons|done].
Qed.

Lemma fetch_turns_invariants st l :
  let st' := foldl (fetch_year soup_tables sess_get) st l in
  (∀ name, (∀ y, y ∈ l → (2000 ≤ y ≤ 2026)%Z → name ≠ per_file_name y) →
           run_files st' !! name = run_files st !! name)
  ∧ net_requests (run_net st')
    ≤ net_requests (run_net st)
      + 3 * length (filter (λ y, (2000 ≤ y ≤ 2026)%Z) l)
  ∧ (∀ name rows,
       run_files st' !! name = Some rows →
       run_files st !! name = Some rows
       ∨ ∃ y, y ∈ l ∧ (2000 ≤ y ≤ 2026)%Z ∧ name = per_file_name y
              ∧ ∀ r, r ∈ rows → df_season_page r = py_str_Z y).
Proof.
  revert st. induction l as [|y l IH]; intros st st'.
  { subst st'. split; [done|]. split; [simpl; lia|].
    intros name rows Hl. by left. }
  unfold st'. cbn [foldl].
  destruct (IH (fetch_year soup_tables sess_get st y)) as (IH1 & IH2 & IH3).
  destruct (fetch_year_effect st y) as (Hreq & Hfiles).
  set (st1 := fetch_year soup_tables sess_get st y) in *.
  split; [|split].
  - intros name Hname. rewrite IH1.
    2:{ intros y' Hy'. apply Hname. by right. }
    destruct Hfiles as [->|[Hy [html ->]]]; [done|].
    apply lookup_insert_ne. intros E. by apply (Hname y); [left| |].
  - rewrite filter_cons.
    destruct (decide (2000 ≤ y ≤ 2026)%Z); simpl in *; lia.
  - intros name rows Hl. apply IH3 in Hl as [Hl|(y' & Hy' & Hs & -> & Hr)].
    + destruct Hfiles as [E|[Hy [html E]]]; rewrite E in Hl; [by left|].
      destruct (decide (name = per_file_name y)) as [->|Hne].
      * rewrite lookup_insert_eq in Hl. injection Hl as <-.
        right. exists y. split; [left|]. split; [done|]. split; [done|].
        intros r Hr. apply year_rows_season in Hr; [done|lia].
      * rewrite lookup_insert_ne in Hl by done. by left.
    + right. exists y'. split; [by right|done].
Qed.

End RunFacts5.

(** X19: the loop of [main] over the years to fetch, for any behaviour of
    the server.  A file that is not the file of a supported year of the
    list (2000 to 2026) is left as it was; no more than three requests are
    sent for each supported year of the list, and none for any other; and a
    file found afterwards either was there before with the same rows, or is
    the file of a supported year of the list and all its rows carry that
    year. *)
Theorem fetch_years_invariants `{U : PyUnicode} `{C : PyCodecs}
    (soup_tables : pystr → list (list Tr))
    (sess_get : nat → pystr → result Response) st l :
  let st' := fetch_years soup_tables sess_get st l in
  (∀ name, (∀ y, y ∈ l → (2000 ≤ y ≤ 2026)%Z → name ≠ per_file_name y) →
           run_files st' !! name = run_files st !! name)
  ∧ net_requests (run_net st')
    ≤ net_requests (run_net st)
      + 3 * length (filter (λ y, (2000 ≤ y ≤ 2026)%Z) l)
  ∧ (∀ name rows,
       run_files st' !! name = Some rows →
       run_files st !! name = Some rows
       ∨ ∃ y, y ∈ l ∧ (2000 ≤ y ≤ 2026)%Z ∧ name = per_file_name y
              ∧ ∀ r, r ∈ rows → df_season_page r = py_str_Z y).
Proof.
  intros st'. subst st'.
  destruct (fetch_years_prefix soup_tables sess_get st l)
    as (l' & [k ->] & ->).
  destruct (fetch_turns_invariants soup_tables sess_get st l')
    as (H1 & H2 & H3).
  split; [|split].
  - intros name Hname. apply H1. intros y Hy. apply Hname, elem_of_app.
    by left.
  - etrans; [exact H2|]. rewrite filter_app, length_app. lia.
  - intros name rows [?|(y & Hy & ?)]%H3; [by left|right].
    exists y. split; [apply elem_of_app; by left|done].
Qed.

(** X23: an exception of [sess.get] that [except Exception] lets through,
    [SystemExit] or [KeyboardInterrupt], is caught neither in [fetch_html]
    nor in the loop of [main].  It leaves [fetch_html] at the request that
    raised it, with no further attempt and no sleep; the loop over the
    years ends there, with the files as they were before the turn and the
    years behind it not fetched; and [main] ends with that exception,
    without a data frame. *)
Theorem uncaught_exception_ends_run `{U : PyUnicode} `{C : PyCodecs}
    (soup_tables : pystr → list (list Tr))
    (sess_get : nat → pystr → result Response) st y rest url e :
  url_for_year y = Return url →
  sess_get (net_requests (run_net st)) url = Raise e →
  is_Exception e = false →
  fetch_html sess_get url 3 (run_net st)
  = (Raise e, net_request (run_net st))
  ∧ fetch_years soup_tables sess_get st (y :: rest)
    = {| run_net := net_request (run_net st); run_files := run_files st;
         run_raised := Some e |}
  ∧ (∀ years overwrite,
       to_fetch (dom (run_files st)) years overwrite = Some (y :: rest) →
       main_frame soup_tables sess_get st years overwrite = Raise e).
Proof.
  intros Hurl He Hex.
  assert (Hf : fetch_html sess_get url 3 (run_net st)
               = (Raise e, net_request (run_net st))).
  { unfold fetch_html. change (Z.to_nat 3) with 3. cbn [seq].
    by apply fetch_loop_uncaught. }
  assert (Hy : fetch_years soup_tables sess_get st (y :: rest)
               = {| run_net := net_request (run_net st);
                    run_files := run_files st; run_raised := Some e |}).
  { cbn [fetch_years]. unfold fetch_year. rewrite Hurl, Hf.
    unfold uncaught. rewrite Hex. done. }
  split; [done|]. split; [done|].
  intros years overwrite Hto. unfold main_frame. rewrite Hto. cbv zeta.
  by rewrite Hy.
Qed.

Lemma uncaught_exception_ends_run_witness :
  let sess_get := λ (n : nat) (url : pystr),
    if decide (n = 0)
    then Return {| resp_ok := true; resp_status_code := 200;
                   resp_content := [] |}
    else Raise KeyboardInterrupt in
  let st0 := {| run_net := {| net_requests := 0; net_slept := [] |};
                run_files := ∅; run_raised := None |} in
  let st := fetch_years (U := ascii_unicode) (C := two_codecs) (λ _, [])
              sess_get st0 [2004; 2005; 2006]%Z in
  net_requests (run_net st) = 2
  ∧ net_slept (run_net st) = []
  ∧ run_raised st = Some KeyboardInterrupt
  ∧ dom (run_files st) = {[ per_file_name 2004 ]}.
Proof.
  intros sess_get st0.
  pose (st1 := fetch_year (U := ascii_unicode) (C := two_codecs) (λ _, [])
                 sess_get st0 2004).
  assert (E1 : st1 = {| run_net := {| net_requests := 1; net_slept := [] |};
                        run_files := {[ per_file_name 2004 := [] ]};
                        run_raised := None |}) by reflexivity.
  destruct (uncaught_exception_ends_run (U := ascii_unicode)
              (C := two_codecs) (λ _, []) sess_get st1 2005 [2006]%Z
              (py "https://kassiesa.net/uefa/data/method3/match2005.html")
              KeyboardInterrupt)
    as (_ & Hy & _); [reflexivity|by rewrite E1|reflexivity|].
  intros st.
  assert (Est : st = fetch_years (U := ascii_unicode) (C := two_codecs)
                       (λ _, []) sess_get st1 [2005; 2006]%Z)
    by reflexivity.
  rewrite Est, Hy, E1. cbn [run_net run_files run_raised net_request
                            net_requests net_slept].
  split; [done|]. split; [done|]. split; [done|].
  by rewrite dom_singleton_L.
Defined.

Section PageFacts.
Context `{U : PyUnicode}.

Lemma parse_table_matches_nil c st y acc :
  parse_table_matches [] c st y acc
  = {| current_cup := c; current_stage := st; rows_acc := acc |}.
Proof. done. Qed.

Lemma parse_page_fold tables y w :
  foldl (λ w table,
           parse_table_matches table (current_cup w) (current_stage w) y
             (rows_acc w)) w tables
  = parse_table_matches (concat tables) (current_cup w) (current_stage w) y
      (rows_acc w).
Proof.
  revert w. induction tables as [|t tables IH]; intros w.
  { by destruct w. }
  cbn [foldl concat]. rewrite IH. by rewrite parse_table_matches_app.
Qed.

End PageFacts.

(** X18: how the rows of a page are divided into tables has no effect:
    a page gives the same candidate rows, and ends in the same competition
    and stage, as the single table that holds all its rows in order. *)
Theorem page_tables_as_one `{U : PyUnicode} tables y :
  parse_page tables y = parse_page [concat tables] y
  ∧ year_rows tables y = year_rows [concat tables] y
  ∧ year_rows tables y
    = rows_acc (parse_table_matches (concat tables) [] [] y []).
Proof.
  assert (H : parse_page tables y = parse_page [concat tables] y).
  { unfold parse_page. by rewrite parse_page_fold. }
  split; [done|]. unfold year_rows. rewrite H. split; [done|].
  unfold parse_page. by cbn.
Qed.

(** ** What the score parser accepts *)

Lemma dropwhile_split p s :
  ∃ ws, s = ws ++ dropwhile p s ∧ forallb p ws = true.
Proof.
  induction s as [|c s (ws & Hs & Hws)]; [by exists []|].
  cbn [dropwhile]. destruct (p c) eqn:E.
  - exists (c :: ws). split; [by rewrite <- app_comm_cons, <- Hs|].
    cbn. by rewrite E, Hws.
  - by exists [].
Qed.

Section Shape.
Context `{U : PyUnicode}.

Lemma span_digits_spec s g rest :
  span_digits s = (g, rest) →
  s = g ++ rest ∧ Forall (λ c, is_Some (decimal c)) g
  ∧ match rest with [] => True | c :: _ => decimal c = None end.
Proof.
  revert g rest. induction s as [|c s IH]; intros g rest; cbn [span_digits].
  { intros [= <- <-]. split; [done|]. split; [apply Forall_nil_2|done]. }
  destruct (decimal c) as [d|] eqn:E.
  - destruct (span_digits s) as [ds r] eqn:Es. intros [= <- <-].
    destruct (IH ds r eq_refl) as (-> & Hds & Hr).
    split; [done|]. split; [|done].
    apply Forall_cons. split; [rewrite E; eauto|done].
  - intros [= <- <-]. split; [done|]. split; [apply Forall_nil_2|done].
Qed.

Lemma score_match_shape s g1 g2 :
  score_match s = Some (g1, g2) →
  ∃ ws1 ws2 d ws3 ws4,
    s = ws1 ++ g1 ++ ws2 ++ [d] ++ ws3 ++ g2 ++ ws4
    ∧ forallb isspace ws1 = true ∧ forallb isspace ws2 = true
    ∧ forallb isspace ws3 = true ∧ forallb isspace ws4 = true
    ∧ is_dash d = true
    ∧ truthy g1 = true ∧ truthy g2 = true
    ∧ Forall (λ c, is_Some (decimal c)) g1
    ∧ Forall (λ c, is_Some (decimal c)) g2.
Proof.
  unfold score_match.
  destruct (dropwhile_split isspace s) as (ws1 & Hs & Hws1).
  destruct (span_digits (dropwhile isspace s)) as [g1' s1] eqn:E1.
  apply span_digits_spec in E1 as (Hd1 & Hg1 & _).
  destruct (truthy g1') eqn:Et1; [|done]. cbn [negb].
  destruct (dropwhile_split isspace s1) as (ws2 & Hs1 & Hws2).
  destruct (dropwhile isspace s1) as [|d s2] eqn:E2; [done|].
  destruct (is_dash d) eqn:Ed; [|done]. cbn [negb].
  destruct (dropwhile_split isspace s2) as (ws3 & Hs2 & Hws3).
  destruct (span_digits (dropwhile isspace s2)) as [g2' s3] eqn:E3.
  apply span_digits_spec in E3 as (Hd3 & Hg2 & _).
  destruct (truthy g2') eqn:Et2; [|done]. cbn [negb].
  destruct (forallb isspace s3) eqn:E4; [|done].
  intros [= <- <-].
  exists ws1, ws2, d, ws3, s3.
  split; [|done].
  rewrite Hs at 1. f_equal. rewrite Hd1. f_equal.
  rewrite Hs1 at 1. f_equal. cbn [app]. f_equal.
  rewrite Hs2 at 1. f_equal. done.
Qed.

End Shape.

Lemma dropwhile_head p s c r : dropwhile p s = c :: r → p c = false.
Proof.
  induction s as [|x s IH]; [done|]. cbn [dropwhile].
  destruct (p x) eqn:E; [done|]. by intros [= <- <-].
Qed.

Lemma strip_last s t c : strip s = t ++ [c] → isspace c = false.
Proof.
  unfold strip, rstrip. intros H.
  apply (f_equal reverse) in H. rewrite reverse_involutive, reverse_snoc in H.
  by apply dropwhile_head in H.
Qed.

Lemma strip_first s c t : strip s = c :: t → isspace c = false.
Proof.
  intros H. destruct (strip_shape s) as [E|(c' & t' & E & Hc)];
    rewrite E in H; [done|]. by injection H as <- _.
Qed.

(** X21: what [parse_score] accepts.  When it returns a pair, the stripped
    text is a non-empty run of decimal digits, white space, a hyphen or an
    en dash, white space, and a non-empty run of decimal digits, with
    nothing before, between or after; the pair is the values of the two
    runs.  Text with anything else in it, a note behind the score for
    one, gives no goals. *)
Theorem parse_score_shape `{U : PyUnicode} s a b :
  parse_score s = Some (a, b) →
  ∃ g1 ws2 d ws3 g2,
    strip s = g1 ++ ws2 ++ [d] ++ ws3 ++ g2
    ∧ forallb isspace ws2 = true ∧ forallb isspace ws3 = true
    ∧ is_dash d = true
    ∧ truthy g1 = true ∧ truthy g2 = true
    ∧ Forall (λ c, is_Some (decimal c)) g1
    ∧ Forall (λ c, is_Some (decimal c)) g2
    ∧ a = py_int g1 ∧ b = py_int g2.
Proof.
  unfold parse_score. destruct (negb (truthy s)); [done|].
  destruct (score_match (strip s)) as [[g1 g2]|] eqn:E; [|done].
  intros [= <- <-].
  apply score_match_shape in E
    as (ws1 & ws2 & d & ws3 & ws4 & Hs & H1 & H2 & H3 & H4 & Hd & Ht1 & Ht2
        & Hg1 & Hg2).
  assert (ws1 = []) as ->.
  { destruct ws1 as [|w ws1]; [done|].
    apply strip_first in Hs. cbn in H1. by rewrite Hs in H1. }
  assert (ws4 = []) as ->.
  { destruct ws4 as [|w ws4 _] using rev_ind; [done|].
    rewrite forallb_app in H4. cbn in H4.
    rewrite !app_assoc in Hs. apply strip_last in Hs.
    rewrite Hs in H4. by rewrite andb_false_r in H4. }
  exists g1, ws2, d, ws3, g2. rewrite app_nil_r in Hs. done.
Qed.

Lemma parse_score_shape_witness :
  ∃ g1 ws2 d ws3 g2,
    strip (py " 2 - 1 ") = g1 ++ ws2 ++ [d] ++ ws3 ++ g2
    ∧ is_dash d = true
    ∧ py_int (U := ascii_unicode) g1 = 2%N
    ∧ py_int (U := ascii_unicode) g2 = 1%N.
Proof.
  destruct (parse_score_shape (U := ascii_unicode) (py " 2 - 1 ") 2 1 eq_refl)
    as (g1 & ws2 & d & ws3 & g2 & Hs & _ & _ & Hd & _ & _ & _ & _ & Ha & Hb).
  exists g1, ws2, d, ws3, g2. done.
Defined.

(** ** Writing the tables *)



